(** * Therapy_Esther: alignment, grouping and windowing of session transcripts

    A shallow embedding of the alignment loop of [data.py], of the two
    utterance groupers ([preprocess_data.py], [preprocessing_data_3.py]), of
    the sliding-window builder of [preprocessing_data_3.py], of the parser
    of the converters, of the two [convert_file] and of the three [main]
    functions, followed by the properties of the specification that can be
    stated over them and by further properties of the code.

    Modelling conventions.
    - Time stamps are Python floats.  [Data64] embeds them as binary64
      numbers, with the operations of the Standard Library's [SpecFloat]:
      it is the embedding for everything that depends on the value of a
      score or of a distance.  [Data] embeds them as exact rationals; it is
      used for what depends only on whether the divisor of line 115 is
      zero, which is when the end of a segment equals its start.
    - A Python exception is a value [Raise e] of the [result] monad.
    - A diarization speaker tag is embedded as the string that the f-string
      [f"Speaker {tag}"] renders for it.
    - Text is a string of characters with code points below 256; among
      these the decimal digits of [\d] are 0 to 9, and the white space of
      [\s] and of [str.strip] is 9 to 13, 28 to 32, 133 and 160.
    - A file is the text stored in it, or the lines written to it so far.
      It is read in text mode, which turns a carriage return, with or
      without a line feed behind it, into a line feed; it is written on a
      system whose line separator is the line feed.  What the transcription
      and diarization services return is an input.
    - [dict]/[set] with string keys are stdpp's [gmap]/[gset].
    - [str(n)] of an integer is stdpp's [pretty]. *)

From Stdlib Require Import Ascii String QArith Qabs Qminmax Lqa SpecFloat.
From stdpp Require Import gmap strings list pretty.
From Equations Require Import Equations.

Open Scope string_scope.
Open Scope list_scope.

(** ** Python exceptions as an error monad *)

Inductive exn : Set := ZeroDivisionError | IndexError.

Inductive result (A : Type) : Type :=
| Ok (a : A)
| Raise (e : exn).
Arguments Ok {A} a.
Arguments Raise {A} e.

Definition bind {A B} (r : result A) (k : A -> result B) : result B :=
  match r with
  | Ok a => k a
  | Raise e => Raise e
  end.

Notation "'let*' x ':=' r 'in' k" := (bind r (fun x => k))
  (at level 10, x name, r at level 100, k at level 200, only parsing).

(** ** Rational comparisons used by the loops *)

Definition Qltb (a b : Q) : bool := negb (Qle_bool b a).

(** ** [str.strip()]

    The white space of Python among the code points below 256. *)

Definition is_space (c : ascii) : bool :=
  let n := nat_of_ascii c in
  ((9 <=? n)%nat && (n <=? 13)%nat) || ((28 <=? n)%nat && (n <=? 32)%nat)
  || (n =? 133)%nat || (n =? 160)%nat.

Fixpoint lstrip (s : string) : string :=
  match s with
  | String c s' => if is_space c then lstrip s' else s
  | EmptyString => EmptyString
  end.

Fixpoint rstrip (s : string) : string :=
  match s with
  | String c s' =>
      match rstrip s' with
      | EmptyString => if is_space c then EmptyString else String c EmptyString
      | r => String c r
      end
  | EmptyString => EmptyString
  end.

Definition strip (s : string) : string := rstrip (lstrip s).

(** * data.py *)

Module Data.

Record TranscriptSegment : Type := {
  t_start : Q;
  t_end : Q;
  t_text : string
}.

Record SpeakerSegment : Type := {
  start_sec : Q;
  end_sec : Q;
  speaker_tag : string
}.

(** [a / b] on Python floats: a zero divisor raises. *)
Definition py_div (a b : Q) : result Q :=
  if Qeq_bool b 0 then Raise ZeroDivisionError else Ok (a / b)%Q.

Definition overlap (t : TranscriptSegment) (s : SpeakerSegment) : Q :=
  (Qmin (t_end t) (end_sec s) - Qmax (t_start t) (start_sec s))%Q.

Definition segment_score (t : TranscriptSegment) (s : SpeakerSegment) : result Q :=
  py_div (overlap t s) (t_end t - t_start t)%Q.

(** The inner loop of lines 127-131, from a given [max_score] and
    [best_s_segment]. *)
Fixpoint best_loop (t : TranscriptSegment) (ss : list SpeakerSegment)
    (max_score : Q) (best : option SpeakerSegment)
  : result (Q * option SpeakerSegment) :=
  match ss with
  | [] => Ok (max_score, best)
  | s :: ss' =>
      let* score := segment_score t s in
      if Qltb max_score score
      then best_loop t ss' score (Some s)
      else best_loop t ss' max_score best
  end.

Definition best_s_segment (t : TranscriptSegment) (ss : list SpeakerSegment)
  : result (option SpeakerSegment) :=
  let* r := best_loop t ss 0%Q None in Ok (snd r).

(** Distances of the fallback search; [Inf] is [float('inf')]. *)
Inductive dist : Type := Fin (q : Q) | Inf.

Definition dist_ltb (d : Q) (m : dist) : bool :=
  match m with
  | Inf => true
  | Fin q => Qltb d q
  end.

Definition midpoint (a b : Q) : Q := ((a + b) / 2)%Q.

Definition mid_distance (t : TranscriptSegment) (s : SpeakerSegment) : Q :=
  Qabs (midpoint (t_start t) (t_end t) - midpoint (start_sec s) (end_sec s))%Q.

(** The fallback loop of lines 145-150. *)
Fixpoint closest_loop (t : TranscriptSegment) (ss : list SpeakerSegment)
    (min_distance : dist) (closest : option SpeakerSegment)
  : option SpeakerSegment :=
  match ss with
  | [] => closest
  | s :: ss' =>
      let distance := mid_distance t s in
      if dist_ltb distance min_distance
      then closest_loop t ss' (Fin distance) (Some s)
      else closest_loop t ss' min_distance closest
  end.

Definition closest_segment (t : TranscriptSegment) (ss : list SpeakerSegment)
  : option SpeakerSegment :=
  closest_loop t ss Inf None.

Definition label_of (s : SpeakerSegment) : string := "Speaker " +:+ speaker_tag s.

Definition fallback_label (t : TranscriptSegment) (ss : list SpeakerSegment) : string :=
  match closest_segment t ss with
  | Some s => label_of s
  | None => "Speaker Unknown"
  end.

(** Lines 125-155: the label chosen for one transcript segment. *)
Definition speaker_label (t : TranscriptSegment) (ss : list SpeakerSegment)
  : result string :=
  let* best := best_s_segment t ss in
  match best with
  | Some s => Ok (label_of s)
  | None => Ok (fallback_label t ss)
  end.

(** The overlap ratio as a number, for segments of non-zero duration. *)
Definition score (t : TranscriptSegment) (s : SpeakerSegment) : Q :=
  (overlap t s / (t_end t - t_start t))%Q.

Definition line_of (speaker_label : string) (t : TranscriptSegment) : string :=
  speaker_label +:+ ": " +:+ t_text t.

(** Lines 123-160: the output file is the list of lines written so far; a
    line is written (and flushed) as soon as its segment is attributed, and
    an exception leaves the lines already written in place. *)
Fixpoint process_audio_file (transcript_segments : list TranscriptSegment)
    (speaker_segments : list SpeakerSegment) (f : list string)
  : list string * result bool :=
  match transcript_segments with
  | [] => (f, Ok true)
  | t :: rest =>
      match speaker_label t speaker_segments with
      | Ok l => process_audio_file rest speaker_segments (f ++ [line_of l t])
      | Raise e => (f, Raise e)
      end
  end.

End Data.

(** * Binary64 arithmetic

    A Python [float] is an IEEE 754 binary64 number.  [spec_float] with
    precision 53 and maximal exponent 1024 is the Standard Library's
    executable specification of these numbers and of their operations,
    rounding to nearest, ties to even.  A value of the program is a
    [valid] one. *)

Module Binary64.

Definition prec : Z := 53.
Definition emax : Z := 1024.

Definition float : Type := spec_float.

Definition valid (x : float) : Prop := valid_binary prec emax x = true.

Definition zero : float := S754_zero false.
Definition inf : float := S754_infinity false.
Definition of_Z (n : Z) : float := binary_normalize prec emax n 0 false.

Definition add : float -> float -> float := SFadd prec emax.
Definition sub : float -> float -> float := SFsub prec emax.
Definition div : float -> float -> float := SFdiv prec emax.
Definition abs : float -> float := SFabs.
Definition ltb : float -> float -> bool := SFltb.
Definition leb : float -> float -> bool := SFleb.
Definition eqb : float -> float -> bool := SFeqb.

Definition is_nan (x : float) : bool :=
  match x with S754_nan => true | _ => false end.

Definition is_finite (x : float) : bool :=
  match x with S754_zero _ | S754_finite _ _ _ => true | _ => false end.

(** The key of a float that is not NaN: the order of the keys, taken
    lexicographically, is the order of [SFcompare]. *)
Definition key (x : float) : Z * Z * Z :=
  match x with
  | S754_nan => (0, 0, 0)%Z
  | S754_infinity true => (-2, 0, 0)%Z
  | S754_infinity false => (2, 0, 0)%Z
  | S754_zero _ => (0, 0, 0)%Z
  | S754_finite true m e => (-1, - e, Z.neg m)%Z
  | S754_finite false m e => (1, e, Z.pos m)%Z
  end.

Definition key_lt (a b : Z * Z * Z) : Prop :=
  (a.1.1 < b.1.1 \/
   a.1.1 = b.1.1 /\ (a.1.2 < b.1.2 \/ a.1.2 = b.1.2 /\ a.2 < b.2))%Z.



(** Neither a zero nor NaN. *)
Definition nonzero (x : float) : bool :=
  match x with S754_zero _ | S754_nan => false | _ => true end.

(** [min(a, b)] and [max(a, b)]: the second argument replaces the first
    when it compares below (above) it. *)
Definition py_min (a b : float) : float := if ltb b a then b else a.
Definition py_max (a b : float) : float := if ltb a b then b else a.

(** [a / b]: a zero divisor, of either sign, raises. *)
Definition truediv (a b : float) : result float :=
  if eqb b zero then Raise ZeroDivisionError else Ok (div a b).

End Binary64.

(** * data.py on binary64 time stamps *)

Module Data64.
Import Binary64.

Record TranscriptSegment : Type := {
  t_start : float;
  t_end : float;
  t_text : string
}.

Record SpeakerSegment : Type := {
  start_sec : float;
  end_sec : float;
  speaker_tag : string
}.

Definition overlap (t : TranscriptSegment) (s : SpeakerSegment) : float :=
  sub (py_min (t_end t) (end_sec s)) (py_max (t_start t) (start_sec s)).

(** The divisor of line 115. *)
Definition duration (t : TranscriptSegment) : float :=
  sub (t_end t) (t_start t).

(** Lines 109-116. *)
Definition segment_score (t : TranscriptSegment) (s : SpeakerSegment)
  : result float :=
  truediv (overlap t s) (duration t).

(** The loop of lines 127-131, from the state ([max_score],
    [best_s_segment]).  [max_score] starts as the integer 0, which compares
    with a float as 0.0 does. *)
Fixpoint best_loop (t : TranscriptSegment) (ss : list SpeakerSegment)
    (max_score : float) (best : option SpeakerSegment)
  : result (float * option SpeakerSegment) :=
  match ss with
  | [] => Ok (max_score, best)
  | s :: rest =>
      let* score := segment_score t s in
      if ltb max_score score
      then best_loop t rest score (Some s)
      else best_loop t rest max_score best
  end.

Definition best_s_segment (t : TranscriptSegment) (ss : list SpeakerSegment)
  : result (option SpeakerSegment) :=
  let* r := best_loop t ss zero None in Ok (snd r).

(** [(a + b) / 2]: the divisor is the literal 2. *)
Definition midpoint (a b : float) : float := div (add a b) (of_Z 2).

Definition mid_distance (t : TranscriptSegment) (s : SpeakerSegment) : float :=
  abs (sub (midpoint (t_start t) (t_end t)) (midpoint (start_sec s) (end_sec s))).

(** The loop of lines 145-150, from the state ([min_distance],
    [closest_segment]). *)
Fixpoint closest_loop (t : TranscriptSegment) (ss : list SpeakerSegment)
    (min_distance : float) (closest : option SpeakerSegment)
  : option SpeakerSegment :=
  match ss with
  | [] => closest
  | s :: rest =>
      let distance := mid_distance t s in
      if ltb distance min_distance
      then closest_loop t rest distance (Some s)
      else closest_loop t rest min_distance closest
  end.

Definition closest_segment (t : TranscriptSegment) (ss : list SpeakerSegment)
  : option SpeakerSegment :=
  closest_loop t ss inf None.

Definition label_of (s : SpeakerSegment) : string := "Speaker " +:+ speaker_tag s.

Definition fallback_label (t : TranscriptSegment) (ss : list SpeakerSegment) : string :=
  match closest_segment t ss with
  | Some s => label_of s
  | None => "Speaker Unknown"
  end.

(** Lines 125-155: the label chosen for one transcript segment. *)
Definition speaker_label (t : TranscriptSegment) (ss : list SpeakerSegment)
  : result string :=
  let* best := best_s_segment t ss in
  match best with
  | Some s => Ok (label_of s)
  | None => Ok (fallback_label t ss)
  end.

(** The overlap ratio, when the division does not raise. *)
Definition score (t : TranscriptSegment) (s : SpeakerSegment) : float :=
  div (overlap t s) (duration t).

Definition line_of (speaker_label : string) (t : TranscriptSegment) : string :=
  speaker_label +:+ ": " +:+ t_text t.

(** The loop of lines 124-160, from the lines written so far: a line is
    written (and flushed) as soon as its segment is attributed, and an
    exception leaves the lines already written in place. *)
Fixpoint alignment_loop (transcript_segments : list TranscriptSegment)
    (speaker_segments : list SpeakerSegment) (written : list string)
  : list string * result bool :=
  match transcript_segments with
  | [] => (written, Ok true)
  | t :: rest =>
      match speaker_label t speaker_segments with
      | Ok l => alignment_loop rest speaker_segments (written ++ [line_of l t])
      | Raise e => (written, Raise e)
      end
  end.

(** Lines 123-163: the output file is opened for writing, so it starts
    empty; the result is the lines it holds in the end and the outcome. *)
Definition process_audio_file (transcript_segments : list TranscriptSegment)
    (speaker_segments : list SpeakerSegment) : list string * result bool :=
  alignment_loop transcript_segments speaker_segments [].

(** A segment whose time stamps are binary64 values. *)
Definition valid_segment (t : TranscriptSegment) : Prop :=
  valid (t_start t) /\ valid (t_end t).

End Data64.

(** * The converter state shared by preprocess_data.py and
      preprocessing_data_3.py

    Lines 7-34 are the same text in both files. *)

Record ConversationConverter : Type := {
  speaker_mapping : gmap string string;
  excluded_speakers : gset string;
  therapist_speakers : gset string
}.

(** [__init__] *)
Definition init : ConversationConverter :=
  {| speaker_mapping := ∅; excluded_speakers := ∅; therapist_speakers := ∅ |}.

(** [partner_mappings] is a dict from partner name to speaker ids, iterated
    in insertion order: an association list. *)
Definition map_partner (partner_name : string) (speakers : list string)
    (m : gmap string string) : gmap string string :=
  fold_left (fun m speaker => <[speaker := partner_name]> m) speakers m.

Definition setup_speaker_mapping (self : ConversationConverter)
    (therapist_speakers : list string)
    (partner_mappings : list (string * list string))
    (excluded_speakers : option (list string)) : ConversationConverter :=
  let m1 := fold_left (fun m kv => map_partner (fst kv) (snd kv) m)
              partner_mappings (speaker_mapping self) in
  let m2 := fold_left (fun m therapist => <[therapist := "therapist"]> m)
              therapist_speakers m1 in
  {| speaker_mapping := m2;
     excluded_speakers := list_to_set (default [] excluded_speakers);
     therapist_speakers := list_to_set therapist_speakers |}.

(** An utterance dict [{'speaker': ..., 'text': ...}]. *)
Record Utterance : Type := {
  speaker : string;
  text : string
}.

Inductive Role : Set := therapist | client.

Global Instance Role_eq_dec : EqDecision Role.
Proof. solve_decision. Defined.

(** Lines 78-89 of [group_consecutive_utterances] (79-90 in
    preprocessing_data_3.py): [None] is [continue]; otherwise the role.  For
    a client the second component is the entry [self.speaker_mapping[speaker]],
    which the membership test of line 85 finds and line 105 reads; for the
    therapist no entry is read and the second component is not used. *)
Definition classify (self : ConversationConverter) (speaker : string)
  : option (Role * string) :=
  if decide (speaker ∈ excluded_speakers self) then None
  else if decide (speaker ∈ therapist_speakers self) then Some (therapist, "")
  else match speaker_mapping self !! speaker with
       | Some partner_name => Some (client, partner_name)
       | None => None
       end.

Definition prefixed (partner_name text : string) : string :=
  "[" +:+ partner_name +:+ "]: " +:+ text.

(** The string of the one character line feed, Python's newline escape. *)
Definition newline : string := String (ascii_of_nat 10) EmptyString.

(** [sep.join(lines)] *)
Fixpoint join (sep : string) (lines : list string) : string :=
  match lines with
  | [] => ""
  | [x] => x
  | x :: rest => x +:+ sep +:+ join sep rest
  end.

Inductive From : Set := human | gpt.

Global Instance From_eq_dec : EqDecision From.
Proof. solve_decision. Defined.

(** A message dict [{"from": ..., "value": ...}]. *)
Record Msg : Type := {
  from : From;
  value : string
}.

(** * Notions used to state the grouper properties *)

(** The utterances the groupers keep: those the classification of lines
    78-89 does not skip. *)
Definition mapped (self : ConversationConverter) (utterances : list Utterance)
  : list Utterance :=
  filter (fun u => is_Some (classify self (speaker u))) utterances.

(** A speaker the profile excludes, or one it does not know at all. *)
Definition dropped (self : ConversationConverter) (speaker : string) : Prop :=
  speaker ∈ excluded_speakers self \/
  ((speaker ∉ therapist_speakers self) /\ speaker_mapping self !! speaker = None).

(** The line of an utterance under the always-prefix policy. *)
Definition always_prefixed (self : ConversationConverter) (u : Utterance) : string :=
  match classify self (speaker u) with
  | Some (client, partner_name) => prefixed partner_name (text u)
  | _ => text u
  end.

(** A line equals another up to a leading "[partner]: ". *)
Definition same_up_to_prefix (la lb : string) : Prop :=
  la = lb \/ exists partner_name, la = prefixed partner_name lb.

(** The role a message stands for. *)
Definition from_of_role (r : option Role) : From :=
  if decide (r = Some client) then human else gpt.

(** No two neighbours of the list are equal. *)
Fixpoint alternates {A} (l : list A) : Prop :=
  match l with
  | x :: ((y :: _) as l') => x <> y /\ alternates l'
  | _ => True
  end.

(** * preprocess_data.py *)

Module PreprocessData.

Record Group : Type := {
  role : option Role;
  content : list string
}.

(** One iteration of the loop of lines 75-106 on the pair
    [(grouped, current_group)]. *)
Definition step (self : ConversationConverter) (st : list Group * Group)
    (utterance : Utterance) : list Group * Group :=
  match classify self (speaker utterance) with
  | None => st
  | Some (r, partner_name) =>
      let '(grouped, current_group) := st in
      let '(grouped, current_group) :=
        if decide (role current_group ≠ Some r) then
          ((if decide (role current_group ≠ None)
            then grouped ++ [current_group] else grouped),
           {| role := Some r; content := [] |})
        else (grouped, current_group) in
      match r with
      | therapist =>
          (grouped, {| role := role current_group;
                       content := content current_group ++ [text utterance] |})
      | client =>
          (grouped, {| role := role current_group;
                       content := content current_group
                                    ++ [prefixed partner_name (text utterance)] |})
      end
  end.

(** Lines 69-73: nothing grouped, and a current group without a role. *)
Definition initial : list Group * Group :=
  ([], {| role := None; content := [] |}).

(** Lines 108-112. *)
Definition finish (st : list Group * Group) : list Group :=
  let '(grouped, current_group) := st in
  if decide (role current_group ≠ None)
  then grouped ++ [current_group] else grouped.

Definition group_consecutive_utterances (self : ConversationConverter)
    (utterances : list Utterance) : list Group :=
  match utterances with
  | [] => []
  | _ => finish (fold_left (step self) utterances initial)
  end.

Definition convert_to_training_format (grouped_utterances : list Group) : list Msg :=
  map (fun g =>
         let content := join newline (content g) in
         if decide (role g = Some client)
         then {| from := human; value := content |}
         else {| from := gpt; value := content |})
      grouped_utterances.

(** The loop state reached after the utterances [us], the lines it holds,
    and the invariant of the loop. *)
Definition reached (self : ConversationConverter) (us : list Utterance)
  : list Group * Group :=
  fold_left (step self) us initial.

Definition lines_of (st : list Group * Group) : list string :=
  concat (map content (fst st)) ++ content (snd st).

Record invariant (self : ConversationConverter) (us : list Utterance)
    (st : list Group * Group) : Prop := {
  inv_lines : lines_of st = map (always_prefixed self) (mapped self us);
  inv_closed : Forall (fun g => role g <> None /\ content g <> []) (fst st);
  inv_roles : alternates (map role (fst st ++ [snd st]));
  inv_fresh : role (snd st) = None -> fst st = [] /\ content (snd st) = [];
  inv_open : role (snd st) <> None -> content (snd st) <> []
}.

End PreprocessData.

(** * preprocessing_data_3.py *)

Module PreprocessingData3.

Record Group : Type := {
  role : option Role;
  content : list string;
  current_speaker : option string
}.

(** One iteration of the loop of lines 76-114. *)
Definition step (self : ConversationConverter) (st : list Group * Group)
    (utterance : Utterance) : list Group * Group :=
  match classify self (speaker utterance) with
  | None => st
  | Some (r, partner_name) =>
      let '(grouped, current_group) := st in
      let '(grouped, current_group) :=
        if decide (role current_group ≠ Some r) then
          ((if decide (role current_group ≠ None)
            then grouped ++ [current_group] else grouped),
           {| role := Some r; content := []; current_speaker := None |})
        else (grouped, current_group) in
      match r with
      | therapist =>
          (grouped, {| role := role current_group;
                       content := content current_group ++ [text utterance];
                       current_speaker := current_speaker current_group |})
      | client =>
          if decide (current_speaker current_group ≠ Some partner_name) then
            (grouped, {| role := role current_group;
                         content := content current_group
                                      ++ [prefixed partner_name (text utterance)];
                         current_speaker := Some partner_name |})
          else
            (grouped, {| role := role current_group;
                         content := content current_group ++ [text utterance];
                         current_speaker := current_speaker current_group |})
      end
  end.

(** Lines 69-74: nothing grouped, and a current group without a role. *)
Definition initial : list Group * Group :=
  ([], {| role := None; content := []; current_speaker := None |}).

(** Lines 116-120. *)
Definition finish (st : list Group * Group) : list Group :=
  let '(grouped, current_group) := st in
  if decide (role current_group ≠ None)
  then grouped ++ [current_group] else grouped.

Definition group_consecutive_utterances (self : ConversationConverter)
    (utterances : list Utterance) : list Group :=
  match utterances with
  | [] => []
  | _ => finish (fold_left (step self) utterances initial)
  end.

(** The loop state reached after the utterances [us] and the lines it
    holds. *)
Definition reached (self : ConversationConverter) (us : list Utterance)
  : list Group * Group :=
  fold_left (step self) us initial.

Definition lines_of (st : list Group * Group) : list string :=
  concat (map content (fst st)) ++ content (snd st).

(** How a group of this grouper relates to the group that
    preprocess_data.py builds from the same utterances. *)
Record related_group (a : PreprocessData.Group) (b : Group) : Prop := {
  rel_role : PreprocessData.role a = role b;
  rel_lines : Forall2 same_up_to_prefix (PreprocessData.content a) (content b);
  rel_therapist : role b = Some therapist -> PreprocessData.content a = content b
}.

Definition create_dialogue_pairs (grouped_utterances : list Group) : list Msg :=
  map (fun g =>
         let content := join " " (content g) in
         if decide (role g = Some client)
         then {| from := human; value := content |}
         else {| from := gpt; value := content |})
      grouped_utterances.

(** [l[i]] for a non-negative index. *)
Definition py_index {A} (l : list A) (i : nat) : result A :=
  match l !! i with
  | Some a => Ok a
  | None => Raise IndexError
  end.

(** The test of lines 165-166.  The loop guard keeps both indices in range. *)
Definition is_exchange (dialogue_pairs : list Msg) (i : nat) : bool :=
  bool_decide (from <$> dialogue_pairs !! i = Some human)
  && bool_decide (from <$> dialogue_pairs !! (i + 1) = Some gpt).

(** The [while] loop of lines 164-170, from index [i] and the pairs found so
    far.  [len(dialogue_pairs) - 1] is a subtraction on [nat]: for the empty
    list it is 0 where Python has -1, and the guard is false either way. *)
Equations? valid_pairs_loop (dialogue_pairs : list Msg) (i : nat)
    (valid_pairs : list (nat * nat)) : list (nat * nat)
    by wf (length dialogue_pairs - i) lt :=
valid_pairs_loop dialogue_pairs i valid_pairs
    with decide (i < length dialogue_pairs - 1) := {
  | left _ with is_exchange dialogue_pairs i := {
    | true => valid_pairs_loop dialogue_pairs (i + 2) (valid_pairs ++ [(i, i + 1)])
    | false => valid_pairs_loop dialogue_pairs (i + 1) valid_pairs }
  | right _ => valid_pairs }.
Proof. all: lia. Qed.

(** [range(start, stop)] *)
Definition py_range (start stop : nat) : list nat := seq start (stop - start).

(** Line 177. *)
Definition start_idx (pair_idx : nat) (window_size : Z) : nat :=
  Z.to_nat (Z.max 0 (Z.of_nat pair_idx - window_size + 1)).

(** The inner loop of lines 180-185. *)
Fixpoint window_loop (dialogue_pairs : list Msg) (valid_pairs : list (nat * nat))
    (idxs : list nat) (conversation_messages : list Msg) : result (list Msg) :=
  match idxs with
  | [] => Ok conversation_messages
  | window_pair_idx :: rest =>
      let* p := py_index valid_pairs window_pair_idx in
      let* h := py_index dialogue_pairs (fst p) in
      let* g := py_index dialogue_pairs (snd p) in
      window_loop dialogue_pairs valid_pairs rest (conversation_messages ++ [h; g])
  end.

Record Conversation : Type := { conversations : list Msg }.

(** The outer loop of lines 173-189. *)
Fixpoint conversations_loop (dialogue_pairs : list Msg)
    (valid_pairs : list (nat * nat)) (window_size : Z) (pair_idxs : list nat)
    (acc : list Conversation) : result (list Conversation) :=
  match pair_idxs with
  | [] => Ok acc
  | pair_idx :: rest =>
      let* conversation_messages :=
        window_loop dialogue_pairs valid_pairs
          (py_range (start_idx pair_idx window_size) (pair_idx + 1)) [] in
      conversations_loop dialogue_pairs valid_pairs window_size rest
        (acc ++ [{| conversations := conversation_messages |}])
  end.

Definition find_valid_pairs (dialogue_pairs : list Msg) : list (nat * nat) :=
  valid_pairs_loop dialogue_pairs 0 [].

Definition create_sliding_window_conversations (dialogue_pairs : list Msg)
    (window_size : Z) : result (list Conversation) :=
  if decide (length dialogue_pairs < 2) then Ok []
  else
    let valid_pairs := find_valid_pairs dialogue_pairs in
    conversations_loop dialogue_pairs valid_pairs window_size
      (py_range 0 (length valid_pairs)) [].

(** What the scan promises of a recorded pair of indices [p], and of the two
    messages [e] found there. *)
Definition exchange_at (dialogue_pairs : list Msg) (p : nat * nat)
    (e : Msg * Msg) : Prop :=
  snd p = (fst p + 1)%nat /\
  dialogue_pairs !! fst p = Some (fst e) /\
  dialogue_pairs !! snd p = Some (snd e) /\
  from (fst e) = human /\ from (snd e) = gpt.

(** The messages of the exchanges at positions [first], ..., [last]. *)
Definition exchanges_between (exchanges : list (Msg * Msg)) (first last : nat)
  : list Msg :=
  flat_map (fun e => [fst e; snd e])
    (take (last + 1 - first) (drop first exchanges)).

End PreprocessingData3.

(** * Sample inputs *)

Module Samples.
Import Data.

Definition seg (a b : Q) (txt : string) : TranscriptSegment :=
  {| t_start := a; t_end := b; t_text := txt |}.

Definition spk (a b : Q) (tag : string) : SpeakerSegment :=
  {| start_sec := a; end_sec := b; speaker_tag := tag |}.

Definition t_hi : TranscriptSegment := seg 0 5 "hi".
Definition t_how : TranscriptSegment := seg 5 10 "how are you".
Definition ss_AB : list SpeakerSegment := [spk 0 4 "A"; spk 4 10 "B"].

(** A segment of no duration and a segment whose text has a leading
    blank. *)
Definition t_instant : TranscriptSegment := seg 1 1 "x".

(** The profile of the end-to-end scenario, keyed by the labels the aligner
    writes, and one with an excluded speaker. *)
Definition profile_AB : ConversationConverter :=
  setup_speaker_mapping init ["Speaker A"] [("Partner A", ["Speaker B"])] None.

Definition profile_excl : ConversationConverter :=
  setup_speaker_mapping init ["Speaker A"] [("Partner A", ["Speaker B"])]
    (Some ["Speaker C"]).

Definition msg (r : From) (txt : string) : Msg := {| from := r; value := txt |}.

Definition five_messages : list Msg :=
  [msg human "a"; msg gpt "b"; msg human "c"; msg human "d"; msg gpt "e"].

Definition six_messages : list Msg :=
  [msg human "a"; msg gpt "b"; msg human "c"; msg gpt "d"; msg human "e"; msg gpt "f"].

(** The profile as the scenario of the specification writes it, keyed by
    bare tags. *)
Definition profile_bare : ConversationConverter :=
  setup_speaker_mapping init ["A"] [("Partner A", ["B"])] None.

Definition utt (who txt : string) : Utterance := {| speaker := who; text := txt |}.

End Samples.

Module Samples64.
Import Binary64 Data64.

Definition seg (a b : Z) (txt : string) : TranscriptSegment :=
  {| t_start := of_Z a; t_end := of_Z b; t_text := txt |}.

Definition spk (a b : Z) (tag : string) : SpeakerSegment :=
  {| start_sec := of_Z a; end_sec := of_Z b; speaker_tag := tag |}.

Definition t_hi : TranscriptSegment := seg 0 5 "hi".
Definition t_how : TranscriptSegment := seg 5 10 "how are you".
Definition t_late : TranscriptSegment := seg 20 30 "bye".
Definition t_reversed : TranscriptSegment := seg 5 3 "hi".
Definition t_instant : TranscriptSegment := seg 1 1 "x".
Definition t_unit : TranscriptSegment := seg 0 1 "x".
Definition ss_AB : list SpeakerSegment := [spk 0 4 "A"; spk 4 10 "B"].
Definition ss_12 : list SpeakerSegment := [spk 0 4 "1"; spk 4 10 "2"].
Definition ss_far : list SpeakerSegment := [spk 0 4 "A"; spk 100 200 "B"].

(** Two speaker segments that end at 1.75 and at the next binary64 number
    above it. *)
Definition t_three : TranscriptSegment := seg 0 3 "x".
Definition s_near : SpeakerSegment :=
  {| start_sec := of_Z 0;
     end_sec := S754_finite false 7881299347898368 (-52);
     speaker_tag := "1" |}.
Definition s_next : SpeakerSegment :=
  {| start_sec := of_Z 0;
     end_sec := S754_finite false 7881299347898369 (-52);
     speaker_tag := "2" |}.

(** 2^1023, the greatest power of two among the binary64 numbers. *)
Definition huge : float := S754_finite false (2 ^ 52) 971.

(** A speaker segment so late that the sum of its two time stamps is beyond
    the greatest binary64 number. *)
Definition s_huge : SpeakerSegment :=
  {| start_sec := huge; end_sec := huge; speaker_tag := "1" |}.

End Samples64.

Module MoreSamples.

(** The profile of the end-to-end scenario with the tags 1 and 2. *)
Definition profile_12 : ConversationConverter :=
  setup_speaker_mapping init ["Speaker 1"] [("Partner A", ["Speaker 2"])] None.

End MoreSamples.

(** * Notions used to state further properties of the converters *)

(** The partner name a profile gives a speaker, starting from [acc]: the name
    of the last partner whose speaker list has the speaker. *)
Definition partner_from (acc : option string)
    (partner_mappings : list (string * list string)) (sp : string)
  : option string :=
  fold_left (fun acc kv => if decide (sp ∈ snd kv) then Some (fst kv) else acc)
    partner_mappings acc.

Definition partner_of (partner_mappings : list (string * list string))
    (sp : string) : option string :=
  partner_from None partner_mappings sp.

(** * Notions used to state further properties of the groupers *)

(** The kept utterances as pairs of role and always-prefix line. *)
Definition items (self : ConversationConverter) (us : list Utterance)
  : list (Role * string) :=
  omap (fun u => match classify self (speaker u) with
                 | Some (r, _) => Some (r, always_prefixed self u)
                 | None => None
                 end) us.

(** The maximal runs of neighbours with the same role. *)
Fixpoint group_runs (xs : list (Role * string)) : list (Role * list string) :=
  match xs with
  | [] => []
  | (r, l) :: rest =>
      match group_runs rest with
      | (r', ls) :: gs =>
          if decide (r = r') then (r, l :: ls) :: gs
          else (r, [l]) :: (r', ls) :: gs
      | [] => [(r, [l])]
      end
  end.

(** Adding one more item at the end of the runs. *)
Fixpoint snoc_run (gs : list (Role * list string)) (r : Role) (l : string)
  : list (Role * list string) :=
  match gs with
  | [] => [(r, [l])]
  | (r', ls) :: [] =>
      if decide (r' = r) then [(r', ls ++ [l])] else [(r', ls); (r, [l])]
  | g :: gs' => g :: snoc_run gs' r l
  end.

(** The partner whose name the last kept utterance carried, if that
    utterance was a client's; [prev] before the first kept utterance. *)
Definition last_partner (self : ConversationConverter) (prev : option string)
    (us : list Utterance) : option string :=
  fold_left (fun prev u => match classify self (speaker u) with
                           | None => prev
                           | Some (therapist, _) => None
                           | Some (client, p) => Some p
                           end) us prev.

(** The lines under the prefix-on-change policy: a client line carries the
    partner prefix unless the kept utterance just before it was a client's
    with the same partner name. *)
Fixpoint on_change_lines (self : ConversationConverter) (prev : option string)
    (us : list Utterance) : list string :=
  match us with
  | [] => []
  | u :: rest =>
      match classify self (speaker u) with
      | None => on_change_lines self prev rest
      | Some (therapist, _) => text u :: on_change_lines self None rest
      | Some (client, p) =>
          (if decide (prev = Some p) then text u else prefixed p (text u))
            :: on_change_lines self (Some p) rest
      end
  end.

(** The group of preprocess_data.py that a run stands for. *)
Definition group_of_run (g : Role * list string) : PreprocessData.Group :=
  {| PreprocessData.role := Some (fst g); PreprocessData.content := snd g |}.

(** * parse_conversation_file (lines 36-60, the same text in both converter
      files)

    The file is its content as a string.  The pattern
    [(Speaker \d+):\s*(.*?)(?=Speaker \d+:|$)] is matched with [re.DOTALL];
    the embedding covers text of code points below 256.

    - [Speaker \d+:] matches at a position exactly when the text there is
      "Speaker ", a longest run of one or more digits, and a colon: giving
      back digits cannot help, since what follows a shorter run is a digit.
    - [\s*] takes all the white space that follows.  The rest of the pattern
      always succeeds after it (at the latest at the end of the text), so
      the engine never shortens it.
    - [(.*?)] is lazy and, with DOTALL, takes any character: it ends at the
      first position where the lookahead holds, which is a position where a
      label starts, the end of the text, or the position of a final newline
      (where [$] matches too).
    - [findall] resumes the search where the last match ended. *)

Definition is_digit (c : ascii) : bool :=
  let n := nat_of_ascii c in (48 <=? n)%nat && (n <=? 57)%nat.

(** [s] without its prefix [p], if it has that prefix. *)
Fixpoint drop_prefix (p s : string) : option string :=
  match p with
  | EmptyString => Some s
  | String a p' =>
      match s with
      | String b s' => if Ascii.eqb a b then drop_prefix p' s' else None
      | EmptyString => None
      end
  end.

(** The longest run of digits at the start of [s], and the rest. *)
Fixpoint span_digits (s : string) : string * string :=
  match s with
  | String c s' =>
      if is_digit c
      then let '(d, r) := span_digits s' in (String c d, r)
      else (EmptyString, s)
  | EmptyString => (EmptyString, EmptyString)
  end.

(** [Speaker \d+:] at the start of [s]: the label matched (group 1 without
    the colon) and the text after the colon. *)
Definition match_label (s : string) : option (string * string) :=
  match drop_prefix "Speaker " s with
  | Some r =>
      match span_digits r with
      | (String d ds, String c r') =>
          if Ascii.eqb c ":" then Some ("Speaker " +:+ String d ds, r')
          else None
      | _ => None
      end
  | None => None
  end.

(** [(?=Speaker \d+:|$)] *)
Definition lookahead (s : string) : bool :=
  match match_label s with
  | Some _ => true
  | None =>
      match s with
      | EmptyString => true
      | String c EmptyString => Ascii.eqb c (ascii_of_nat 10)
      | _ => false
      end
  end.

(** [(.*?)] before the lookahead: the text taken and what is left. *)
Fixpoint lazy_text (s : string) : string * string :=
  if lookahead s then (EmptyString, s)
  else match s with
       | String c s' => let '(t, r) := lazy_text s' in (String c t, r)
       | EmptyString => (EmptyString, EmptyString)
       end.

(** One match of the whole pattern at the start of [s]: the two groups and
    the text after the match. *)
Definition match_here (s : string) : option (string * string * string) :=
  match match_label s with
  | Some (label, r) =>
      let '(t, rest) := lazy_text (lstrip r) in Some (label, t, rest)
  | None => None
  end.

(** A value together with the equation that says where it comes from. *)
Definition with_eq {A : Type} (x : A) : {y : A | x = y} := exist _ x eq_refl.

(** [re.findall(pattern, content, re.DOTALL)] *)
Equations? findall (s : string) : list (string * string)
    by wf (String.length s) lt :=
findall EmptyString := [];
findall (String c s') with with_eq (match_here (String c s')) := {
  | exist _ (Some (label, t, rest)) E => (label, t) :: findall rest
  | exist _ None _ => findall s' }.
Proof.
    assert (Hdrop : forall p x y, drop_prefix p x = Some y ->
                      String.length x = (String.length p + String.length y)%nat).
    { induction p as [|a p IH]; intros x y H; cbn in H.
      - injection H as ->. reflexivity.
      - destruct x as [|b x]; [discriminate|].
        destruct (Ascii.eqb a b); [|discriminate].
        cbn. rewrite (IH _ _ H). reflexivity. }
    assert (Hspan : forall x d r, span_digits x = (d, r) ->
                      (String.length r <= String.length x)%nat).
    { induction x as [|a x IH]; intros d r H; cbn in H.
      - injection H as _ <-. cbn. lia.
      - destruct (is_digit a).
        + destruct (span_digits x) as [d' r'] eqn:Ex. injection H as _ <-.
          cbn. specialize (IH _ _ eq_refl). lia.
        + injection H as _ <-. cbn. lia. }
    assert (Hstrip : forall x, (String.length (lstrip x) <= String.length x)%nat).
    { induction x as [|a x IH]; cbn; [lia|].
      destruct (is_space a); cbn; lia. }
    assert (Hlazy : forall x t r, lazy_text x = (t, r) ->
                      (String.length r <= String.length x)%nat).
    { induction x as [|a x IH]; intros t0 r H; cbn in H.
      - destruct (lookahead ""); injection H as _ <-; cbn; lia.
      - destruct (lookahead (String a x)).
        + injection H as _ <-. cbn. lia.
        + destruct (lazy_text x) as [t' r'] eqn:Ex. injection H as _ <-.
          cbn. specialize (IH _ _ eq_refl). lia. }
    unfold match_here, match_label in E.
    destruct (drop_prefix "Speaker " (String c s')) as [r0|] eqn:Ed;
      [|discriminate].
    apply Hdrop in Ed.
    destruct (span_digits r0) as [d r1] eqn:Es. apply Hspan in Es.
    destruct d as [|d0 ds]; [discriminate|].
    destruct r1 as [|c1 r1]; [discriminate|].
    destruct (Ascii.eqb c1 ":"); [|discriminate].
    destruct (lazy_text (lstrip r1)) as [t' rest'] eqn:El.
    apply Hlazy in El. pose proof (Hstrip r1) as Hs.
    injection E as _ _ <-. cbn in *. lia.
Qed.

(** What [f.read()] returns for a file opened in text mode: a carriage
    return followed by a line feed, and a carriage return alone, are read as
    one line feed. *)
Fixpoint universal_newlines (s : string) : string :=
  match s with
  | EmptyString => EmptyString
  | String c s' =>
      if Ascii.eqb c (ascii_of_nat 13) then
        match s' with
        | String c' s'' =>
            if Ascii.eqb c' (ascii_of_nat 10)
            then String (ascii_of_nat 10) (universal_newlines s'')
            else String (ascii_of_nat 10) (universal_newlines s')
        | EmptyString => String (ascii_of_nat 10) EmptyString
        end
      else String c (universal_newlines s')
  end.

(** The argument is the text stored in the file at [file_path]. *)
Definition parse_conversation_file (file : string) : list Utterance :=
  let content := universal_newlines file in
  omap (fun m => let text := strip (snd m) in
                 if decide (text = EmptyString) then None
                 else Some {| speaker := fst m; text := text |})
    (findall content).

(** * Notions used to state the properties of parse_conversation_file *)

(** No character of [s] is a carriage return. *)
Fixpoint no_cr (s : string) : bool :=
  match s with
  | EmptyString => true
  | String c s' => negb (Ascii.eqb c (ascii_of_nat 13)) && no_cr s'
  end.

Fixpoint all_digits (s : string) : bool :=
  match s with
  | EmptyString => true
  | String c s' => is_digit c && all_digits s'
  end.

(** Some position of [s] starts a label [Speaker <digits>:]. *)
Fixpoint has_label (s : string) : bool :=
  match match_label s with
  | Some _ => true
  | None =>
      match s with
      | String _ s' => has_label s'
      | EmptyString => false
      end
  end.

(** The line that data.py writes for a tag and a text, with its newline
    (lines 135, 157 and 159), and the content of a file of such lines. *)
Definition written_line (item : string * string) : string :=
  "Speaker " +:+ fst item +:+ ": " +:+ snd item +:+ newline.

Fixpoint written (items : list (string * string)) : string :=
  match items with
  | [] => EmptyString
  | item :: rest => written_line item +:+ written rest
  end.

(** What the converters should read back from such a line. *)
Definition read_back (item : string * string) : option Utterance :=
  let text := strip (snd item) in
  if decide (text = EmptyString) then None
  else Some {| speaker := "Speaker " +:+ fst item; text := text |}.

(** What may follow a written line: nothing, or text that starts with a
    label. *)
Definition follows (R : string) : Prop :=
  R = EmptyString \/ exists l r, match_label R = Some (l, r).

(** The text of a file that holds the given lines, each with its newline
    (data.py line 159). *)
Fixpoint file_text (lines : list string) : string :=
  match lines with
  | [] => EmptyString
  | l :: rest => l +:+ newline +:+ file_text rest
  end.

(** What the converters should read back from an attributed utterance. *)
Definition read_utterance (u : Utterance) : option Utterance :=
  let t := strip (text u) in
  if decide (t = EmptyString) then None
  else Some {| speaker := speaker u; text := t |}.


(** * The batch runs

    The [main] functions, over what they read: the file system and the
    services behind [process_audio_file] are inputs of the model.  Errors of
    the file system other than a missing file are not modelled. *)

(** ** data.py, [main] (lines 166-211) *)

Module DataMain.
Import Data.

Record Lists : Type := {
  processed_files : list string;
  skipped_files : list string;
  failed_files : list string
}.

(** One turn of the loop of lines 174-190.  [audio episode_file] is [None]
    when the file does not exist (line 178), else the transcript segments
    and the speaker segments that lines 12-108 obtain for it. *)
Definition visit
    (audio : string -> option (list TranscriptSegment * list SpeakerSegment))
    (st : Lists) (episode_file : string) : Lists :=
  match audio episode_file with
  | None =>
      {| processed_files := processed_files st;
         skipped_files := skipped_files st ++ [episode_file];
         failed_files := failed_files st |}
  | Some (transcript_segments, speaker_segments) =>
      match snd (process_audio_file transcript_segments speaker_segments []) with
      | Ok success =>
          if success
          then {| processed_files := processed_files st ++ [episode_file];
                  skipped_files := skipped_files st;
                  failed_files := failed_files st |}
          else st
      | Raise _ =>
          {| processed_files := processed_files st;
             skipped_files := skipped_files st;
             failed_files := failed_files st ++ [episode_file] |}
      end
  end.

Definition main
    (audio : string -> option (list TranscriptSegment * list SpeakerSegment))
    (episode_files : list string) : Lists :=
  fold_left (visit audio) episode_files
    {| processed_files := []; skipped_files := []; failed_files := [] |}.

(** A transcript segment whose end equals its start. *)
Definition zero_duration (t : TranscriptSegment) : bool :=
  Qeq_bool (t_end t) (t_start t).

(** The inputs on which the alignment loop stops with an error. *)
Definition aborts (ts : list TranscriptSegment) (ss : list SpeakerSegment) : bool :=
  match ss with
  | [] => false
  | _ :: _ => existsb zero_duration ts
  end.

(** How [main] should sort one file. *)
Inductive Fate : Set := is_processed | is_skipped | is_failed.

Definition fate
    (audio : string -> option (list TranscriptSegment * list SpeakerSegment))
    (episode_file : string) : Fate :=
  match audio episode_file with
  | None => is_skipped
  | Some (ts, ss) => if aborts ts ss then is_failed else is_processed
  end.

Global Instance Fate_eq_dec : EqDecision Fate.
Proof. solve_decision. Defined.

End DataMain.

(** ** preprocess_data.py, [convert_file] and [main] (lines 139-227) *)

Module PreprocessDataMain.
Import PreprocessData.

(** [convert_file], on the content of the input file: the messages that are
    written to the output file. *)
Definition convert_file (self : ConversationConverter) (content : string)
  : list Msg :=
  let utterances := parse_conversation_file content in
  let grouped := group_consecutive_utterances self utterances in
  convert_to_training_format grouped.

Definition count_from (f : From) (data : list Msg) : nat :=
  length (filter (fun c => from c = f) data).

(** [main]: the three numbers printed by lines 216-218, for the four
    configured lists and the content of the input file. *)
Definition main (THERAPIST_SPEAKERS PARTNER_A_SPEAKERS PARTNER_B_SPEAKERS
                 EXCLUDED_SPEAKERS : list string) (content : string)
  : nat * nat * nat :=
  let converter :=
    setup_speaker_mapping init THERAPIST_SPEAKERS
      [("Partner A", PARTNER_A_SPEAKERS); ("Partner B", PARTNER_B_SPEAKERS)]
      (Some EXCLUDED_SPEAKERS) in
  let data := convert_file converter content in
  (length data, count_from human data, count_from gpt data).

End PreprocessDataMain.

(** ** preprocessing_data_3.py, [convert_file] and [main] (lines 193-387) *)

Module PreprocessingData3Main.
Import PreprocessingData3.

(** [convert_file], on the content of the input file: the conversations
    that are written to the output file, one per line. *)
Definition convert_file (self : ConversationConverter) (content : string)
    (window_size : Z) : result (list Conversation) :=
  let utterances := parse_conversation_file content in
  let grouped := group_consecutive_utterances self utterances in
  let dialogue_pairs := create_dialogue_pairs grouped in
  create_sliding_window_conversations dialogue_pairs window_size.

Record Stats : Type := {
  total_conversations : nat;
  total_messages : nat;
  human_messages : nat;
  gpt_messages : nat
}.

Definition count_from (f : From) (conversations : list Msg) : nat :=
  length (filter (fun c => from c = f) conversations).

(** One turn of the loop of lines 358-364.  A line of the output file is
    never blank, and [json.loads] gives back the conversation that
    [json.dump] wrote. *)
Definition count_line (st : Stats) (data : Conversation) : Stats :=
  {| total_conversations := total_conversations st;
     total_messages := total_messages st + length (conversations data);
     human_messages := human_messages st + count_from human (conversations data);
     gpt_messages := gpt_messages st + count_from gpt (conversations data) |}.

(** Lines 351-371: the counts and the average that are printed. *)
Definition statistics (lines : list Conversation) : result (Stats * Q) :=
  let st := fold_left count_line lines
              {| total_conversations := length lines; total_messages := 0;
                 human_messages := 0; gpt_messages := 0 |} in
  let* average := Data.py_div (inject_Z (Z.of_nat (total_messages st)))
                    (inject_Z (Z.of_nat (total_conversations st))) in
  Ok (st, average).

(** An entry of [SPEAKER_CONFIGS]. *)
Record Config : Type := {
  config_therapist_speakers : list Z;
  config_partner_a_speakers : list Z;
  config_partner_b_speakers : list Z;
  config_excluded_speakers : list Z
}.

Definition numbers_to_speakers (numbers : list Z) : list string :=
  map (fun num => "Speaker " +:+ pretty num) numbers.

(** Lines 331-344: the converter of one episode. *)
Definition converter_of (config : Config) : ConversationConverter :=
  setup_speaker_mapping init
    (numbers_to_speakers (config_therapist_speakers config))
    [("Partner A", numbers_to_speakers (config_partner_a_speakers config));
     ("Partner B", numbers_to_speakers (config_partner_b_speakers config))]
    (Some (numbers_to_speakers (config_excluded_speakers config))).

(** The counters of [main], and the output files written so far, each with
    the episode it belongs to. *)
Record Run : Type := {
  total_processed : nat;
  total_failed : nat;
  outputs : list (Z * list Conversation)
}.

Definition failed (st : Run) : Run :=
  {| total_processed := total_processed st;
     total_failed := total_failed st + 1;
     outputs := outputs st |}.

Definition processed (st : Run) : Run :=
  {| total_processed := total_processed st + 1;
     total_failed := total_failed st;
     outputs := outputs st |}.

Definition wrote (st : Run) (episode_num : Z) (cs : list Conversation) : Run :=
  {| total_processed := total_processed st;
     total_failed := total_failed st;
     outputs := outputs st ++ [(episode_num, cs)] |}.

(** One turn of the loop of lines 307-374.  [files episode_num] is the
    content of [Ep.<episode_num>_final.txt], if that file exists.  The
    [except Exception] of line 372 catches whatever the conversion or the
    statistics raise. *)
Definition episode (SPEAKER_CONFIGS : gmap Z Config)
    (files : Z -> option string) (WINDOW_SIZE : Z) (st : Run)
    (episode_num : Z) : Run :=
  match SPEAKER_CONFIGS !! episode_num with
  | None => failed st
  | Some config =>
      match files episode_num with
      | None => failed st
      | Some content =>
          match convert_file (converter_of config) content WINDOW_SIZE with
          | Raise _ => failed st
          | Ok conversations =>
              let st := wrote st episode_num conversations in
              match statistics conversations with
              | Ok _ => processed st
              | Raise _ => failed st
              end
          end
      end
  end.

(** [main]: the final counters, the files written and the value returned. *)
Definition main (EPISODES_TO_PROCESS : list Z) (SPEAKER_CONFIGS : gmap Z Config)
    (files : Z -> option string) (WINDOW_SIZE : Z) : Run * Z :=
  let st := fold_left (episode SPEAKER_CONFIGS files WINDOW_SIZE)
              EPISODES_TO_PROCESS
              {| total_processed := 0; total_failed := 0; outputs := [] |} in
  (st, if decide (0 < total_failed st) then 1%Z else 0%Z).

(** The dialogue pairs that the conversion of an episode goes through. *)
Definition pairs_of (config : Config) (content : string) : list Msg :=
  create_dialogue_pairs
    (group_consecutive_utterances (converter_of config)
       (parse_conversation_file content)).

(** An episode that [main] should count as processed: it is configured, its
    file exists and some client turn in it is directly followed by a
    therapist turn. *)
Definition succeeds (SPEAKER_CONFIGS : gmap Z Config)
    (files : Z -> option string) (episode_num : Z) : Prop :=
  exists config content,
    SPEAKER_CONFIGS !! episode_num = Some config /\
    files episode_num = Some content /\
    find_valid_pairs (pairs_of config content) <> [].

End PreprocessingData3Main.

Module BatchSamples.
Import PreprocessingData3Main.

Definition config_6 : Config :=
  {| config_therapist_speakers := [6%Z];
     config_partner_a_speakers := [2%Z];
     config_partner_b_speakers := [5%Z];
     config_excluded_speakers := [1%Z] |}.

(** A session in which only the therapist speaks. *)
Definition monologue : string := "Speaker 6: hello" +:+ newline.

Definition fresh : Run :=
  {| total_processed := 0; total_failed := 0; outputs := [] |}.

End BatchSamples.
(** * Properties *)

(** ** Rational comparisons *)

Lemma Qltb_lt a b : Qltb a b = true <-> (a < b)%Q.
Proof.
  unfold Qltb. rewrite negb_true_iff. split.
  - intros H. apply Qnot_le_lt. intros Hle.
    apply Qle_bool_iff in Hle. congruence.
  - intros H. destruct (Qle_bool b a) eqn:E; [|reflexivity].
    apply Qle_bool_iff in E. exfalso. apply (Qlt_not_le _ _ H E).
Qed.

Lemma Qltb_ge a b : Qltb a b = false <-> (b <= a)%Q.
Proof.
  unfold Qltb. rewrite negb_false_iff. apply Qle_bool_iff.
Qed.

(** ** data.py: the aligner *)

Module DataFacts.
Import Data.

Lemma segment_score_nonzero t s :
  ~ (t_end t - t_start t == 0)%Q -> segment_score t s = Ok (score t s).
Proof.
  intros H. unfold segment_score, py_div, score.
  destruct (Qeq_bool (t_end t - t_start t) 0) eqn:E; [|reflexivity].
  apply Qeq_bool_iff in E. contradiction.
Qed.

Lemma segment_score_zero t s :
  (t_end t - t_start t == 0)%Q -> segment_score t s = Raise ZeroDivisionError.
Proof.
  intros H. unfold segment_score, py_div.
  apply Qeq_bool_iff in H. rewrite H. reflexivity.
Qed.

(** What the scoring loop returns from an arbitrary state: either nothing
    beat [m], or the first segment that reaches the running maximum. *)
Lemma best_loop_spec t ss : ~ (t_end t - t_start t == 0)%Q ->
  forall m b, exists m' b',
    best_loop t ss m b = Ok (m', b') /\
    (forall s, s ∈ ss -> (score t s <= m')%Q) /\
    ((m' = m /\ b' = b) \/
     (exists j s, ss !! j = Some s /\ b' = Some s /\ m' = score t s /\
        (m < m')%Q /\
        (forall i s', (i < j)%nat -> ss !! i = Some s' -> (score t s' < m')%Q))).
Proof.
  intros Hd. induction ss as [|s ss IH]; intros m b.
  - exists m, b. split; [reflexivity|]. split; [|left; auto].
    intros s Hs. inversion Hs.
  - cbn [best_loop]. rewrite (segment_score_nonzero _ _ Hd). cbn [bind].
    destruct (Qltb m (score t s)) eqn:E.
    + apply Qltb_lt in E.
      destruct (IH (score t s) (Some s)) as (m' & b' & Hr & Hall & Hc).
      exists m', b'. split; [exact Hr|].
      assert (Hge : (score t s <= m')%Q).
      { destruct Hc as [[-> _]|(j & s1 & _ & _ & _ & Hlt & _)]; lra. }
      split.
      * intros s0 Hs0. apply elem_of_cons in Hs0 as [->|Hs0]; auto.
      * right. destruct Hc as [[-> ->]|(j & s1 & Hj & -> & -> & Hlt & Hfirst)].
        -- exists 0%nat, s. repeat split; auto. intros i s' Hi. lia.
        -- exists (S j), s1. repeat split; auto; try lra.
           intros [|i] s' Hi Hs'; cbn in Hs'.
           ++ injection Hs' as <-. exact Hlt.
           ++ apply (Hfirst i); [lia|exact Hs'].
    + apply Qltb_ge in E.
      destruct (IH m b) as (m' & b' & Hr & Hall & Hc).
      exists m', b'. split; [exact Hr|].
      assert (Hge : (m <= m')%Q).
      { destruct Hc as [[-> _]|(j & s1 & _ & _ & _ & Hlt & _)]; lra. }
      split.
      * intros s0 Hs0. apply elem_of_cons in Hs0 as [->|Hs0]; auto. lra.
      * destruct Hc as [[-> ->]|(j & s1 & Hj & -> & -> & Hlt & Hfirst)];
          [left; auto|right].
        exists (S j), s1. repeat split; auto.
        intros [|i] s' Hi Hs'; cbn in Hs'.
        -- injection Hs' as <-. lra.
        -- apply (Hfirst i); [lia|exact Hs'].
Qed.

Lemma best_s_segment_spec t ss : ~ (t_end t - t_start t == 0)%Q ->
  (best_s_segment t ss = Ok None /\ forall s, s ∈ ss -> (score t s <= 0)%Q) \/
  (exists j s, ss !! j = Some s /\ best_s_segment t ss = Ok (Some s) /\
     (0 < score t s)%Q /\
     (forall s', s' ∈ ss -> (score t s' <= score t s)%Q) /\
     (forall i s', (i < j)%nat -> ss !! i = Some s' -> (score t s' < score t s)%Q)).
Proof.
  intros Hd. unfold best_s_segment.
  destruct (best_loop_spec t ss Hd 0%Q None) as (m' & b' & Hr & Hall & Hc).
  rewrite Hr. cbn [bind snd].
  destruct Hc as [[-> ->]|(j & s & Hj & -> & -> & Hlt & Hfirst)].
  - left. auto.
  - right. exists j, s. repeat split; auto.
Qed.

Lemma speaker_label_no_speakers t : speaker_label t [] = Ok "Speaker Unknown".
Proof. reflexivity. Qed.

Lemma speaker_label_total t ss :
  ~ (t_end t - t_start t == 0)%Q -> exists l, speaker_label t ss = Ok l.
Proof.
  intros Hd. unfold speaker_label.
  destruct (best_s_segment_spec t ss Hd) as [[-> _]|(j & s & _ & -> & _)];
    cbn [bind]; eauto.
Qed.

Lemma speaker_label_zero t s ss :
  (t_end t - t_start t == 0)%Q -> speaker_label t (s :: ss) = Raise ZeroDivisionError.
Proof.
  intros Hz. unfold speaker_label, best_s_segment. cbn [best_loop].
  rewrite (segment_score_zero _ _ Hz). reflexivity.
Qed.

Lemma process_audio_file_ok ss : forall ts f,
  (ss = [] \/ Forall (fun t => ~ (t_end t == t_start t)%Q) ts) ->
  exists labels,
    Forall2 (fun t l => speaker_label t ss = Ok l) ts labels /\
    process_audio_file ts ss f = (f ++ zip_with line_of labels ts, Ok true).
Proof.
  induction ts as [|t ts IH]; intros f Hok.
  - exists []. split; [constructor|]. cbn. rewrite app_nil_r. reflexivity.
  - assert (Hl : exists l, speaker_label t ss = Ok l).
    { destruct Hok as [->|Hall].
      - eexists. apply speaker_label_no_speakers.
      - apply speaker_label_total. apply Forall_cons in Hall as [Ht _]. lra. }
    destruct Hl as [l Hl].
    destruct (IH (f ++ [line_of l t])) as (labels & HF & Hr).
    { destruct Hok as [->|Hall]; [left; reflexivity|right].
      apply Forall_cons in Hall as [_ Hall]. exact Hall. }
    exists (l :: labels). split; [constructor; assumption|].
    cbn [process_audio_file zip_with]. rewrite Hl, Hr, <- app_assoc. reflexivity.
Qed.




End DataFacts.

(** ** Binary64: order and subtraction *)

Module Binary64Facts.
Import Binary64.

Lemma compare_nan x y :
  SFcompare x y = None <-> is_nan x = true \/ is_nan y = true.
Proof.
  destruct x as [sx|sx| |sx mx ex], y as [sy|sy| |sy my ey]; cbn;
    try (split; [intros; auto; discriminate|intros [H|H]; discriminate || reflexivity]);
    try (destruct sx); try (destruct sy); cbn; split; try discriminate; intros [H|H]; discriminate.
Qed.

Lemma compare_key x y c :
  is_nan x = false -> is_nan y = false ->
  (SFcompare x y = Some c <->
   match c with
   | Lt => key_lt (key x) (key y)
   | Eq => key x = key y
   | Gt => key_lt (key y) (key x)
   end).
Proof.
  intros Hx Hy. unfold key_lt.
  destruct x as [sx|sx| |sx mx ex], y as [sy|sy| |sy my ey]; try discriminate;
    try destruct sx; try destruct sy; cbn [SFcompare key fst snd];
    try change (Pos.compare_cont Eq mx my) with (Pos.compare mx my);
    try destruct (Z.compare_spec ex ey); try destruct (Pos.compare_spec mx my);
    destruct c; cbn [CompOpp];
    (split; [intros [= ]|intros Hk]);
    try reflexivity; try lia; try discriminate; try (subst; reflexivity);
    try (injection Hk; intros; lia).
Qed.

Lemma ltb_key x y : ltb x y = true ->
  is_nan x = false /\ is_nan y = false /\ key_lt (key x) (key y).
Proof.
  unfold ltb, SFltb. destruct (SFcompare x y) as [[]|] eqn:E; try discriminate.
  intros _. assert (Hn : is_nan x = false /\ is_nan y = false).
  { destruct (is_nan x) eqn:Hx, (is_nan y) eqn:Hy; auto;
      assert (SFcompare x y = None) by (apply compare_nan; auto); congruence. }
  destruct Hn as [Hx Hy]. repeat split; auto.
  apply (compare_key x y Lt Hx Hy). exact E.
Qed.

Lemma key_ltb x y :
  is_nan x = false -> is_nan y = false -> key_lt (key x) (key y) -> ltb x y = true.
Proof.
  intros Hx Hy H. unfold ltb, SFltb.
  rewrite (proj2 (compare_key x y Lt Hx Hy) H). reflexivity.
Qed.

(** [<] on floats is transitive. *)
Lemma ltb_trans x y z : ltb x y = true -> ltb y z = true -> ltb x z = true.
Proof.
  intros H1 H2. apply ltb_key in H1 as (Hx & Hy & H1).
  apply ltb_key in H2 as (_ & Hz & H2). apply key_ltb; auto.
  unfold key_lt in *. lia.
Qed.

Lemma ltb_irrefl x : ltb x x = false.
Proof.
  destruct (ltb x x) eqn:E; [|reflexivity].
  apply ltb_key in E as (_ & _ & E). unfold key_lt in E. lia.
Qed.

(** Among floats that are not NaN, what is not above [y] and what is above
    [y] are in order. *)
Lemma ltb_below x y z :
  is_nan x = false -> ltb y x = false -> ltb y z = true -> ltb x z = true.
Proof.
  intros Hx H1 H2. apply ltb_key in H2 as (Hy & Hz & H2). apply key_ltb; auto.
  destruct (ltb y x) eqn:E; [discriminate|].
  assert (H : ~ key_lt (key y) (key x)).
  { intros H. rewrite (key_ltb y x Hy Hx H) in E. discriminate. }
  unfold key_lt in *. lia.
Qed.

Lemma leb_ltb x y : leb x y = true <-> ltb x y = true \/ eqb x y = true.
Proof.
  unfold leb, ltb, eqb, SFleb, SFltb, SFeqb.
  destruct (SFcompare x y) as [[]|]; intuition discriminate.
Qed.

Lemma leb_false x y :
  leb x y = false <-> is_nan x = true \/ is_nan y = true \/ ltb y x = true.
Proof.
  destruct (is_nan x) eqn:Hx.
  { destruct x; try discriminate. cbn. tauto. }
  destruct (is_nan y) eqn:Hy.
  { destruct y; try discriminate. destruct x; cbn; tauto. }
  destruct (SFcompare x y) as [c|] eqn:E;
    [|apply compare_nan in E; destruct E; congruence].
  pose proof (proj1 (compare_key x y c Hx Hy) E) as Hc.
  unfold leb, SFleb. rewrite E. split.
  - intros H. right. right. apply key_ltb; auto.
    destruct c; try discriminate. exact Hc.
  - intros [H|[H|H]]; try discriminate.
    apply ltb_key in H as (_ & _ & H).
    destruct c; try reflexivity; unfold key_lt in *; exfalso.
    + rewrite Hc in H. lia.
    + lia.
Qed.

(** *** Subtraction of two different floats is not zero *)

Lemma digits2_bounds (m : positive) :
  (2 ^ (Z.pos (digits2_pos m) - 1) <= Z.pos m < 2 ^ Z.pos (digits2_pos m))%Z.
Proof.
  induction m as [m IH|m IH|]; cbn [digits2_pos]; [| |cbn; lia].
  all: rewrite Pos2Z.inj_succ, Z.pow_succ_r by lia.
  all: replace (Z.succ (Z.pos (digits2_pos m)) - 1)%Z
         with (Z.succ (Z.pos (digits2_pos m) - 1))%Z by lia.
  all: rewrite Z.pow_succ_r by lia; lia.
Qed.

Lemma iter_xO_val (m d : positive) :
  Z.pos (Pos.iter xO m d) = (Z.pos m * 2 ^ Z.pos d)%Z.
Proof.
  induction d as [|d IH] using Pos.peano_ind.
  - cbn. lia.
  - rewrite Pos.iter_succ, Pos2Z.inj_succ, Z.pow_succ_r by lia.
    rewrite Pos2Z.inj_xO, IH. lia.
Qed.

Lemma shl_align_val (m : positive) (e e' : Z) :
  (e' <= e)%Z ->
  Z.pos (shl_align m e e').1 = (Z.pos m * 2 ^ (e - e'))%Z /\
  (shl_align m e e').2 = e'.
Proof.
  intros He. unfold shl_align. destruct (e' - e)%Z as [|d|d] eqn:E; try lia.
  - replace (e - e')%Z with 0%Z by lia. cbn [fst snd]. split; lia.
  - cbn [fst snd]. rewrite iter_xO_val. replace (e - e')%Z with (Z.pos d) by lia.
    auto.
Qed.

Lemma digits2_unique (m : positive) (d : Z) :
  (2 ^ (d - 1) <= Z.pos m < 2 ^ d)%Z -> (0 < d)%Z -> d = Z.pos (digits2_pos m).
Proof.
  intros [H1 H2] Hd. pose proof (digits2_bounds m) as [B1 B2].
  assert (d - 1 < Z.pos (digits2_pos m))%Z.
  { apply (Z.pow_lt_mono_r_iff 2); lia. }
  assert (Z.pos (digits2_pos m) - 1 < d)%Z.
  { apply (Z.pow_lt_mono_r_iff 2); lia. }
  lia.
Qed.

Lemma bounded_canonical (m : positive) (e : Z) :
  bounded prec emax m e = true ->
  e = Z.max (Z.pos (digits2_pos m) + e - prec) (emin prec emax).
Proof.
  unfold bounded, canonical_mantissa, fexp. intros H.
  apply andb_true_iff in H as [H _]. apply Z.eqb_eq in H. lia.
Qed.

(** Two canonical mantissas at their exponents that are equal once brought
    to the same exponent are the same. *)
Lemma aligned_equal (mx my : positive) (ex ey : Z) :
  bounded prec emax mx ex = true -> bounded prec emax my ey = true ->
  (ex <= ey)%Z ->
  Z.pos mx = (Z.pos my * 2 ^ (ey - ex))%Z ->
  ex = ey /\ mx = my.
Proof.
  intros Bx By Hle E. apply bounded_canonical in Bx, By.
  assert (Hd : (Z.pos (digits2_pos my) + (ey - ex))%Z = Z.pos (digits2_pos mx)).
  { apply digits2_unique; [|lia]. pose proof (digits2_bounds my) as [B1 B2].
    rewrite E.
    replace (Z.pos (digits2_pos my) + (ey - ex) - 1)%Z
      with ((Z.pos (digits2_pos my) - 1) + (ey - ex))%Z by lia.
    rewrite !Z.pow_add_r by lia.
    assert (0 < 2 ^ (ey - ex))%Z by (apply Z.pow_pos_nonneg; lia).
    nia. }
  assert (ex = ey) by lia. subst ey. split; [reflexivity|].
  rewrite Z.sub_diag in E. cbn in E. lia.
Qed.

Lemma shr_1_m (mrs : shr_record) :
  (0 <= shr_m mrs)%Z -> shr_m (shr_1 mrs) = (shr_m mrs / 2)%Z.
Proof.
  destruct mrs as [m r s]. cbn [shr_m shr_1]. intros Hm.
  destruct m as [|[p|p|]|p]; try lia; cbn [shr_m].
  - reflexivity.
  - rewrite Pos2Z.inj_xI. apply Z.div_unique with 1%Z; lia.
  - rewrite Pos2Z.inj_xO. apply Z.div_unique with 0%Z; lia.
  - reflexivity.
Qed.

Lemma iter_shr_1_m (p : positive) : forall mrs : shr_record,
  (0 <= shr_m mrs)%Z ->
  shr_m (SpecFloat.iter_pos shr_1 p mrs) = (shr_m mrs / 2 ^ Z.pos p)%Z.
Proof.
  assert (Hpow : forall q : positive, (0 < 2 ^ Z.pos q)%Z)
    by (intros q; apply Z.pow_pos_nonneg; lia).
  induction p as [p IH|p IH|]; intros mrs Hm; cbn [SpecFloat.iter_pos].
  - assert (H1 : (0 <= shr_m (shr_1 mrs))%Z)
      by (rewrite shr_1_m by exact Hm; apply Z.div_pos; lia).
    assert (H2 : (0 <= shr_m (SpecFloat.iter_pos shr_1 p (shr_1 mrs)))%Z)
      by (rewrite IH by exact H1; apply Z.div_pos; [exact H1|apply Hpow]).
    rewrite IH by exact H2. rewrite IH by exact H1. rewrite shr_1_m by exact Hm.
    pose proof (Hpow p).
    rewrite !Z.div_div by lia. f_equal.
    replace (Z.pos p~1) with (1 + (Z.pos p + Z.pos p))%Z by lia.
    rewrite !Z.pow_add_r by lia. change (2 ^ 1)%Z with 2%Z. lia.
  - assert (H2 : (0 <= shr_m (SpecFloat.iter_pos shr_1 p mrs))%Z)
      by (rewrite IH by exact Hm; apply Z.div_pos; [exact Hm|apply Hpow]).
    rewrite IH by exact H2. rewrite IH by exact Hm.
    pose proof (Hpow p).
    rewrite !Z.div_div by lia. f_equal.
    replace (Z.pos p~0) with (Z.pos p + Z.pos p)%Z by lia.
    rewrite !Z.pow_add_r by lia. lia.
  - rewrite shr_1_m by exact Hm. reflexivity.
Qed.

Lemma shr_record_of_loc_m m l : shr_m (shr_record_of_loc m l) = m.
Proof. destruct l as [|[]]; reflexivity. Qed.

(** Shifting a positive mantissa to its place leaves a positive mantissa, as
    long as the exponent is not below [emin]. *)
Lemma shr_fexp_pos (m e : Z) (l : location) :
  (0 < m)%Z -> (emin prec emax <= e)%Z ->
  (0 < shr_m (shr_fexp prec emax m e l).1)%Z /\
  (emin prec emax <= (shr_fexp prec emax m e l).2)%Z.
Proof.
  intros Hm He. unfold shr_fexp, shr.
  destruct m as [|mp|mp]; try lia. cbn [Zdigits2].
  destruct (fexp prec emax (Z.pos (digits2_pos mp) + e) - e)%Z as [|p|p] eqn:En;
    cbn [fst snd]; rewrite ?shr_record_of_loc_m; try (split; lia).
  unfold fexp in En. split; [|lia].
  rewrite iter_shr_1_m by (rewrite shr_record_of_loc_m; lia).
  rewrite shr_record_of_loc_m.
  pose proof (digits2_bounds mp) as [B1 _].
  assert (Hp : (Z.pos p <= Z.pos (digits2_pos mp) - 1)%Z) by (unfold prec in *; lia).
  assert (H2 : (2 ^ Z.pos p <= 2 ^ (Z.pos (digits2_pos mp) - 1))%Z)
    by (apply Z.pow_le_mono_r; lia).
  assert (0 < 2 ^ Z.pos p)%Z by (apply Z.pow_pos_nonneg; lia).
  apply Z.div_str_pos. lia.
Qed.

Lemma round_nearest_even_pos (m : Z) (l : location) :
  (0 < m)%Z -> (0 < round_nearest_even m l)%Z.
Proof.
  intros Hm. unfold round_nearest_even.
  destruct l as [|[]]; try lia. destruct (Z.even m); lia.
Qed.

Lemma binary_round_aux_nonzero (s : bool) (m e : Z) (l : location) :
  (0 < m)%Z -> (emin prec emax <= e)%Z ->
  nonzero (binary_round_aux prec emax s m e l) = true.
Proof.
  intros Hm He. unfold binary_round_aux.
  destruct (shr_fexp_pos m e l Hm He) as [H1 H2].
  destruct (shr_fexp prec emax m e l) as [mrs' e']. cbn [fst snd] in H1, H2.
  pose proof (round_nearest_even_pos (shr_m mrs') (loc_of_shr_record mrs') H1) as H3.
  destruct (shr_fexp_pos _ e' loc_Exact H3 H2) as [H4 _].
  destruct (shr_fexp prec emax _ e' loc_Exact) as [mrs'' e'']. cbn [fst] in H4.
  destruct (shr_m mrs'') as [|q|q]; try lia.
  destruct (e'' <=? emax - prec)%Z; reflexivity.
Qed.

Lemma binary_normalize_nonzero (m e : Z) (sz : bool) :
  m <> 0%Z -> (emin prec emax <= e)%Z ->
  nonzero (binary_normalize prec emax m e sz) = true.
Proof.
  intros Hm He.
  assert (H : forall s (p : positive),
            nonzero (binary_round prec emax s p e) = true).
  { intros s p. unfold binary_round.
    assert (Hf : (emin prec emax <= fexp prec emax (Z.pos (digits2_pos p) + e))%Z)
      by (unfold fexp; lia).
    unfold shl_align.
    destruct (fexp prec emax (Z.pos (digits2_pos p) + e) - e)%Z eqn:En;
      apply binary_round_aux_nonzero; lia. }
  destruct m as [|p|p]; [congruence| |]; apply H.
Qed.

(** Two valid floats that compare as different have a difference that is
    neither zero nor NaN. *)
Lemma sub_nonzero (x y : float) :
  valid x -> valid y ->
  (SFcompare x y = Some Lt \/ SFcompare x y = Some Gt) ->
  nonzero (sub x y) = true.
Proof.
  unfold valid, sub. intros Vx Vy Hc.
  destruct x as [sx|sx| |sx mx ex], y as [sy|sy| |sy my ey];
    try destruct sx; try destruct sy; cbn in Hc |- *;
    try reflexivity; try (destruct Hc; discriminate).
  all: cbn [valid_binary] in Vx, Vy.
  all: pose proof (bounded_canonical _ _ Vx) as Cx;
       pose proof (bounded_canonical _ _ Vy) as Cy.
  all: apply binary_normalize_nonzero; [|lia].
  all: destruct (Z.le_ge_cases ex ey) as [Hle|Hle].
  all: try (rewrite Z.min_l by lia); try (rewrite Z.min_r by lia).
  all: try lia.
  all: intros E.
  - rewrite (proj1 (shl_align_val mx ex ex ltac:(lia))),
      (proj1 (shl_align_val my ey ex ltac:(lia))), Z.sub_diag in E.
    destruct (aligned_equal mx my ex ey Vx Vy Hle ltac:(cbn in E |- *; lia))
      as [-> ->].
    rewrite Z.compare_refl in Hc.
    change (PosDef.Pos.compare_cont Eq my my) with (Pos.compare my my) in Hc.
    rewrite Pos.compare_refl in Hc. destruct Hc; discriminate.
  - rewrite (proj1 (shl_align_val mx ex ey ltac:(lia))),
      (proj1 (shl_align_val my ey ey ltac:(lia))), Z.sub_diag in E.
    destruct (aligned_equal my mx ey ex Vy Vx ltac:(lia) ltac:(cbn in E |- *; lia))
      as [-> ->].
    rewrite Z.compare_refl in Hc.
    change (PosDef.Pos.compare_cont Eq mx mx) with (Pos.compare mx mx) in Hc.
    rewrite Pos.compare_refl in Hc. destruct Hc; discriminate.
  - rewrite (proj1 (shl_align_val mx ex ex ltac:(lia))),
      (proj1 (shl_align_val my ey ex ltac:(lia))), Z.sub_diag in E.
    destruct (aligned_equal mx my ex ey Vx Vy Hle ltac:(cbn in E |- *; lia))
      as [-> ->].
    rewrite Z.compare_refl in Hc.
    change (PosDef.Pos.compare_cont Eq my my) with (Pos.compare my my) in Hc.
    rewrite Pos.compare_refl in Hc. destruct Hc; discriminate.
  - rewrite (proj1 (shl_align_val mx ex ey ltac:(lia))),
      (proj1 (shl_align_val my ey ey ltac:(lia))), Z.sub_diag in E.
    destruct (aligned_equal my mx ey ex Vy Vx ltac:(lia) ltac:(cbn in E |- *; lia))
      as [-> ->].
    rewrite Z.compare_refl in Hc.
    change (PosDef.Pos.compare_cont Eq mx mx) with (Pos.compare mx mx) in Hc.
    rewrite Pos.compare_refl in Hc. destruct Hc; discriminate.
Qed.

(** The difference of a finite float and a float equal to it is a zero. *)
Lemma sub_equal (x y : float) :
  eqb x y = true -> is_finite x = true -> eqb (sub x y) zero = true.
Proof.
  unfold eqb, SFeqb, sub. intros He Hf.
  destruct x as [sx|sx| |sx mx ex], y as [sy|sy| |sy my ey]; try discriminate;
    try destruct sx; try destruct sy; try discriminate; try reflexivity;
    cbn [SFcompare] in He.
  all: destruct (Z.compare_spec ex ey); try discriminate; subst.
  all: change (PosDef.Pos.compare_cont Eq mx my) with (Pos.compare mx my) in He.
  all: destruct (Pos.compare_spec mx my); try discriminate; subst.
  all: cbn [SFsub cond_Zopp]; rewrite Z.sub_diag; reflexivity.
Qed.

Lemma nonzero_eqb (x : float) : nonzero x = true -> eqb x zero = false.
Proof. destruct x as [|[]| |[]]; try discriminate; reflexivity. Qed.

(** For two valid floats, the difference is a zero exactly when they are
    equal and finite. *)
Lemma sub_zero_iff (x y : float) :
  valid x -> valid y ->
  (eqb (sub x y) zero = true <-> eqb x y = true /\ is_finite x = true).
Proof.
  intros Vx Vy. split; [|intros [H1 H2]; apply sub_equal; assumption].
  intros Hz. destruct (SFcompare x y) as [[]|] eqn:E.
  - split; [unfold eqb, SFeqb; rewrite E; reflexivity|].
    destruct x as [sx|sx| |sx mx ex]; try reflexivity.
    + destruct y as [sy|sy| |sy my ey]; try destruct sx; try destruct sy;
        try discriminate.
    + destruct y; discriminate.
  - rewrite nonzero_eqb in Hz; [discriminate|]. apply sub_nonzero; auto.
  - rewrite nonzero_eqb in Hz; [discriminate|]. apply sub_nonzero; auto.
  - apply compare_nan in E. destruct x, y; try discriminate; destruct E; discriminate.
Qed.

Lemma ltb_compare x y : ltb x y = true <-> SFcompare x y = Some Lt.
Proof.
  unfold ltb, SFltb. destruct (SFcompare x y) as [[]|]; intuition discriminate.
Qed.

Lemma compare_swap x y :
  SFcompare y x = Some Lt -> SFcompare x y = Some Gt.
Proof.
  intros H. assert (Hl : ltb y x = true) by (apply ltb_compare; exact H).
  apply ltb_key in Hl as (Hy & Hx & Hk).
  apply (compare_key x y Gt Hx Hy). exact Hk.
Qed.

(** Between different valid floats the difference is not a zero. *)
Lemma sub_ltb (x y : float) :
  valid x -> valid y -> (ltb x y = true \/ ltb y x = true) ->
  eqb (sub x y) zero = false.
Proof.
  intros Vx Vy H. apply nonzero_eqb, sub_nonzero; auto.
  destruct H as [H|H]; apply ltb_compare in H; [left; exact H|].
  right. apply compare_swap. exact H.
Qed.

(** What is not below [y], and what is below [y]. *)
Lemma ltb_above x y z :
  is_nan x = false -> ltb x y = false -> ltb z y = true -> ltb z x = true.
Proof.
  intros Hx H1 H2. apply ltb_key in H2 as (Hz & Hy & H2). apply key_ltb; auto.
  assert (H : ~ key_lt (key x) (key y)).
  { intros H. rewrite (key_ltb x y Hx Hy H) in H1. discriminate. }
  unfold key_lt in *. lia.
Qed.

Lemma ltb_asym x y : ltb x y = true -> ltb y x = false.
Proof.
  intros H. destruct (ltb y x) eqn:E; [|reflexivity].
  pose proof (ltb_trans _ _ _ H E) as Hxx. rewrite ltb_irrefl in Hxx. discriminate.
Qed.

Lemma ltb_not_nan x y : ltb x y = true -> is_nan x = false /\ is_nan y = false.
Proof. intros H. apply ltb_key in H. tauto. Qed.

End Binary64Facts.

(** ** data.py on binary64: the selection loops *)

Module Data64Facts.
Import Binary64 Binary64Facts Data64.

Lemma segment_score_ok t s :
  eqb (duration t) zero = false -> segment_score t s = Ok (score t s).
Proof. intros H. unfold segment_score, truediv. rewrite H. reflexivity. Qed.

Lemma segment_score_raise t s :
  eqb (duration t) zero = true -> segment_score t s = Raise ZeroDivisionError.
Proof. intros H. unfold segment_score, truediv. rewrite H. reflexivity. Qed.

(** The score loop, from any state: either no score is above [max_score]
    and the state is as it was, or the state is the score and the segment of
    an index [j] whose score is above [max_score], above the score of every
    earlier segment that has one, and below none. *)
Lemma score_loop_spec t (Hd : eqb (duration t) zero = false) :
  forall ss m b,
  exists m' b', best_loop t ss m b = Ok (m', b') /\
    ((m' = m /\ b' = b /\ forall s, s ∈ ss -> ltb m (score t s) = false) \/
     (exists j s, ss !! j = Some s /\ b' = Some s /\ m' = score t s /\
        ltb m (score t s) = true /\
        (forall s', s' ∈ ss -> ltb (score t s) (score t s') = false) /\
        (forall i s', (i < j)%nat -> ss !! i = Some s' ->
           is_nan (score t s') = true \/ ltb (score t s') (score t s) = true))).
Proof.
  induction ss as [|s0 ss IH]; intros m b.
  - exists m, b. split; [reflexivity|]. left. repeat split. intros s Hs. inversion Hs.
  - cbn [best_loop]. rewrite (segment_score_ok t s0 Hd). cbn [bind].
    destruct (ltb m (score t s0)) eqn:E.
    + destruct (IH (score t s0) (Some s0)) as (m' & b' & Hr & Hc).
      exists m', b'. split; [exact Hr|]. right.
      destruct Hc as [(-> & -> & Hall)|(j & s & Hj & -> & -> & Hlt & Hmax & Hfirst)].
      * exists 0%nat, s0. repeat split; auto.
        -- intros s' Hs'. apply elem_of_cons in Hs' as [->|Hs'];
             [apply ltb_irrefl|auto].
        -- intros i s' Hi. lia.
      * exists (S j), s. repeat split; auto.
        -- eapply ltb_trans; eauto.
        -- intros s' Hs'. apply elem_of_cons in Hs' as [->|Hs'];
             [apply ltb_asym; exact Hlt|auto].
        -- intros [|i] s' Hi Hs'.
           ++ injection Hs' as <-. right. exact Hlt.
           ++ apply (Hfirst i s'); [lia|exact Hs'].
    + destruct (IH m b) as (m' & b' & Hr & Hc).
      exists m', b'. split; [exact Hr|].
      destruct Hc as [(-> & -> & Hall)|(j & s & Hj & -> & -> & Hlt & Hmax & Hfirst)].
      * left. repeat split. intros s' Hs'.
        apply elem_of_cons in Hs' as [->|Hs']; auto.
      * right. exists (S j), s. repeat split; auto.
        -- intros s' Hs'. apply elem_of_cons in Hs' as [->|Hs']; [|auto].
           destruct (ltb (score t s) (score t s0)) eqn:E'; [|reflexivity].
           rewrite (ltb_trans _ _ _ Hlt E') in E. discriminate.
        -- intros [|i] s' Hi Hs'.
           ++ injection Hs' as <-.
              destruct (is_nan (score t s0)) eqn:En; [left; reflexivity|right].
              eapply ltb_below; eauto.
           ++ apply (Hfirst i s'); [lia|exact Hs'].
Qed.

(** The midpoint loop, from any state, likewise. *)
Lemma closest_loop_spec t : forall ss m c,
  (closest_loop t ss m c = c /\
   forall s, s ∈ ss -> ltb (mid_distance t s) m = false) \/
  (exists j s, ss !! j = Some s /\ closest_loop t ss m c = Some s /\
     ltb (mid_distance t s) m = true /\
     (forall s', s' ∈ ss -> ltb (mid_distance t s') (mid_distance t s) = false) /\
     (forall i s', (i < j)%nat -> ss !! i = Some s' ->
        is_nan (mid_distance t s') = true \/
        ltb (mid_distance t s) (mid_distance t s') = true)).
Proof.
  induction ss as [|s0 ss IH]; intros m c.
  - left. split; [reflexivity|]. intros s Hs. inversion Hs.
  - cbn [closest_loop]. destruct (ltb (mid_distance t s0) m) eqn:E.
    + right.
      destruct (IH (mid_distance t s0) (Some s0))
        as [[Hr Hall]|(j & s & Hj & Hr & Hlt & Hmin & Hfirst)].
      * exists 0%nat, s0. repeat split; auto.
        -- intros s' Hs'. apply elem_of_cons in Hs' as [->|Hs'];
             [apply ltb_irrefl|auto].
        -- intros i s' Hi. lia.
      * exists (S j), s. repeat split; auto.
        -- eapply ltb_trans; eauto.
        -- intros s' Hs'. apply elem_of_cons in Hs' as [->|Hs'];
             [apply ltb_asym; exact Hlt|auto].
        -- intros [|i] s' Hi Hs'.
           ++ injection Hs' as <-. right. exact Hlt.
           ++ apply (Hfirst i s'); [lia|exact Hs'].
    + destruct (IH m c) as [[Hr Hall]|(j & s & Hj & Hr & Hlt & Hmin & Hfirst)].
      * left. split; [exact Hr|]. intros s' Hs'.
        apply elem_of_cons in Hs' as [->|Hs']; auto.
      * right. exists (S j), s. repeat split; auto.
        -- intros s' Hs'. apply elem_of_cons in Hs' as [->|Hs']; [|auto].
           destruct (ltb (mid_distance t s0) (mid_distance t s)) eqn:E';
             [|reflexivity].
           rewrite (ltb_trans _ _ _ E' Hlt) in E. discriminate.
        -- intros [|i] s' Hi Hs'.
           ++ injection Hs' as <-.
              destruct (is_nan (mid_distance t s0)) eqn:En; [left; reflexivity|right].
              eapply ltb_above; eauto.
           ++ apply (Hfirst i s'); [lia|exact Hs'].
Qed.

Lemma duration_nonzero t :
  valid_segment t ->
  (ltb (t_start t) (t_end t) = true \/ ltb (t_end t) (t_start t) = true) ->
  eqb (duration t) zero = false.
Proof.
  intros [Vs Ve] H. apply sub_ltb; auto. tauto.
Qed.

Lemma best_segment_spec t ss :
  eqb (duration t) zero = false ->
  (best_s_segment t ss = Ok None /\
   forall s, s ∈ ss -> ltb zero (score t s) = false) \/
  (exists j s, ss !! j = Some s /\
     best_s_segment t ss = Ok (Some s) /\
     ltb zero (score t s) = true /\
     (forall s', s' ∈ ss -> ltb (score t s) (score t s') = false) /\
     (forall i s', (i < j)%nat -> ss !! i = Some s' ->
        leb (score t s) (score t s') = false)).
Proof.
  intros Hd. unfold best_s_segment.
  destruct (score_loop_spec t Hd ss zero None) as (m' & b' & Hr & Hc).
  rewrite Hr. cbn [bind snd].
  destruct Hc as [(_ & -> & Hall)|(j & s & Hj & -> & _ & Hlt & Hmax & Hfirst)].
  - left. auto.
  - right. exists j, s. repeat split; auto.
    intros i s' Hi Hs'. apply leb_false. right.
    destruct (Hfirst i s' Hi Hs'); auto.
Qed.

Lemma closest_segment_spec t ss :
  (closest_segment t ss = None /\
   forall s, s ∈ ss -> ltb (mid_distance t s) inf = false) \/
  (exists j s, ss !! j = Some s /\
     closest_segment t ss = Some s /\
     ltb (mid_distance t s) inf = true /\
     (forall s', s' ∈ ss -> ltb (mid_distance t s') (mid_distance t s) = false) /\
     (forall i s', (i < j)%nat -> ss !! i = Some s' ->
        leb (mid_distance t s') (mid_distance t s) = false)).
Proof.
  unfold closest_segment.
  destruct (closest_loop_spec t ss inf None)
    as [[Hr Hall]|(j & s & Hj & Hr & Hlt & Hmin & Hfirst)].
  - left. auto.
  - right. exists j, s. repeat split; auto.
    intros i s' Hi Hs'. apply leb_false.
    destruct (Hfirst i s' Hi Hs'); auto.
Qed.

Lemma leb_zero x : is_nan x = false -> (leb x zero = true <-> ltb zero x = false).
Proof.
  intros Hx. pose proof (leb_false x zero) as H. rewrite Hx in H.
  cbn [is_nan zero] in H. split; intros Hl.
  - destruct (ltb zero x) eqn:E; [|reflexivity].
    assert (leb x zero = false) by (apply H; auto). congruence.
  - destruct (leb x zero) eqn:E; [reflexivity|].
    destruct (proj1 H eq_refl) as [|[|]]; congruence.
Qed.

(** What the selection does whenever the division does not raise. *)
Lemma selection t ss :
  eqb (duration t) zero = false ->
  (forall s, segment_score t s = Ok (score t s)) /\
  (best_s_segment t ss = Ok None <->
     forall s, s ∈ ss -> ltb zero (score t s) = false) /\
  ((forall s, s ∈ ss -> ltb zero (score t s) = false) ->
     speaker_label t ss = Ok (fallback_label t ss)) /\
  ((exists s, s ∈ ss /\ ltb zero (score t s) = true) ->
     exists j s, ss !! j = Some s /\
       best_s_segment t ss = Ok (Some s) /\
       speaker_label t ss = Ok (label_of s) /\
       ltb zero (score t s) = true /\
       (forall s', s' ∈ ss -> ltb (score t s) (score t s') = false) /\
       (forall i s', (i < j)%nat -> ss !! i = Some s' ->
          leb (score t s) (score t s') = false)).
Proof.
  intros Hd. pose proof (best_segment_spec t ss Hd) as Hb.
  split; [intros s; apply segment_score_ok; exact Hd|].
  split; [|split].
  - split.
    + intros Hn. destruct Hb as [[_ Hall]|(j & s & _ & Hr & _)]; [exact Hall|].
      congruence.
    + intros Hall. destruct Hb as [[Hr _]|(j & s & Hj & _ & Hlt & _)]; [exact Hr|].
      apply list_elem_of_lookup_2 in Hj. rewrite (Hall s Hj) in Hlt. discriminate.
  - intros Hall. unfold speaker_label.
    destruct Hb as [[-> _]|(j & s & Hj & _ & Hlt & _)]; [reflexivity|].
    apply list_elem_of_lookup_2 in Hj. rewrite (Hall s Hj) in Hlt. discriminate.
  - intros (s0 & Hs0 & Hlt0).
    destruct Hb as [[_ Hall]|(j & s & Hj & Hr & Hlt & Hmax & Hfirst)].
    + rewrite (Hall s0 Hs0) in Hlt0. discriminate.
    + exists j, s. repeat split; auto. unfold speaker_label. rewrite Hr. reflexivity.
Qed.

(** What the fallback does. *)
Lemma fallback t ss :
  (closest_segment t ss = None <->
     forall s, s ∈ ss -> ltb (mid_distance t s) inf = false) /\
  (closest_segment t ss = None -> fallback_label t ss = "Speaker Unknown") /\
  ((exists s, s ∈ ss /\ ltb (mid_distance t s) inf = true) ->
     exists j s, ss !! j = Some s /\
       closest_segment t ss = Some s /\
       fallback_label t ss = label_of s /\
       (forall s', s' ∈ ss ->
          ltb (mid_distance t s') (mid_distance t s) = false) /\
       (forall i s', (i < j)%nat -> ss !! i = Some s' ->
          leb (mid_distance t s') (mid_distance t s) = false)).
Proof.
  pose proof (closest_segment_spec t ss) as Hc. split; [|split].
  - split.
    + intros Hn. destruct Hc as [[_ Hall]|(j & s & _ & Hr & _)]; [exact Hall|].
      congruence.
    + intros Hall. destruct Hc as [[Hr _]|(j & s & Hj & _ & Hlt & _)]; [exact Hr|].
      apply list_elem_of_lookup_2 in Hj. rewrite (Hall s Hj) in Hlt. discriminate.
  - intros Hn. unfold fallback_label. rewrite Hn. reflexivity.
  - intros (s0 & Hs0 & Hlt0).
    destruct Hc as [[_ Hall]|(j & s & Hj & Hr & Hlt & Hmin & Hfirst)].
    + rewrite (Hall s0 Hs0) in Hlt0. discriminate.
    + exists j, s. repeat split; auto. unfold fallback_label. rewrite Hr. reflexivity.
Qed.

(** C2: for a transcript segment whose start is below its end, scoring never
    raises; the aligner uses the nearest-midpoint fallback exactly when no
    speaker segment has a score above 0, which, when no score is NaN, is
    when every score is at most 0; otherwise it labels with the first-seen
    segment of greatest score, the scores being the binary64 numbers that
    the code computes; the fallback takes the first-seen segment of least
    midpoint distance among those whose distance is below infinity, and when
    there is none (no speaker segment at all, or only distances that are
    infinite or NaN) the label is "Speaker Unknown".  On the segment [0, 5]
    with speakers [0, 4] and [4, 10] the scores are 4/5 and 1/5, rounded,
    and on [20, 30] with the same speakers the distances are 23 and 18; on
    [0, 3] the speakers [0, 1.75] and [0, 1.75 + 2^-52] have the same score
    after rounding, and the first one is kept. *)
Theorem aligner_selection (t : TranscriptSegment) (ss : list SpeakerSegment) :
  valid_segment t -> ltb (t_start t) (t_end t) = true ->
  ((forall s, segment_score t s = Ok (score t s)) /\
   (best_s_segment t ss = Ok None <->
      forall s, s ∈ ss -> ltb zero (score t s) = false) /\
   ((forall s, s ∈ ss -> ltb zero (score t s) = false) ->
      speaker_label t ss = Ok (fallback_label t ss)) /\
   ((exists s, s ∈ ss /\ ltb zero (score t s) = true) ->
      exists j s, ss !! j = Some s /\
        best_s_segment t ss = Ok (Some s) /\
        speaker_label t ss = Ok (label_of s) /\
        ltb zero (score t s) = true /\
        (forall s', s' ∈ ss -> ltb (score t s) (score t s') = false) /\
        (forall i s', (i < j)%nat -> ss !! i = Some s' ->
           leb (score t s) (score t s') = false))) /\
  ((forall s, s ∈ ss -> is_nan (score t s) = false) ->
     (best_s_segment t ss = Ok None <->
        forall s, s ∈ ss -> leb (score t s) zero = true)) /\
  ((closest_segment t ss = None <->
      forall s, s ∈ ss -> ltb (mid_distance t s) inf = false) /\
   (closest_segment t ss = None -> fallback_label t ss = "Speaker Unknown") /\
   ((exists s, s ∈ ss /\ ltb (mid_distance t s) inf = true) ->
      exists j s, ss !! j = Some s /\
        closest_segment t ss = Some s /\
        fallback_label t ss = label_of s /\
        (forall s', s' ∈ ss ->
           ltb (mid_distance t s') (mid_distance t s) = false) /\
        (forall i s', (i < j)%nat -> ss !! i = Some s' ->
           leb (mid_distance t s') (mid_distance t s) = false))) /\
  (ss = [] -> speaker_label t ss = Ok "Speaker Unknown") /\
  (score Samples64.t_hi (Samples64.spk 0 4 "A") = div (of_Z 4) (of_Z 5) /\
   score Samples64.t_hi (Samples64.spk 4 10 "B") = div (of_Z 1) (of_Z 5) /\
   speaker_label Samples64.t_hi Samples64.ss_AB = Ok "Speaker A") /\
  (mid_distance Samples64.t_late (Samples64.spk 0 4 "A") = of_Z 23 /\
   mid_distance Samples64.t_late (Samples64.spk 4 10 "B") = of_Z 18 /\
   speaker_label Samples64.t_late Samples64.ss_AB = Ok "Speaker B") /\
  (ltb (end_sec Samples64.s_near) (end_sec Samples64.s_next) = true /\
   score Samples64.t_three Samples64.s_near
   = score Samples64.t_three Samples64.s_next /\
   speaker_label Samples64.t_three [Samples64.s_near; Samples64.s_next]
   = Ok "Speaker 1").
Proof.
  intros Hv Hlt.
  assert (Hd : eqb (duration t) zero = false)
    by (apply duration_nonzero; auto).
  pose proof (selection t ss Hd) as Hsel.
  split; [exact Hsel|]. split; [|split; [apply fallback|split; [|split; [|split]]]].
  - intros Hnan. destruct Hsel as (_ & Hiff & _). rewrite Hiff.
    split; intros H s Hs.
    + apply leb_zero; auto.
    + apply leb_zero; auto.
  - intros ->. reflexivity.
  - split; [|split]; vm_compute; reflexivity.
  - split; [|split]; vm_compute; reflexivity.
  - split; [|split]; vm_compute; reflexivity.
Qed.

Lemma aligner_selection_witness :
  speaker_label Samples64.t_hi [] = Ok "Speaker Unknown".
Proof.
  assert (Hv : valid_segment Samples64.t_hi) by (split; vm_compute; reflexivity).
  assert (Hlt : ltb (t_start Samples64.t_hi) (t_end Samples64.t_hi) = true)
    by (vm_compute; reflexivity).
  exact (proj1 (proj2 (proj2 (proj2 (aligner_selection Samples64.t_hi [] Hv Hlt))))
           eq_refl).
Defined.

(** The claim of C2 as written fails.  The segment [0, 1] has its start
    below its end, the only speaker segment scores below 0, so the fallback
    is used; but the sum of the speaker segment's time stamps is above every
    binary64 number, its midpoint distance is infinite and not below the
    initial infinity, and the fallback picks no segment although there is
    one: the label is "Speaker Unknown". *)
Lemma aligner_selection_counterexample :
  ltb (t_start Samples64.t_unit) (t_end Samples64.t_unit) = true /\
  valid_segment Samples64.t_unit /\
  valid (start_sec Samples64.s_huge) /\ valid (end_sec Samples64.s_huge) /\
  leb (score Samples64.t_unit Samples64.s_huge) zero = true /\
  speaker_label Samples64.t_unit [Samples64.s_huge] = Ok "Speaker Unknown" /\
  closest_segment Samples64.t_unit [Samples64.s_huge] = None /\
  ~ (exists s, s ∈ [Samples64.s_huge] /\
       speaker_label Samples64.t_unit [Samples64.s_huge] = Ok (label_of s)).
Proof.
  split; [vm_compute; reflexivity|].
  split; [split; vm_compute; reflexivity|].
  do 5 (split; [vm_compute; reflexivity|]).
  intros (s & Hs & H). apply list_elem_of_singleton in Hs. subst s.
  vm_compute in H. discriminate.
Qed.

Lemma speaker_label_raise t s ss :
  eqb (duration t) zero = true ->
  speaker_label t (s :: ss) = Raise ZeroDivisionError.
Proof.
  intros Hz. unfold speaker_label, best_s_segment. cbn [best_loop].
  rewrite (segment_score_raise _ _ Hz). reflexivity.
Qed.

(** C7, as the code has it: a transcript segment whose end equals its start
    (and is finite) makes every score computation raise ZeroDivisionError,
    so with at least one speaker segment the alignment stops there with that
    error, keeping the lines already written; a segment whose end is below
    its start divides by a number that is not zero: nothing raises, and the
    segment is labelled like any other, by the first-seen segment of
    greatest score when some score is above 0 and through the fallback
    otherwise; with no speaker segment nothing is scored and the label is
    "Speaker Unknown".  On the segment [5, 3] with speakers [0, 4] and
    [100, 200] the scores are 1 and 97/2, and the label is the second
    speaker's. *)
Theorem malformed_segment (t : TranscriptSegment) (ss : list SpeakerSegment) :
  valid_segment t ->
  (eqb (t_end t) (t_start t) = true -> is_finite (t_end t) = true ->
     (forall s, segment_score t s = Raise ZeroDivisionError) /\
     (ss <> [] -> speaker_label t ss = Raise ZeroDivisionError) /\
     (ss <> [] -> forall rest written,
        alignment_loop (t :: rest) ss written
        = (written, Raise ZeroDivisionError))) /\
  (ltb (t_end t) (t_start t) = true ->
     (forall s, segment_score t s = Ok (score t s)) /\
     (exists l, speaker_label t ss = Ok l) /\
     ((forall s, s ∈ ss -> ltb zero (score t s) = false) ->
        speaker_label t ss = Ok (fallback_label t ss)) /\
     ((exists s, s ∈ ss /\ ltb zero (score t s) = true) ->
        exists j s, ss !! j = Some s /\
          speaker_label t ss = Ok (label_of s) /\
          ltb zero (score t s) = true /\
          (forall s', s' ∈ ss -> ltb (score t s) (score t s') = false) /\
          (forall i s', (i < j)%nat -> ss !! i = Some s' ->
             leb (score t s) (score t s') = false))) /\
  (ss = [] -> speaker_label t ss = Ok "Speaker Unknown") /\
  (score Samples64.t_reversed (Samples64.spk 0 4 "A") = of_Z 1 /\
   score Samples64.t_reversed (Samples64.spk 100 200 "B")
   = div (of_Z 97) (of_Z 2) /\
   speaker_label Samples64.t_reversed Samples64.ss_far = Ok "Speaker B").
Proof.
  intros [Vs Ve]. split; [|split; [|split]].
  - intros Heq Hfin.
    assert (Hz : eqb (duration t) zero = true) by (apply sub_equal; auto).
    split; [intros s; apply segment_score_raise; exact Hz|].
    split.
    + intros Hne. destruct ss as [|s ss]; [congruence|].
      apply speaker_label_raise; exact Hz.
    + intros Hne rest written. destruct ss as [|s ss]; [congruence|].
      cbn [alignment_loop]. rewrite (speaker_label_raise _ _ _ Hz). reflexivity.
  - intros Hlt.
    assert (Hd : eqb (duration t) zero = false)
      by (apply duration_nonzero; [split|]; auto).
    destruct (selection t ss Hd) as (H1 & H2 & H3 & H4).
    split; [exact H1|]. split; [|split; [exact H3|]].
    + unfold speaker_label.
      destruct (best_segment_spec t ss Hd) as [[-> _]|(j & s & _ & -> & _)];
        cbn [bind]; eauto.
    + intros Hex. destruct (H4 Hex) as (j & s & Hj & _ & Hl & Hrest).
      exists j, s. auto.
  - intros ->. reflexivity.
  - split; [|split]; vm_compute; reflexivity.
Qed.

Lemma malformed_segment_witness :
  segment_score Samples64.t_instant (Samples64.spk 0 4 "A")
  = Raise ZeroDivisionError.
Proof.
  assert (Hv : valid_segment Samples64.t_instant)
    by (split; vm_compute; reflexivity).
  assert (He : eqb (t_end Samples64.t_instant) (t_start Samples64.t_instant) = true)
    by (vm_compute; reflexivity).
  assert (Hf : is_finite (t_end Samples64.t_instant) = true)
    by (vm_compute; reflexivity).
  exact (proj1 (proj1 (malformed_segment Samples64.t_instant Samples64.ss_AB Hv)
                  He Hf) (Samples64.spk 0 4 "A")).
Defined.

(** The claim of C7 as written fails: the segment [5, 3] is neither rejected
    with an error nor sent to the midpoint fallback; it is labelled by score
    ("Speaker B"), where the fallback would have said "Speaker A". *)
Lemma malformed_segment_counterexample :
  leb (t_end Samples64.t_reversed) (t_start Samples64.t_reversed) = true /\
  valid_segment Samples64.t_reversed /\
  (forall s, segment_score Samples64.t_reversed s <> Raise ZeroDivisionError) /\
  speaker_label Samples64.t_reversed Samples64.ss_far = Ok "Speaker B" /\
  fallback_label Samples64.t_reversed Samples64.ss_far = "Speaker A" /\
  ~ (speaker_label Samples64.t_reversed Samples64.ss_far = Raise ZeroDivisionError \/
     speaker_label Samples64.t_reversed Samples64.ss_far
       = Ok (fallback_label Samples64.t_reversed Samples64.ss_far)).
Proof.
  split; [vm_compute; reflexivity|]. split; [split; vm_compute; reflexivity|].
  split; [intros s; rewrite segment_score_ok by (vm_compute; reflexivity);
          discriminate|].
  split; [vm_compute; reflexivity|].
  split; [vm_compute; reflexivity|].
  vm_compute. intros [H|H]; discriminate.
Qed.

End Data64Facts.

(** ** Lists *)

Lemma alternates_snoc {A} (l : list A) (x : A) :
  alternates (l ++ [x]) <-> alternates l /\ (forall y, last l = Some y -> y <> x).
Proof.
  induction l as [|a [|b l] IH].
  - cbn. split; [intros _; split; [exact I|discriminate]|auto].
  - cbn. split.
    + intros [H _]. split; [exact I|]. intros y [= <-]. exact H.
    + intros [_ H]. split; [apply H; reflexivity|exact I].
  - change ((a :: b :: l) ++ [x]) with (a :: ((b :: l) ++ [x])).
    change (last (a :: b :: l)) with (last (b :: l)).
    cbn [alternates app] in *. rewrite IH. tauto.
Qed.

Lemma alternates_map {A B} (f : A -> B) (l : list A) :
  (forall x y, x ∈ l -> y ∈ l -> x <> y -> f x <> f y) ->
  alternates l -> alternates (map f l).
Proof.
  induction l as [|a [|b l] IH]; intros Hf Hl; try exact I.
  cbn [map alternates] in *. destruct Hl as [Hab Hl]. split.
  - apply Hf; [left|right; left|exact Hab].
  - apply IH; [|exact Hl]. intros x y Hx Hy. apply Hf; right; assumption.
Qed.

Lemma elem_of_concat {A} (x : A) (l : list A) (ls : list (list A)) :
  l ∈ ls -> x ∈ l -> x ∈ concat ls.
Proof.
  rewrite !list_elem_of_In. intros Hl Hx. apply in_concat. eauto.
Qed.

Lemma fold_left_skip {S U} (f : S -> U -> S) (P : U -> Prop)
    `{forall u, Decision (P u)} (l : list U) :
  (forall st u, ~ P u -> f st u = st) ->
  forall st, fold_left f (filter P l) st = fold_left f l st.
Proof.
  intros Hskip. induction l as [|u l IH]; intros st; [reflexivity|].
  rewrite filter_cons. destruct (decide (P u)) as [Hu|Hu]; cbn [fold_left].
  - apply IH.
  - rewrite (Hskip st u Hu). apply IH.
Qed.

(** ** The classification of speakers *)

Lemma classify_None self speaker :
  classify self speaker = None <-> dropped self speaker.
Proof.
  unfold classify, dropped.
  destruct (decide (speaker ∈ excluded_speakers self)) as [He|He]; [tauto|].
  destruct (decide (speaker ∈ therapist_speakers self)) as [Ht|Ht].
  - split; [discriminate|]. intros [?|[? _]]; contradiction.
  - destruct (speaker_mapping self !! speaker) as [p|] eqn:E.
    + split; [discriminate|]. intros [?|[_ ?]]; [contradiction|discriminate].
    + split; auto.
Qed.

Lemma map_partner_None name speakers : forall m sp,
  map_partner name speakers m !! sp = None <-> m !! sp = None /\ sp ∉ speakers.
Proof.
  unfold map_partner. induction speakers as [|s speakers IH]; intros m sp.
  - cbn. split; [intros H; split; [exact H|apply not_elem_of_nil]|tauto].
  - cbn [fold_left]. rewrite IH, lookup_insert_None, not_elem_of_cons.
    intuition congruence.
Qed.

Lemma partner_mappings_None (pm : list (string * list string)) : forall m sp,
  fold_left (fun m kv => map_partner (fst kv) (snd kv) m) pm m !! sp = None
  <-> m !! sp = None /\ forall name sps, (name, sps) ∈ pm -> sp ∉ sps.
Proof.
  induction pm as [|[name sps] pm IH]; intros m sp.
  - cbn. split; [intros H; split; [exact H|]|tauto].
    intros n l Hin. inversion Hin.
  - cbn [fold_left fst snd]. rewrite IH, map_partner_None. split.
    + intros [[Hm Hs] Hrest]. split; [exact Hm|]. intros n l Hin.
      apply elem_of_cons in Hin as [[= -> ->]|Hin]; eauto.
    + intros [Hm Hall]. split; [split; [exact Hm|]|].
      * apply (Hall name). left.
      * intros n l Hin. apply (Hall n). right. exact Hin.
Qed.

Lemma therapists_None (th : list string) : forall (m : gmap string string) sp,
  fold_left (fun m therapist => <[therapist := "therapist"]> m) th m !! sp = None
  <-> m !! sp = None /\ sp ∉ th.
Proof.
  induction th as [|t th IH]; intros m sp.
  - cbn. split; [intros H; split; [exact H|apply not_elem_of_nil]|tauto].
  - cbn [fold_left]. rewrite IH, lookup_insert_None, not_elem_of_cons.
    intuition congruence.
Qed.

(** For a converter set up from a profile, the dropped speakers are the
    excluded ones and those in none of the three parts of the profile. *)
Lemma dropped_setup th pm ex sp :
  dropped (setup_speaker_mapping init th pm ex) sp <->
  sp ∈ default [] ex \/
  ((sp ∉ th) /\ forall name sps, (name, sps) ∈ pm -> sp ∉ sps).
Proof.
  unfold dropped, setup_speaker_mapping.
  cbn [excluded_speakers therapist_speakers speaker_mapping init].
  rewrite therapists_None, partner_mappings_None, lookup_empty.
  rewrite !elem_of_list_to_set. tauto.
Qed.

Lemma classify_not_kept self u :
  ~ is_Some (classify self (speaker u)) -> classify self (speaker u) = None.
Proof.
  destruct (classify self (speaker u)); [intros []; eauto|reflexivity].
Qed.

Lemma mapped_snoc self us u :
  mapped self (us ++ [u]) =
  mapped self us ++ (match classify self (speaker u) with
                     | Some _ => [u]
                     | None => []
                     end).
Proof.
  unfold mapped. rewrite filter_app. f_equal.
  rewrite filter_cons, filter_nil.
  destruct (classify self (speaker u)) eqn:E.
  - rewrite decide_True; eauto.
  - rewrite decide_False; [reflexivity|]. intros [? ?]. discriminate.
Qed.

(** ** preprocess_data.py: the always-prefix grouper *)

Module PreprocessDataFacts.
Import PreprocessData.

Lemma step_dropped self st u :
  classify self (speaker u) = None -> step self st u = st.
Proof. intros H. unfold step. rewrite H. reflexivity. Qed.

Lemma group_unfold self us :
  group_consecutive_utterances self us = finish (fold_left (step self) us initial).
Proof. destruct us; reflexivity. Qed.

Lemma reached_invariant self us : invariant self us (reached self us).
Proof.
  induction us as [|u us IH] using rev_ind.
  - constructor; cbn; auto.
  - unfold reached in *. rewrite fold_left_app. cbn [fold_left].
    destruct (fold_left (step self) us initial) as [grouped cur].
    destruct IH as [Hl Hc Hr Hf Ho]. cbn [fst snd] in *.
    pose proof (mapped_snoc self us u) as Hm.
    unfold step.
    destruct (classify self (speaker u)) as [[r p]|] eqn:E.
    2:{ rewrite app_nil_r in Hm. constructor; auto. rewrite Hm. exact Hl. }
    set (line := match r with
                 | therapist => text u
                 | client => prefixed p (text u) end).
    assert (Hmap : map (always_prefixed self) (mapped self (us ++ [u]))
                   = lines_of (grouped, cur) ++ [line]).
    { rewrite Hm, map_app, Hl. cbn [map]. unfold always_prefixed at 2.
      rewrite E. destruct r; reflexivity. }
    unfold lines_of in Hmap. cbn [fst snd] in Hmap.
    assert (Hstep : forall (g : list Group) (c : Group),
              match r with
              | therapist =>
                  (g, {| role := role c; content := content c ++ [text u] |})
              | client =>
                  (g, {| role := role c;
                         content := content c ++ [prefixed p (text u)] |})
              end
              = (g, {| role := role c; content := content c ++ [line] |}))
      by (intros g c; destruct r; reflexivity).
    destruct (decide (role cur ≠ Some r)) as [Hne|Heq].
    + destruct (decide (role cur ≠ None)) as [Hsome|Hnone].
      * cbn iota. rewrite Hstep.
        constructor; unfold lines_of; cbn [fst snd role content app].
        -- rewrite Hmap, map_app, concat_app. cbn. rewrite app_nil_r. reflexivity.
        -- apply Forall_app. split; [exact Hc|]. constructor; [|constructor]. auto.
        -- rewrite map_app. cbn [map]. apply alternates_snoc. split; [exact Hr|].
           intros y. rewrite map_app. cbn [map]. rewrite last_snoc.
           intros [= <-]. exact Hne.
        -- discriminate.
        -- intros _. discriminate.
      * assert (Hrn : role cur = None).
        { destruct (role cur); [exfalso; apply Hnone; discriminate|reflexivity]. }
        destruct (Hf Hrn) as [-> Hcn]. cbn iota. rewrite Hstep.
        constructor; unfold lines_of; cbn [fst snd role content map concat app].
        -- rewrite Hmap, Hcn. reflexivity.
        -- constructor.
        -- exact I.
        -- discriminate.
        -- intros _. discriminate.
    + assert (Hrole : role cur = Some r)
        by (destruct (decide (role cur = Some r)); [assumption|contradiction]).
      cbn iota. rewrite Hstep.
      constructor; unfold lines_of; cbn [fst snd role content].
      * rewrite Hmap, app_assoc. reflexivity.
      * exact Hc.
      * rewrite map_app in Hr |- *. exact Hr.
      * rewrite Hrole. discriminate.
      * intros _ Hnil. apply app_eq_nil in Hnil as [_ Hnil]. discriminate.
Qed.

Lemma finish_lines self us :
  concat (map content (finish (reached self us))) = lines_of (reached self us).
Proof.
  destruct (reached_invariant self us) as [_ _ _ Hf _].
  unfold lines_of, finish. destruct (reached self us) as [grouped cur].
  cbn [fst snd] in *. destruct (decide (role cur ≠ None)) as [H|H].
  - rewrite map_app, concat_app. cbn. rewrite app_nil_r. reflexivity.
  - destruct (role cur); [exfalso; apply H; discriminate|].
    destruct (Hf eq_refl) as [-> ->]. reflexivity.
Qed.

(** The lines of all groups are the always-prefix lines of the kept
    utterances. *)
Lemma group_lines self us :
  concat (map content (group_consecutive_utterances self us))
  = map (always_prefixed self) (mapped self us).
Proof.
  rewrite group_unfold. fold (reached self us). rewrite finish_lines.
  apply (reached_invariant self us).
Qed.

Lemma group_mapped self us :
  group_consecutive_utterances self us
  = group_consecutive_utterances self (mapped self us).
Proof.
  rewrite !group_unfold. f_equal. symmetry. unfold mapped.
  apply fold_left_skip. intros st u Hu.
  apply step_dropped, classify_not_kept, Hu.
Qed.

(** The emitted groups have a role and a line each, and alternate. *)
Lemma group_shape self us :
  Forall (fun g => role g <> None /\ content g <> [])
    (group_consecutive_utterances self us) /\
  alternates (map role (group_consecutive_utterances self us)).
Proof.
  rewrite group_unfold.
  destruct (reached_invariant self us) as [_ Hc Hr Hf Ho].
  fold (reached self us). destruct (reached self us) as [grouped cur].
  cbn [fst snd finish] in *.
  destruct (decide (role cur ≠ None)) as [H|H].
  - split; [|exact Hr]. apply Forall_app. split; [exact Hc|].
    constructor; [|constructor]. auto.
  - destruct (role cur); [exfalso; apply H; discriminate|].
    destruct (Hf eq_refl) as [-> _]. split; [constructor|exact I].
Qed.

Lemma from_training_format (gs : list Group) :
  map from (convert_to_training_format gs) = map from_of_role (map role gs).
Proof.
  unfold convert_to_training_format, from_of_role. rewrite !map_map.
  apply map_ext. intros g. destruct (decide (role g = Some client)); reflexivity.
Qed.

End PreprocessDataFacts.

(** ** preprocessing_data_3.py: the prefix-on-change grouper *)

Module PreprocessingData3Facts.
Import PreprocessingData3.

Lemma step3_dropped self st u :
  classify self (speaker u) = None -> step self st u = st.
Proof. intros H. unfold step. rewrite H. reflexivity. Qed.

Lemma group3_unfold self us :
  group_consecutive_utterances self us = finish (fold_left (step self) us initial).
Proof. destruct us; reflexivity. Qed.

Lemma same_up_to_prefix_refl l : same_up_to_prefix l l.
Proof. left. reflexivity. Qed.

Lemma same_up_to_prefix_prefixed p l : same_up_to_prefix (prefixed p l) l.
Proof. right. exists p. reflexivity. Qed.

#[local] Hint Resolve same_up_to_prefix_refl same_up_to_prefix_prefixed : core.

(** The two loops run in lock step. *)
Lemma reached_related self us :
  Forall2 related_group
    (fst (PreprocessData.reached self us)) (fst (reached self us)) /\
  related_group (snd (PreprocessData.reached self us)) (snd (reached self us)).
Proof.
  induction us as [|u us IH] using rev_ind.
  - cbn. split; [constructor|]. constructor; cbn; auto.
  - unfold reached, PreprocessData.reached in *. rewrite !fold_left_app.
    cbn [fold_left].
    destruct (fold_left (PreprocessData.step self) us PreprocessData.initial)
      as [gA cA].
    destruct (fold_left (step self) us initial) as [gB cB].
    cbn [fst snd] in IH. destruct IH as [Hg [Hrole Hlines Hth]].
    unfold step, PreprocessData.step.
    destruct (classify self (speaker u)) as [[r p]|] eqn:E.
    2:{ cbn [fst snd]. split; [exact Hg|]. constructor; assumption. }
    rewrite Hrole.
    destruct (decide (role cB ≠ Some r)) as [Hne|Heq].
    + assert (Hg' : Forall2 related_group
                (if decide (role cB ≠ None) then gA ++ [cA] else gA)
                (if decide (role cB ≠ None) then gB ++ [cB] else gB)).
      { destruct (decide (role cB ≠ None)); [|exact Hg].
        apply Forall2_app; [exact Hg|]. constructor; [|constructor].
        constructor; assumption. }
      destruct r; cbn [fst snd role content current_speaker PreprocessData.role
                       PreprocessData.content app].
      * split; [exact Hg'|]. constructor; cbn; auto.
      * rewrite (decide_True (P := None ≠ Some p)) by discriminate.
        cbn [fst snd role content current_speaker app].
        split; [exact Hg'|]. constructor; cbn; auto.
    + assert (Hr : role cB = Some r)
        by (destruct (decide (role cB = Some r)); [assumption|contradiction]).
      destruct r; cbn [fst snd role content current_speaker PreprocessData.role
                       PreprocessData.content].
      * split; [exact Hg|]. constructor; cbn; auto.
        -- apply Forall2_app; auto.
        -- intros _. rewrite (Hth Hr). reflexivity.
      * destruct (decide (current_speaker cB ≠ Some p));
          cbn [fst snd role content current_speaker];
          (split; [exact Hg|]); constructor; cbn; auto;
          try (apply Forall2_app; auto);
          rewrite Hr; discriminate.
Qed.

Lemma reached_fresh self us :
  role (snd (reached self us)) = None ->
  fst (reached self us) = [] /\ content (snd (reached self us)) = [].
Proof.
  intros Hn. destruct (reached_related self us) as [Hg [Hrole Hlines _]].
  destruct (PreprocessDataFacts.reached_invariant self us) as [_ _ _ Hf _].
  rewrite Hn in Hrole. destruct (Hf Hrole) as [HgA HcA].
  rewrite HgA in Hg. rewrite HcA in Hlines.
  apply Forall2_nil_inv_l in Hg. apply Forall2_nil_inv_l in Hlines. auto.
Qed.

(** Every kept utterance contributes one line, in order: its text, or its
    text behind the partner prefix. *)
Lemma reached_lines self us :
  Forall2 (fun u line => line = always_prefixed self u \/ line = text u)
    (mapped self us) (lines_of (reached self us)).
Proof.
  induction us as [|u us IH] using rev_ind.
  - cbn. constructor.
  - pose proof (reached_fresh self us) as Hfresh.
    unfold reached in *. rewrite fold_left_app. cbn [fold_left].
    destruct (fold_left (step self) us initial) as [grouped cur].
    rewrite mapped_snoc. unfold step, lines_of in *. cbn [fst snd] in IH, Hfresh.
    destruct (classify self (speaker u)) as [[r p]|] eqn:E.
    2:{ rewrite app_nil_r. exact IH. }
    assert (Hone : forall line, line = always_prefixed self u \/ line = text u ->
              Forall2 (fun u line => line = always_prefixed self u \/ line = text u)
                (mapped self us ++ [u])
                ((concat (map content grouped) ++ content cur) ++ [line])).
    { intros line Hline. apply Forall2_app; [exact IH|].
      constructor; [exact Hline|constructor]. }
    assert (Hpre : always_prefixed self u =
                   match r with
                   | therapist => text u
                   | client => prefixed p (text u)
                   end).
    { unfold always_prefixed. rewrite E. destruct r; reflexivity. }
    destruct (decide (role cur ≠ Some r)) as [Hne|Heq].
    + destruct (decide (role cur ≠ None)) as [Hsome|Hnone].
      * destruct r; [|rewrite (decide_True (P := None ≠ Some p)) by discriminate];
          cbn [fst snd role content current_speaker app];
          rewrite map_app, concat_app; cbn [map concat]; rewrite app_nil_r;
          apply Hone; rewrite Hpre; auto.
      * assert (Hrn : role cur = None)
          by (destruct (role cur); [exfalso; apply Hnone; discriminate|reflexivity]).
        destruct (Hfresh Hrn) as [-> Hcn]. rewrite Hcn in Hone.
        destruct r; [|rewrite (decide_True (P := None ≠ Some p)) by discriminate];
          cbn [fst snd role content current_speaker app map concat];
          apply (Hone _); rewrite Hpre; auto.
    + destruct r; [|destruct (decide (current_speaker cur ≠ Some p))];
        cbn [fst snd role content current_speaker];
        rewrite app_assoc; apply Hone; rewrite Hpre; auto.
Qed.

Lemma finish3_lines self us :
  concat (map content (finish (reached self us))) = lines_of (reached self us).
Proof.
  pose proof (reached_fresh self us) as Hf.
  unfold lines_of, finish. destruct (reached self us) as [grouped cur].
  cbn [fst snd] in *. destruct (decide (role cur ≠ None)) as [H|H].
  - rewrite map_app, concat_app. cbn. rewrite app_nil_r. reflexivity.
  - destruct (role cur); [exfalso; apply H; discriminate|].
    destruct (Hf eq_refl) as [-> ->]. reflexivity.
Qed.

Lemma group3_lines self us :
  Forall2 (fun u line => line = always_prefixed self u \/ line = text u)
    (mapped self us)
    (concat (map content (group_consecutive_utterances self us))).
Proof.
  rewrite group3_unfold. fold (reached self us). rewrite finish3_lines.
  apply reached_lines.
Qed.

Lemma group3_mapped self us :
  group_consecutive_utterances self us
  = group_consecutive_utterances self (mapped self us).
Proof.
  rewrite !group3_unfold. f_equal. symmetry. unfold mapped.
  apply fold_left_skip. intros st u Hu.
  apply step3_dropped, classify_not_kept, Hu.
Qed.

(** The groups the two groupers emit for the same input correspond one to
    one. *)
Lemma groups_related self us :
  Forall2 related_group
    (PreprocessData.group_consecutive_utterances self us)
    (group_consecutive_utterances self us).
Proof.
  rewrite PreprocessDataFacts.group_unfold, group3_unfold.
  destruct (reached_related self us) as [Hg Hc].
  unfold PreprocessData.reached, reached in *.
  destruct (fold_left (PreprocessData.step self) us PreprocessData.initial)
    as [gA cA].
  destruct (fold_left (step self) us initial) as [gB cB].
  cbn [fst snd PreprocessData.finish finish] in *.
  rewrite (rel_role _ _ Hc).
  destruct (decide (role cB ≠ None)); [|exact Hg].
  apply Forall2_app; [exact Hg|]. constructor; [exact Hc|constructor].
Qed.

Lemma related_roles (ga : list PreprocessData.Group) (gb : list Group) :
  Forall2 related_group ga gb -> map PreprocessData.role ga = map role gb.
Proof.
  induction 1 as [|a b ga gb Hab _ IH]; [reflexivity|].
  cbn. rewrite IH, (rel_role _ _ Hab). reflexivity.
Qed.

Lemma related_sizes (ga : list PreprocessData.Group) (gb : list Group) :
  Forall2 related_group ga gb ->
  map (fun g => length (PreprocessData.content g)) ga
  = map (fun g => length (content g)) gb.
Proof.
  induction 1 as [|a b ga gb Hab _ IH]; [reflexivity|].
  cbn. rewrite IH, (Forall2_length _ _ _ (rel_lines _ _ Hab)). reflexivity.
Qed.

Lemma from_dialogue_pairs (gs : list Group) :
  map from (create_dialogue_pairs gs) = map from_of_role (map role gs).
Proof.
  unfold create_dialogue_pairs, from_of_role. rewrite !map_map.
  apply map_ext. intros g. destruct (decide (role g = Some client)); reflexivity.
Qed.

End PreprocessingData3Facts.

(** ** preprocessing_data_3.py: the exchange scan and the windows *)

Module WindowFacts.
Import PreprocessingData3.

Lemma is_exchange_true dp i :
  is_exchange dp i = true <->
  from <$> dp !! i = Some human /\ from <$> dp !! (i + 1) = Some gpt.
Proof.
  unfold is_exchange. rewrite andb_true_iff, !bool_decide_eq_true. reflexivity.
Qed.

Lemma loop_exchange dp i vp :
  i < length dp - 1 -> is_exchange dp i = true ->
  valid_pairs_loop dp i vp = valid_pairs_loop dp (i + 2) (vp ++ [(i, i + 1)]).
Proof.
  intros H E. rewrite valid_pairs_loop_equation_1.
  destruct (decide (i < length dp - 1)); [|contradiction].
  cbn. rewrite E. reflexivity.
Qed.

Lemma loop_other dp i vp :
  i < length dp - 1 -> is_exchange dp i = false ->
  valid_pairs_loop dp i vp = valid_pairs_loop dp (i + 1) vp.
Proof.
  intros H E. rewrite valid_pairs_loop_equation_1.
  destruct (decide (i < length dp - 1)); [|contradiction].
  cbn. rewrite E. reflexivity.
Qed.

Lemma loop_stop dp i vp :
  ~ i < length dp - 1 -> valid_pairs_loop dp i vp = vp.
Proof.
  intros H. rewrite valid_pairs_loop_equation_1.
  destruct (decide (i < length dp - 1)); [contradiction|reflexivity].
Qed.

(** The pairs found so far are only ever extended. *)
Lemma loop_acc dp : forall n i vp, length dp - i <= n ->
  valid_pairs_loop dp i vp = vp ++ valid_pairs_loop dp i [].
Proof.
  induction n as [|n IH]; intros i vp Hn.
  - rewrite !loop_stop by lia. rewrite app_nil_r. reflexivity.
  - destruct (decide (i < length dp - 1)) as [Hi|Hi].
    + destruct (is_exchange dp i) eqn:E.
      * rewrite (loop_exchange dp i vp), (loop_exchange dp i []) by assumption.
        rewrite (IH (i + 2) (vp ++ _)), (IH (i + 2) ([] ++ _)) by lia.
        rewrite <- app_assoc. reflexivity.
      * rewrite (loop_other dp i vp), (loop_other dp i []) by assumption.
        apply IH. lia.
    + rewrite !loop_stop by assumption. rewrite app_nil_r. reflexivity.
Qed.

(** Every pair the scan records is an adjacent human/gpt pair inside the
    list. *)
Lemma loop_sound dp : forall n i, length dp - i <= n ->
  Forall (fun p => i <= fst p /\ snd p = fst p + 1 /\ snd p < length dp /\
                   from <$> dp !! fst p = Some human /\
                   from <$> dp !! snd p = Some gpt)
    (valid_pairs_loop dp i []).
Proof.
  induction n as [|n IH]; intros i Hn.
  - rewrite loop_stop by lia. constructor.
  - destruct (decide (i < length dp - 1)) as [Hi|Hi].
    + destruct (is_exchange dp i) eqn:E.
      * rewrite loop_exchange, loop_acc with (n := n) by (assumption || lia).
        apply is_exchange_true in E as [E1 E2].
        cbn [app]. constructor; [cbn [fst snd]; repeat split; auto; lia|].
        eapply Forall_impl; [apply (IH (i + 2)); lia|].
        cbn beta. intros p (H1 & H2). split; [lia|exact H2].
      * rewrite loop_other by assumption.
        eapply Forall_impl; [apply (IH (i + 1)); lia|].
        cbn beta. intros p (H1 & H2). split; [lia|exact H2].
    + rewrite loop_stop by assumption. constructor.
Qed.

Lemma find_valid_pairs_sound dp :
  exists exchanges, Forall2 (exchange_at dp) (find_valid_pairs dp) exchanges.
Proof.
  unfold find_valid_pairs.
  pose proof (loop_sound dp (length dp) 0 ltac:(lia)) as H.
  induction H as [|p vp Hp _ IH].
  - exists []. constructor.
  - destruct IH as [exs IH]. destruct Hp as (_ & H1 & H2 & H3 & H4).
    destruct (dp !! fst p) as [h|] eqn:Eh; [|discriminate].
    destruct (dp !! snd p) as [g|] eqn:Eg; [|discriminate].
    cbn in H3, H4. exists ((h, g) :: exs). constructor; [|exact IH].
    unfold exchange_at. cbn [fst snd]. repeat split; congruence.
Qed.

(** C4: the scan starts at index 0 with nothing recorded; at an index [i]
    inside the loop bound it records [(i, i+1)] and moves on by 2 exactly
    when message [i] is from human and message [i+1] from gpt, and moves on
    by 1 otherwise; past the bound it stops.  On messages whose roles are
    human, gpt, human, human, gpt it finds exactly (0,1) and (3,4). *)
Theorem exchange_scan (dp : list Msg) :
  find_valid_pairs dp = valid_pairs_loop dp 0 [] /\
  (forall i vp, i < length dp - 1 ->
     from <$> dp !! i = Some human -> from <$> dp !! (i + 1) = Some gpt ->
     valid_pairs_loop dp i vp = valid_pairs_loop dp (i + 2) (vp ++ [(i, i + 1)])) /\
  (forall i vp, i < length dp - 1 ->
     ~ (from <$> dp !! i = Some human /\ from <$> dp !! (i + 1) = Some gpt) ->
     valid_pairs_loop dp i vp = valid_pairs_loop dp (i + 1) vp) /\
  (forall i vp, ~ i < length dp - 1 -> valid_pairs_loop dp i vp = vp) /\
  (map from dp = [human; gpt; human; human; gpt] ->
     find_valid_pairs dp = [(0, 1); (3, 4)]).
Proof.
  split; [reflexivity|]. split; [|split; [|split]].
  - intros i vp Hi H1 H2. apply loop_exchange; [exact Hi|].
    apply is_exchange_true. auto.
  - intros i vp Hi Hn. apply loop_other; [exact Hi|].
    destruct (is_exchange dp i) eqn:E; [|reflexivity].
    apply is_exchange_true in E. contradiction.
  - intros i vp Hi. apply loop_stop; exact Hi.
  - intros Hroles.
    destruct dp as [|m0 [|m1 [|m2 [|m3 [|m4 [|m5 dp]]]]]]; try discriminate.
    injection Hroles as H0 H1 H2 H3 H4.
    unfold find_valid_pairs.
    rewrite loop_exchange;
      [|cbn; lia|apply is_exchange_true; cbn; rewrite H0, H1; auto].
    rewrite loop_other;
      [|cbn; lia|unfold is_exchange; cbn; rewrite H2, H3; reflexivity].
    rewrite loop_exchange;
      [|cbn; lia|apply is_exchange_true; cbn; rewrite H3, H4; auto].
    rewrite loop_stop by (cbn; lia). reflexivity.
Qed.

Lemma exchange_scan_witness :
  map from Samples.five_messages = [human; gpt; human; human; gpt] /\
  find_valid_pairs Samples.five_messages = [(0, 1); (3, 4)].
Proof.
  assert (H : map from Samples.five_messages = [human; gpt; human; human; gpt])
    by reflexivity.
  split; [exact H|].
  exact (proj2 (proj2 (proj2 (proj2 (exchange_scan Samples.five_messages)))) H).
Defined.

Lemma py_index_Some {A} (l : list A) i a : l !! i = Some a -> py_index l i = Ok a.
Proof. intros H. unfold py_index. rewrite H. reflexivity. Qed.

(** The inner loop appends the two messages of every exchange it is given. *)
Lemma window_loop_spec dp vp exs :
  Forall2 (exchange_at dp) vp exs ->
  forall idxs acc, Forall (fun k => k < length vp) idxs ->
  window_loop dp vp idxs acc
  = Ok (acc ++ flat_map (fun k => match exs !! k with
                                  | Some e => [fst e; snd e]
                                  | None => []
                                  end) idxs).
Proof.
  intros Hex. induction idxs as [|k idxs IH]; intros acc Hk.
  - cbn. rewrite app_nil_r. reflexivity.
  - apply Forall_cons in Hk as [Hk Hrest].
    apply lookup_lt_is_Some in Hk as [p Hp].
    destruct (Forall2_lookup_l _ _ _ _ _ Hex Hp) as (e & He & _ & Hh & Hg & _).
    cbn [window_loop flat_map]. rewrite (py_index_Some _ _ _ Hp). cbn [bind].
    rewrite (py_index_Some _ _ _ Hh), (py_index_Some _ _ _ Hg). cbn [bind].
    rewrite IH by exact Hrest. rewrite He, <- app_assoc. reflexivity.
Qed.

Lemma lookups_slice {A B} (f : A -> list B) (l : list A) : forall n s,
  s + n <= length l ->
  flat_map (fun k => match l !! k with Some e => f e | None => [] end) (seq s n)
  = flat_map f (take n (drop s l)).
Proof.
  induction n as [|n IH]; intros s Hs; [reflexivity|].
  destruct (lookup_lt_is_Some_2 l s ltac:(lia)) as [e He].
  rewrite (drop_S _ _ _ He). cbn [seq flat_map take]. rewrite He.
  f_equal. apply IH. lia.
Qed.

Lemma window_of_pair dp vp exs w k :
  Forall2 (exchange_at dp) vp exs -> k < length vp ->
  window_loop dp vp (py_range (start_idx k w) (k + 1)) []
  = Ok (exchanges_between exs (start_idx k w) k).
Proof.
  intros Hex Hk. pose proof (Forall2_length _ _ _ Hex) as Hlen.
  rewrite (window_loop_spec dp vp exs Hex).
  - cbn [app]. unfold py_range, exchanges_between. f_equal.
    destruct (decide (start_idx k w <= k)) as [Hs|Hs].
    + apply lookups_slice. lia.
    + replace (k + 1 - start_idx k w) with 0 by lia. reflexivity.
  - unfold py_range. apply Forall_forall. intros j Hj.
    apply elem_of_seq in Hj. lia.
Qed.

(** The outer loop emits one window per pair index. *)
Lemma conversations_loop_spec dp vp exs w :
  Forall2 (exchange_at dp) vp exs ->
  forall idxs acc, Forall (fun k => k < length vp) idxs ->
  conversations_loop dp vp w idxs acc
  = Ok (acc ++ map (fun k => {| conversations :=
                                  exchanges_between exs (start_idx k w) k |}) idxs).
Proof.
  intros Hex. induction idxs as [|k idxs IH]; intros acc Hk.
  - cbn. rewrite app_nil_r. reflexivity.
  - apply Forall_cons in Hk as [Hk Hrest].
    cbn [conversations_loop map]. rewrite (window_of_pair dp vp exs w k Hex Hk).
    cbn [bind]. rewrite IH by exact Hrest. rewrite <- app_assoc. reflexivity.
Qed.

Lemma create_windows dp exs w :
  Forall2 (exchange_at dp) (find_valid_pairs dp) exs ->
  create_sliding_window_conversations dp w
  = Ok (map (fun k => {| conversations := exchanges_between exs (start_idx k w) k |})
          (seq 0 (length exs))).
Proof.
  intros Hex. pose proof (Forall2_length _ _ _ Hex) as Hlen.
  unfold create_sliding_window_conversations.
  destruct (decide (length dp < 2)) as [Hshort|Hlong].
  - assert (Hnil : find_valid_pairs dp = [])
      by (unfold find_valid_pairs; apply loop_stop; lia).
    rewrite Hnil in Hlen. cbn in Hlen. rewrite <- Hlen. reflexivity.
  - rewrite (conversations_loop_spec dp _ exs w Hex).
    + cbn [app]. unfold py_range. rewrite Nat.sub_0_r, Hlen. reflexivity.
    + unfold py_range. apply Forall_forall. intros j Hj.
      apply elem_of_seq in Hj. lia.
Qed.

Lemma length_exchanges_between exs first last :
  first <= last -> last < length exs ->
  length (exchanges_between exs first last) = 2 * (last + 1 - first).
Proof.
  intros H1 H2. unfold exchanges_between.
  assert (Hpairs : forall l : list (Msg * Msg),
            length (flat_map (fun e => [fst e; snd e]) l) = 2 * length l).
  { induction l as [|e l IH]; [reflexivity|]. cbn [flat_map app length]. lia. }
  rewrite Hpairs, length_take, length_drop. lia.
Qed.

(** C3: for a window size of at least 1 the windowizer returns one window
    per exchange found; the window of exchange [k] holds the exchanges at
    positions max(0, k - windowSize + 1) to [k], in order, each as its human
    message followed by its gpt message, which is min(windowSize, k+1)
    exchanges.  With window size 2 and three exchanges the windows are
    {0}, {0,1} and {1,2}. *)
Theorem windows_anchored (dp : list Msg) (w : Z) :
  (1 <= w)%Z ->
  exists exs : list (Msg * Msg),
    Forall2 (exchange_at dp) (find_valid_pairs dp) exs /\
    create_sliding_window_conversations dp w
    = Ok (map (fun k => {| conversations := exchanges_between exs (start_idx k w) k |})
            (seq 0 (length exs))) /\
    (forall k, k < length exs ->
       Z.of_nat (start_idx k w) = Z.max 0 (Z.of_nat k - w + 1) /\
       start_idx k w <= k /\
       Z.of_nat (length (exchanges_between exs (start_idx k w) k))
       = (2 * Z.min w (Z.of_nat k + 1))%Z) /\
    (w = 2%Z -> forall e0 e1 e2, exs = [e0; e1; e2] ->
       create_sliding_window_conversations dp w
       = Ok [ {| conversations := [fst e0; snd e0] |};
              {| conversations := [fst e0; snd e0; fst e1; snd e1] |};
              {| conversations := [fst e1; snd e1; fst e2; snd e2] |} ]).
Proof.
  intros Hw. destruct (find_valid_pairs_sound dp) as [exs Hex].
  exists exs. split; [exact Hex|]. split; [apply create_windows; exact Hex|].
  split.
  - intros k Hk.
    assert (Hs : Z.of_nat (start_idx k w) = Z.max 0 (Z.of_nat k - w + 1))
      by (unfold start_idx; lia).
    split; [exact Hs|]. split; [lia|].
    rewrite length_exchanges_between by lia. lia.
  - intros -> e0 e1 e2 Hexs. rewrite (create_windows dp exs 2 Hex), Hexs.
    reflexivity.
Qed.

Lemma windows_anchored_witness :
  (1 <= 2)%Z /\
  exists exs : list (Msg * Msg),
    Forall2 (exchange_at Samples.six_messages)
      (find_valid_pairs Samples.six_messages) exs /\
    create_sliding_window_conversations Samples.six_messages 2
    = Ok (map (fun k => {| conversations := exchanges_between exs (start_idx k 2) k |})
            (seq 0 (length exs))).
Proof.
  assert (H : (1 <= 2)%Z) by lia.
  split; [exact H|].
  destruct (windows_anchored Samples.six_messages 2 H) as (exs & H1 & H2 & _).
  exists exs. split; assumption.
Defined.

End WindowFacts.

(** ** Properties of the two groupers *)

Module GrouperFacts.

Lemma mapped_kept self us u :
  u ∈ mapped self us <-> u ∈ us /\ ~ dropped self (speaker u).
Proof.
  unfold mapped. rewrite <- classify_None. split.
  - intros H. apply list_elem_of_filter in H as [H1 H2]. split; [exact H2|].
    intros Hn. rewrite Hn in H1. destruct H1. discriminate.
  - intros [H1 H2]. apply list_elem_of_filter. split; [|exact H1].
    destruct (classify self (speaker u)); [eauto|congruence].
Qed.

Lemma from_of_role_differ (x y : option Role) :
  x <> None -> y <> None -> x <> y -> from_of_role x <> from_of_role y.
Proof.
  destruct x as [[]|], y as [[]|]; intros H1 H2 H3; try congruence;
    vm_compute; discriminate.
Qed.

Lemma alternates_from (roles : list (option Role)) :
  Forall (fun r => r <> None) roles -> alternates roles ->
  alternates (map from_of_role roles).
Proof.
  intros Hsome. apply alternates_map. intros x y Hx Hy.
  rewrite Forall_forall in Hsome. apply from_of_role_differ; auto.
Qed.

(** C5: an utterance of an excluded or unmapped speaker leaves the loop
    state of either grouper as it was; the groups emitted are those of the
    input with all such utterances removed; and every line of every emitted
    group is the line of an utterance of the input whose speaker is neither
    excluded nor unmapped.  For a converter set up from a profile, unmapped
    means: not a therapist speaker and in no partner's speaker list. *)
Theorem dropped_speakers_leave_no_trace
    (self : ConversationConverter) (us : list Utterance) :
  (forall st u, dropped self (speaker u) ->
     PreprocessData.step self st u = st) /\
  (forall st u, dropped self (speaker u) ->
     PreprocessingData3.step self st u = st) /\
  PreprocessData.group_consecutive_utterances self us
    = PreprocessData.group_consecutive_utterances self (mapped self us) /\
  PreprocessingData3.group_consecutive_utterances self us
    = PreprocessingData3.group_consecutive_utterances self (mapped self us) /\
  (forall u, u ∈ mapped self us <-> u ∈ us /\ ~ dropped self (speaker u)) /\
  (forall g line,
     g ∈ PreprocessData.group_consecutive_utterances self us ->
     line ∈ PreprocessData.content g ->
     exists u, u ∈ us /\ ~ dropped self (speaker u) /\
       line = always_prefixed self u) /\
  (forall g line,
     g ∈ PreprocessingData3.group_consecutive_utterances self us ->
     line ∈ PreprocessingData3.content g ->
     exists u, u ∈ us /\ ~ dropped self (speaker u) /\
       (line = always_prefixed self u \/ line = text u)) /\
  (forall th pm ex sp,
     dropped (setup_speaker_mapping init th pm ex) sp <->
     sp ∈ default [] ex \/
     ((sp ∉ th) /\ forall name sps, (name, sps) ∈ pm -> sp ∉ sps)).
Proof.
  split; [|split; [|split; [|split; [|split; [|split; [|split]]]]]];
    [| | | | | | |apply dropped_setup].
  - intros st u Hu. apply PreprocessDataFacts.step_dropped, classify_None, Hu.
  - intros st u Hu.
    apply PreprocessingData3Facts.step3_dropped, classify_None, Hu.
  - apply PreprocessDataFacts.group_mapped.
  - apply PreprocessingData3Facts.group3_mapped.
  - apply mapped_kept.
  - intros g line Hg Hline.
    assert (Hin : line ∈ concat (map PreprocessData.content
                    (PreprocessData.group_consecutive_utterances self us))).
    { apply (elem_of_concat _ (PreprocessData.content g)); [|exact Hline].
      apply list_elem_of_fmap. eauto. }
    rewrite PreprocessDataFacts.group_lines in Hin.
    apply list_elem_of_fmap in Hin as (u & -> & Hu).
    apply mapped_kept in Hu as [Hu Hk]. eauto.
  - intros g line Hg Hline.
    assert (Hin : line ∈ concat (map PreprocessingData3.content
                    (PreprocessingData3.group_consecutive_utterances self us))).
    { apply (elem_of_concat _ (PreprocessingData3.content g)); [|exact Hline].
      apply list_elem_of_fmap. eauto. }
    apply list_elem_of_lookup in Hin as [i Hi].
    destruct (Forall2_lookup_r _ _ _ _ _
                (PreprocessingData3Facts.group3_lines self us) Hi)
      as (u & Hu & Hl).
    apply list_elem_of_lookup_2, mapped_kept in Hu as [Hu Hk]. eauto.
Qed.

Lemma dropped_speakers_leave_no_trace_witness :
  dropped Samples.profile_excl "Speaker C" /\
  PreprocessData.step Samples.profile_excl PreprocessData.initial
    (Samples.utt "Speaker C" "noise") = PreprocessData.initial.
Proof.
  assert (H : dropped Samples.profile_excl "Speaker C").
  { left. cbn. set_solver. }
  split; [exact H|].
  exact (proj1 (dropped_speakers_leave_no_trace Samples.profile_excl [])
           PreprocessData.initial (Samples.utt "Speaker C" "noise") H).
Defined.

(** C6: the lines of all groups, in emission order, are one line per kept
    utterance (speaker neither excluded nor unmapped) in the original order,
    and each line holds the text of its utterance: a therapist line is the
    text; a client line is the text behind "[partner]: " in
    preprocess_data.py, and the text with or without that prefix in
    preprocessing_data_3.py. *)
Theorem grouping_lossless (self : ConversationConverter) (us : list Utterance) :
  concat (map PreprocessData.content
            (PreprocessData.group_consecutive_utterances self us))
    = map (always_prefixed self) (mapped self us) /\
  Forall2 (fun u line => line = always_prefixed self u \/ line = text u)
    (mapped self us)
    (concat (map PreprocessingData3.content
               (PreprocessingData3.group_consecutive_utterances self us))) /\
  (forall u r p, classify self (speaker u) = Some (r, p) ->
     always_prefixed self u
     = match r with
       | therapist => text u
       | client => prefixed p (text u)
       end).
Proof.
  split; [|split].
  - apply PreprocessDataFacts.group_lines.
  - apply PreprocessingData3Facts.group3_lines.
  - intros u r p E. unfold always_prefixed. rewrite E. destruct r; reflexivity.
Qed.

Lemma grouping_lossless_witness :
  classify Samples.profile_AB (speaker (Samples.utt "Speaker B" "how are you"))
    = Some (client, "Partner A") /\
  always_prefixed Samples.profile_AB (Samples.utt "Speaker B" "how are you")
    = prefixed "Partner A" "how are you".
Proof.
  assert (H : classify Samples.profile_AB
                (speaker (Samples.utt "Speaker B" "how are you"))
              = Some (client, "Partner A")) by (vm_compute; reflexivity).
  split; [exact H|].
  exact (proj2 (proj2 (grouping_lossless Samples.profile_AB [])) _ _ _ H).
Defined.

(** C9: in either grouper every emitted group has a role and at least one
    line, neighbouring groups have different roles, and so the messages made
    from the groups alternate between human and gpt. *)
Theorem groups_alternate (self : ConversationConverter) (us : list Utterance) :
  (Forall (fun g => PreprocessData.role g <> None /\
                    PreprocessData.content g <> [])
     (PreprocessData.group_consecutive_utterances self us) /\
   alternates (map PreprocessData.role
                 (PreprocessData.group_consecutive_utterances self us)) /\
   alternates (map from
                 (PreprocessData.convert_to_training_format
                    (PreprocessData.group_consecutive_utterances self us)))) /\
  (Forall (fun g => PreprocessingData3.role g <> None /\
                    PreprocessingData3.content g <> [])
     (PreprocessingData3.group_consecutive_utterances self us) /\
   alternates (map PreprocessingData3.role
                 (PreprocessingData3.group_consecutive_utterances self us)) /\
   alternates (map from
                 (PreprocessingData3.create_dialogue_pairs
                    (PreprocessingData3.group_consecutive_utterances self us)))).
Proof.
  destruct (PreprocessDataFacts.group_shape self us) as [HcA HrA].
  pose proof (PreprocessingData3Facts.groups_related self us) as Hrel.
  assert (HsA : Forall (fun r => r <> None)
                  (map PreprocessData.role
                     (PreprocessData.group_consecutive_utterances self us))).
  { apply Forall_map. eapply Forall_impl; [exact HcA|]. intros g [H _]. exact H. }
  split.
  - split; [exact HcA|]. split; [exact HrA|].
    rewrite PreprocessDataFacts.from_training_format.
    apply alternates_from; assumption.
  - rewrite PreprocessingData3Facts.from_dialogue_pairs,
      <- (PreprocessingData3Facts.related_roles _ _ Hrel).
    split; [|split; [exact HrA|apply alternates_from; assumption]].
    rewrite Forall_forall in HcA. apply Forall_forall. intros b Hb.
    apply list_elem_of_lookup in Hb as [i Hi].
    destruct (Forall2_lookup_r _ _ _ _ _ Hrel Hi) as (a & Ha & Hab).
    apply list_elem_of_lookup_2 in Ha. destruct (HcA a Ha) as [H1 H2].
    rewrite <- (PreprocessingData3.rel_role _ _ Hab). split; [exact H1|].
    intros Hnil. pose proof (PreprocessingData3.rel_lines _ _ Hab) as Hl.
    rewrite Hnil in Hl. apply Forall2_nil_inv_r in Hl. contradiction.
Qed.

(** C10: for the same profile and utterances the two groupers emit equally
    many groups, with the same roles and the same number of lines in each;
    therapist groups have the same lines, and a client line of
    preprocess_data.py is the corresponding line of preprocessing_data_3.py,
    possibly behind a "[partner]: " prefix. *)
Theorem groupers_agree (self : ConversationConverter) (us : list Utterance) :
  length (PreprocessData.group_consecutive_utterances self us)
    = length (PreprocessingData3.group_consecutive_utterances self us) /\
  map PreprocessData.role (PreprocessData.group_consecutive_utterances self us)
    = map PreprocessingData3.role
        (PreprocessingData3.group_consecutive_utterances self us) /\
  map (fun g => length (PreprocessData.content g))
      (PreprocessData.group_consecutive_utterances self us)
    = map (fun g => length (PreprocessingData3.content g))
        (PreprocessingData3.group_consecutive_utterances self us) /\
  Forall2 (fun a b => PreprocessingData3.role b = Some therapist ->
                      PreprocessData.content a = PreprocessingData3.content b)
    (PreprocessData.group_consecutive_utterances self us)
    (PreprocessingData3.group_consecutive_utterances self us) /\
  Forall2 (fun a b => Forall2 same_up_to_prefix
                        (PreprocessData.content a)
                        (PreprocessingData3.content b))
    (PreprocessData.group_consecutive_utterances self us)
    (PreprocessingData3.group_consecutive_utterances self us).
Proof.
  pose proof (PreprocessingData3Facts.groups_related self us) as Hrel.
  split; [exact (Forall2_length _ _ _ Hrel)|].
  split; [exact (PreprocessingData3Facts.related_roles _ _ Hrel)|].
  split; [exact (PreprocessingData3Facts.related_sizes _ _ Hrel)|].
  split; (eapply Forall2_impl; [exact Hrel|]); intros a b Hab.
  - exact (PreprocessingData3.rel_therapist _ _ Hab).
  - exact (PreprocessingData3.rel_lines _ _ Hab).
Qed.

End GrouperFacts.

(** ** The end-to-end scenario *)

Module EndToEnd.
Import Samples64.

(** C1, as the code has it: on the two transcript segments and two speaker
    segments of the scenario the aligner writes "Speaker A: hi" and
    "Speaker B: how are you".  The converters read a speaker only where the
    file says "Speaker <digits>:", so they read no utterance from this file
    and, whatever the profile and the window size, there is no group, no
    message and no conversation window.  With the tags 1 and 2 in place of
    A and B, and the profile keyed by "Speaker 1" and "Speaker 2", the
    utterances read are those written, both groupers emit a therapist group
    ["hi"] and a client group ["[Partner A]: how are you"], the messages are
    gpt "hi" and human "[Partner A]: how are you", and for every window size
    there is no conversation window. *)
Theorem scenario :
  (Data64.process_audio_file [t_hi; t_how] ss_AB
     = (["Speaker A: hi"; "Speaker B: how are you"], Ok true) /\
   parse_conversation_file
     (file_text (fst (Data64.process_audio_file [t_hi; t_how] ss_AB))) = [] /\
   forall (self : ConversationConverter) (w : Z),
     PreprocessData.group_consecutive_utterances self
       (parse_conversation_file
          (file_text (fst (Data64.process_audio_file [t_hi; t_how] ss_AB)))) = [] /\
     PreprocessingData3.group_consecutive_utterances self
       (parse_conversation_file
          (file_text (fst (Data64.process_audio_file [t_hi; t_how] ss_AB)))) = [] /\
     PreprocessDataMain.convert_file self
       (file_text (fst (Data64.process_audio_file [t_hi; t_how] ss_AB))) = [] /\
     PreprocessingData3Main.convert_file self
       (file_text (fst (Data64.process_audio_file [t_hi; t_how] ss_AB))) w
     = Ok []) /\
  (Data64.process_audio_file [t_hi; t_how] ss_12
     = (["Speaker 1: hi"; "Speaker 2: how are you"], Ok true) /\
   parse_conversation_file
     (file_text (fst (Data64.process_audio_file [t_hi; t_how] ss_12)))
     = [Samples.utt "Speaker 1" "hi"; Samples.utt "Speaker 2" "how are you"] /\
   PreprocessData.group_consecutive_utterances MoreSamples.profile_12
     (parse_conversation_file
        (file_text (fst (Data64.process_audio_file [t_hi; t_how] ss_12))))
     = [ {| PreprocessData.role := Some therapist;
            PreprocessData.content := ["hi"] |};
         {| PreprocessData.role := Some client;
            PreprocessData.content := ["[Partner A]: how are you"] |} ] /\
   PreprocessingData3.group_consecutive_utterances MoreSamples.profile_12
     (parse_conversation_file
        (file_text (fst (Data64.process_audio_file [t_hi; t_how] ss_12))))
     = [ {| PreprocessingData3.role := Some therapist;
            PreprocessingData3.content := ["hi"];
            PreprocessingData3.current_speaker := None |};
         {| PreprocessingData3.role := Some client;
            PreprocessingData3.content := ["[Partner A]: how are you"];
            PreprocessingData3.current_speaker := Some "Partner A" |} ] /\
   PreprocessingData3.create_dialogue_pairs
     (PreprocessingData3.group_consecutive_utterances MoreSamples.profile_12
        (parse_conversation_file
           (file_text (fst (Data64.process_audio_file [t_hi; t_how] ss_12)))))
     = [Samples.msg gpt "hi"; Samples.msg human "[Partner A]: how are you"] /\
   PreprocessDataMain.convert_file MoreSamples.profile_12
     (file_text (fst (Data64.process_audio_file [t_hi; t_how] ss_12)))
     = [Samples.msg gpt "hi"; Samples.msg human "[Partner A]: how are you"] /\
   forall w : Z,
     PreprocessingData3Main.convert_file MoreSamples.profile_12
       (file_text (fst (Data64.process_audio_file [t_hi; t_how] ss_12))) w
     = Ok []).
Proof.
  assert (HA : Data64.process_audio_file [t_hi; t_how] ss_AB
               = (["Speaker A: hi"; "Speaker B: how are you"], Ok true))
    by (vm_compute; reflexivity).
  assert (H1 : Data64.process_audio_file [t_hi; t_how] ss_12
               = (["Speaker 1: hi"; "Speaker 2: how are you"], Ok true))
    by (vm_compute; reflexivity).
  rewrite HA, H1. cbn [fst].
  assert (PA : parse_conversation_file
                 (file_text ["Speaker A: hi"; "Speaker B: how are you"]) = [])
    by (vm_compute; reflexivity).
  assert (P1 : parse_conversation_file
                 (file_text ["Speaker 1: hi"; "Speaker 2: how are you"])
               = [Samples.utt "Speaker 1" "hi";
                  Samples.utt "Speaker 2" "how are you"])
    by (vm_compute; reflexivity).
  split.
  - split; [reflexivity|]. split; [exact PA|]. intros self w.
    unfold PreprocessDataMain.convert_file, PreprocessingData3Main.convert_file.
    cbn zeta. rewrite PA. repeat split.
  - split; [reflexivity|]. split; [exact P1|].
    unfold PreprocessDataMain.convert_file, PreprocessingData3Main.convert_file.
    cbn zeta. rewrite P1.
    assert (Hpairs : PreprocessingData3.create_dialogue_pairs
                       (PreprocessingData3.group_consecutive_utterances
                          MoreSamples.profile_12
                          [Samples.utt "Speaker 1" "hi";
                           Samples.utt "Speaker 2" "how are you"])
                     = [Samples.msg gpt "hi";
                        Samples.msg human "[Partner A]: how are you"])
      by (vm_compute; reflexivity).
    do 4 (split; [vm_compute; reflexivity|]).
    intros w. rewrite Hpairs.
    assert (Hnone : PreprocessingData3.find_valid_pairs
                      [Samples.msg gpt "hi";
                       Samples.msg human "[Partner A]: how are you"] = []).
    { unfold PreprocessingData3.find_valid_pairs.
      rewrite WindowFacts.loop_other by (cbn; lia || reflexivity).
      apply WindowFacts.loop_stop. cbn. lia. }
    rewrite (WindowFacts.create_windows _ [] w); [reflexivity|].
    rewrite Hnone. constructor.
Qed.

(** The claim of C1 as written fails: the lines the aligner writes carry the
    "Speaker " label, and from the file of these lines the converters read
    no utterance, so under the profile of the scenario (keyed by A and B, or
    by "Speaker A" and "Speaker B") no group is emitted. *)
Lemma scenario_counterexample :
  fst (Data64.process_audio_file [t_hi; t_how] ss_AB)
    <> ["A: hi"; "B: how are you"] /\
  PreprocessingData3.group_consecutive_utterances Samples.profile_bare
    (parse_conversation_file
       (file_text (fst (Data64.process_audio_file [t_hi; t_how] ss_AB)))) = [] /\
  PreprocessData.group_consecutive_utterances Samples.profile_bare
    (parse_conversation_file
       (file_text (fst (Data64.process_audio_file [t_hi; t_how] ss_AB)))) = [] /\
  PreprocessingData3.group_consecutive_utterances Samples.profile_AB
    (parse_conversation_file
       (file_text (fst (Data64.process_audio_file [t_hi; t_how] ss_AB)))) = [] /\
  PreprocessingData3.group_consecutive_utterances Samples.profile_bare
    (parse_conversation_file
       (file_text (fst (Data64.process_audio_file [t_hi; t_how] ss_AB))))
    <> [ {| PreprocessingData3.role := Some therapist;
            PreprocessingData3.content := ["hi"];
            PreprocessingData3.current_speaker := None |};
         {| PreprocessingData3.role := Some client;
            PreprocessingData3.content := ["[Partner A]: how are you"];
            PreprocessingData3.current_speaker := Some "Partner A" |} ].
Proof.
  assert (HA : Data64.process_audio_file [t_hi; t_how] ss_AB
               = (["Speaker A: hi"; "Speaker B: how are you"], Ok true))
    by (vm_compute; reflexivity).
  rewrite HA. cbn [fst].
  assert (PA : parse_conversation_file
                 (file_text ["Speaker A: hi"; "Speaker B: how are you"]) = [])
    by (vm_compute; reflexivity).
  rewrite PA. split; [discriminate|]. repeat split. discriminate.
Qed.

End EndToEnd.

(** * Further properties of the code *)

(** ** data.py: scores, labels and partial output *)

Module DataMore.
Import Data.



End DataMore.

(** ** setup_speaker_mapping *)

Module SetupMore.

Lemma map_partner_lookup name speakers : forall (m : gmap string string) sp,
  map_partner name speakers m !! sp
  = if decide (sp ∈ speakers) then Some name else m !! sp.
Proof.
  unfold map_partner. induction speakers as [|s speakers IH]; intros m sp.
  - cbn. rewrite decide_False by apply not_elem_of_nil. reflexivity.
  - cbn [fold_left]. rewrite IH.
    destruct (decide (sp ∈ speakers)) as [Hin|Hin].
    + rewrite decide_True by (right; exact Hin). reflexivity.
    + destruct (decide (sp = s)) as [->|Hne].
      * rewrite decide_True by left. apply lookup_insert_eq.
      * rewrite decide_False by (rewrite elem_of_cons; tauto).
        apply lookup_insert_ne. congruence.
Qed.

Lemma partner_mappings_lookup (pm : list (string * list string)) :
  forall (m : gmap string string) sp,
  fold_left (fun m kv => map_partner (fst kv) (snd kv) m) pm m !! sp
  = partner_from (m !! sp) pm sp.
Proof.
  unfold partner_from. induction pm as [|kv pm IH]; intros m sp; [reflexivity|].
  cbn [fold_left]. rewrite IH, map_partner_lookup. reflexivity.
Qed.

Lemma therapists_lookup (th : list string) : forall (m : gmap string string) sp,
  fold_left (fun m therapist => <[therapist := "therapist"]> m) th m !! sp
  = if decide (sp ∈ th) then Some "therapist" else m !! sp.
Proof.
  induction th as [|t th IH]; intros m sp.
  - cbn. rewrite decide_False by apply not_elem_of_nil. reflexivity.
  - cbn [fold_left]. rewrite IH.
    destruct (decide (sp ∈ th)) as [Hin|Hin].
    + rewrite decide_True by (right; exact Hin). reflexivity.
    + destruct (decide (sp = t)) as [->|Hne].
      * rewrite decide_True by left. apply lookup_insert_eq.
      * rewrite decide_False by (rewrite elem_of_cons; tauto).
        apply lookup_insert_ne. congruence.
Qed.

Lemma partner_from_snoc acc pm name sps sp :
  partner_from acc (pm ++ [(name, sps)]) sp
  = if decide (sp ∈ sps) then Some name else partner_from acc pm sp.
Proof. unfold partner_from. rewrite fold_left_app. reflexivity. Qed.

Lemma partner_from_None pm : forall acc sp,
  partner_from acc pm sp = None <->
  acc = None /\ forall name sps, (name, sps) ∈ pm -> sp ∉ sps.
Proof.
  unfold partner_from. induction pm as [|[n l] pm IH]; intros acc sp.
  - cbn. split; [intros ->; split; [reflexivity|]|tauto].
    intros name sps H. inversion H.
  - cbn [fold_left fst snd]. rewrite IH. split.
    + intros [Hacc Hall]. destruct (decide (sp ∈ l)); [discriminate|].
      split; [exact Hacc|]. intros name sps Hin.
      apply elem_of_cons in Hin as [[= -> ->]|Hin]; eauto.
    + intros [-> Hall]. split.
      * rewrite decide_False; [reflexivity|]. apply (Hall n). left.
      * intros name sps Hin. apply (Hall name). right. exact Hin.
Qed.

Lemma partner_from_absent pm sp : forall acc,
  (forall name sps, (name, sps) ∈ pm -> sp ∉ sps) ->
  partner_from acc pm sp = acc.
Proof.
  unfold partner_from. induction pm as [|[n l] pm IH]; intros acc Hall.
  - reflexivity.
  - cbn [fold_left fst snd]. rewrite decide_False by (apply (Hall n); left).
    apply IH. intros name sps Hin. apply (Hall name). right. exact Hin.
Qed.

Lemma classify_setup self th pm ex sp :
  classify (setup_speaker_mapping self th pm ex) sp
  = if decide (sp ∈ default [] ex) then None
    else if decide (sp ∈ th) then Some (therapist, "")
    else (fun name => (client, name))
           <$> partner_from (speaker_mapping self !! sp) pm sp.
Proof.
  unfold classify, setup_speaker_mapping.
  cbn [excluded_speakers therapist_speakers speaker_mapping].
  destruct (decide (sp ∈ default [] ex)) as [He|He].
  - rewrite decide_True by (apply elem_of_list_to_set; exact He). reflexivity.
  - rewrite decide_False by (rewrite elem_of_list_to_set; exact He).
    destruct (decide (sp ∈ th)) as [Ht|Ht].
    + rewrite decide_True by (apply elem_of_list_to_set; exact Ht). reflexivity.
    + rewrite decide_False by (rewrite elem_of_list_to_set; exact Ht).
      rewrite therapists_lookup, decide_False by exact Ht.
      rewrite partner_mappings_lookup.
      destruct (partner_from _ pm sp); reflexivity.
Qed.

(** X6: How a freshly set up converter classifies a speaker: an excluded speaker
    is skipped even if it is also listed as therapist or partner; otherwise a
    therapist speaker is a therapist even if a partner lists it too;
    otherwise the speaker is a client under the name of the last partner
    whose list has it; a speaker in no list is skipped. *)
Theorem setup_precedence (th : list string)
    (pm : list (string * list string)) (ex : option (list string))
    (sp : string) :
  classify (setup_speaker_mapping init th pm ex) sp
  = (if decide (sp ∈ default [] ex) then None
     else if decide (sp ∈ th) then Some (therapist, "")
     else (fun name => (client, name)) <$> partner_of pm sp) /\
  (forall pm' name sps, pm = pm' ++ [(name, sps)] -> sp ∈ sps ->
     partner_of pm sp = Some name) /\
  (partner_of pm sp = None <->
     forall name sps, (name, sps) ∈ pm -> sp ∉ sps).
Proof.
  split; [|split].
  - rewrite classify_setup. cbn [init speaker_mapping]. rewrite lookup_empty.
    reflexivity.
  - intros pm' name sps -> Hin. unfold partner_of.
    rewrite partner_from_snoc, decide_True by exact Hin. reflexivity.
  - unfold partner_of. rewrite partner_from_None. tauto.
Qed.

Lemma setup_precedence_witness :
  partner_of ([("Partner A", ["Speaker 4"])] ++ [("Partner B", ["Speaker 4"])])
    "Speaker 4" = Some "Partner B".
Proof.
  refine (proj1 (proj2 (setup_precedence [] _ None "Speaker 4"))
            [("Partner A", ["Speaker 4"])] "Partner B" ["Speaker 4"] eq_refl _).
  left.
Defined.

(** X7: Setting a converter up a second time replaces the therapist and excluded
    sets but keeps the entries of [speaker_mapping]: a speaker that the new
    profile does not mention is still a client under the name the old entry
    holds, and a therapist speaker of the first profile becomes a client
    named "therapist". *)
Theorem setup_keeps_old_entries (self : ConversationConverter)
    (th : list string) (pm : list (string * list string))
    (ex : option (list string)) (sp : string) :
  sp ∉ default [] ex -> sp ∉ th ->
  (forall name sps, (name, sps) ∈ pm -> sp ∉ sps) ->
  classify (setup_speaker_mapping self th pm ex) sp
  = (fun name => (client, name)) <$> (speaker_mapping self !! sp) /\
  (forall th0 pm0 ex0, self = setup_speaker_mapping init th0 pm0 ex0 ->
     sp ∈ th0 ->
     classify (setup_speaker_mapping self th pm ex) sp
     = Some (client, "therapist")).
Proof.
  intros Hex Hth Hpm.
  assert (E : classify (setup_speaker_mapping self th pm ex) sp
              = (fun name => (client, name)) <$> (speaker_mapping self !! sp)).
  { rewrite classify_setup, !decide_False by assumption.
    rewrite partner_from_absent by exact Hpm. reflexivity. }
  split; [exact E|].
  intros th0 pm0 ex0 -> Hin. rewrite E.
  unfold setup_speaker_mapping at 1. cbn [speaker_mapping].
  rewrite therapists_lookup, decide_True by exact Hin. reflexivity.
Qed.

Lemma setup_keeps_old_entries_witness :
  classify (setup_speaker_mapping
              (setup_speaker_mapping init ["Speaker 6"] [] None)
              ["Speaker 3"] [("Partner A", ["Speaker 1"])] None) "Speaker 6"
  = Some (client, "therapist").
Proof.
  refine (proj2 (setup_keeps_old_entries
                   (setup_speaker_mapping init ["Speaker 6"] [] None)
                   ["Speaker 3"] [("Partner A", ["Speaker 1"])] None
                   "Speaker 6" _ _ _) ["Speaker 6"] [] None eq_refl _).
  - cbn. apply not_elem_of_nil.
  - rewrite list_elem_of_singleton. discriminate.
  - intros name sps Hin. apply list_elem_of_singleton in Hin.
    injection Hin as -> ->. rewrite list_elem_of_singleton. discriminate.
  - left.
Defined.

End SetupMore.

(** ** The groupers as run grouping *)

Module GrouperMore.

Lemma group_runs_nil xs : group_runs xs = [] -> xs = [].
Proof.
  destruct xs as [|[r l] xs]; [reflexivity|]. cbn.
  destruct (group_runs xs) as [|[r' ls] gs]; [discriminate|].
  destruct (decide (r = r')); discriminate.
Qed.

Lemma snoc_run_cons g gs r l :
  gs <> [] -> snoc_run (g :: gs) r l = g :: snoc_run gs r l.
Proof. destruct gs; [congruence|]. destruct g. reflexivity. Qed.

Lemma snoc_run_head gs r l :
  gs <> [] -> fst <$> head (snoc_run gs r l) = fst <$> head gs.
Proof.
  destruct gs as [|[r1 ls1] [|g gs]]; [congruence| |]; intros _; cbn.
  - destruct (decide (r1 = r)); reflexivity.
  - reflexivity.
Qed.

Lemma group_runs_snoc xs r l :
  group_runs (xs ++ [(r, l)]) = snoc_run (group_runs xs) r l.
Proof.
  induction xs as [|[r0 l0] xs IH]; [reflexivity|].
  cbn [app group_runs]. rewrite IH.
  destruct (group_runs xs) as [|[r1 ls1] gs] eqn:E.
  - cbn. destruct (decide (r0 = r)); reflexivity.
  - destruct gs as [|g gs].
    + cbn. repeat (case_decide; subst; cbn); congruence.
    + rewrite (snoc_run_cons (r1, ls1) (g :: gs)) by congruence.
      destruct (decide (r0 = r1)).
      * rewrite (snoc_run_cons _ (g :: gs)) by congruence. reflexivity.
      * rewrite (snoc_run_cons _ ((r1, ls1) :: g :: gs)) by congruence.
        rewrite (snoc_run_cons _ (g :: gs)) by congruence. reflexivity.
Qed.

Lemma snoc_run_last gs r' ls r l :
  snoc_run (gs ++ [(r', ls)]) r l
  = gs ++ (if decide (r' = r) then [(r', ls ++ [l])] else [(r', ls); (r, [l])]).
Proof.
  induction gs as [|g gs IH]; [reflexivity|].
  cbn [app]. rewrite snoc_run_cons by (destruct gs; discriminate).
  rewrite IH. reflexivity.
Qed.

Lemma items_snoc self us u :
  items self (us ++ [u])
  = items self us ++ match classify self (speaker u) with
                     | Some (r, _) => [(r, always_prefixed self u)]
                     | None => []
                     end.
Proof.
  unfold items. rewrite omap_app. f_equal. cbn.
  destruct (classify self (speaker u)) as [[r p]|]; reflexivity.
Qed.

Lemma step_kept self grouped cur u r p :
  classify self (speaker u) = Some (r, p) ->
  PreprocessData.step self (grouped, cur) u
  = (if decide (PreprocessData.role cur ≠ Some r)
     then (if decide (PreprocessData.role cur ≠ None)
           then grouped ++ [cur] else grouped,
           {| PreprocessData.role := Some r;
              PreprocessData.content := [always_prefixed self u] |})
     else (grouped,
           {| PreprocessData.role := PreprocessData.role cur;
              PreprocessData.content :=
                PreprocessData.content cur ++ [always_prefixed self u] |})).
Proof.
  intros E. unfold PreprocessData.step, always_prefixed. rewrite E.
  destruct (decide (PreprocessData.role cur ≠ Some r)); destruct r; reflexivity.
Qed.

Lemma group_of_run_last (gs : list (Role * list string)) grouped cur :
  grouped ++ [cur] = map group_of_run gs ->
  exists gs' r ls,
    gs = gs' ++ [(r, ls)] /\ grouped = map group_of_run gs' /\
    PreprocessData.role cur = Some r /\ PreprocessData.content cur = ls.
Proof.
  intros H. symmetry in H. apply fmap_app_inv in H as (g1 & g2 & H1 & H2 & ->).
  destruct g2 as [|[r ls] [|? ?]]; try discriminate.
  injection H2 as ->. exists g1, r, ls. auto.
Qed.

(** The groups that the loop of preprocess_data.py has on finishing are the
    runs of the kept utterances. *)
Lemma finish_runs self us :
  PreprocessData.finish (PreprocessData.reached self us)
  = map group_of_run (group_runs (items self us)).
Proof.
  induction us as [|u us IH] using rev_ind; [reflexivity|].
  destruct (PreprocessDataFacts.reached_invariant self us) as [_ _ _ Hf _].
  rewrite items_snoc. unfold PreprocessData.reached in *.
  rewrite fold_left_app. cbn [fold_left].
  destruct (fold_left (PreprocessData.step self) us PreprocessData.initial)
    as [grouped cur].
  cbn [fst snd] in Hf.
  destruct (classify self (speaker u)) as [[r p]|] eqn:E.
  2:{ rewrite app_nil_r, PreprocessDataFacts.step_dropped by exact E. exact IH. }
  rewrite group_runs_snoc, (step_kept _ _ _ _ _ _ E).
  cbn [PreprocessData.finish] in IH.
  destruct (decide (PreprocessData.role cur ≠ Some r)) as [Hne|Heq].
  - cbn [PreprocessData.finish PreprocessData.role].
    rewrite decide_True by discriminate.
    destruct (decide (PreprocessData.role cur ≠ None)) as [Hsome|Hnone].
    + destruct (group_of_run_last _ _ _ IH) as (gs' & r' & ls & -> & -> & Hr & Hc).
      rewrite snoc_run_last, decide_False by congruence.
      rewrite !map_app. cbn. unfold group_of_run at 2 3. cbn [fst snd].
      rewrite <- app_assoc. cbn. do 3 f_equal.
      destruct cur as [rc cc]. cbn in *. congruence.
    + assert (Hrn : PreprocessData.role cur = None).
      { destruct (PreprocessData.role cur); [exfalso; apply Hnone; discriminate|].
        reflexivity. }
      destruct (Hf Hrn) as [-> _].
      symmetry in IH. apply fmap_nil_inv in IH. rewrite IH. reflexivity.
  - assert (Hrole : PreprocessData.role cur = Some r).
    { destruct (decide (PreprocessData.role cur = Some r)); [assumption|].
      contradiction. }
    cbn [PreprocessData.finish PreprocessData.role].
    rewrite decide_True in IH |- * by (rewrite Hrole; discriminate).
    destruct (group_of_run_last _ _ _ IH) as (gs' & r' & ls & -> & -> & Hr & Hc).
    rewrite snoc_run_last, decide_True by congruence.
    rewrite !map_app. cbn. unfold group_of_run at 2. cbn [fst snd].
    do 2 f_equal. rewrite Hr, Hc. reflexivity.
Qed.

(** X8: The always-prefix grouper returns the maximal runs of kept utterances
    with the same role, each run as one group holding the lines of its
    utterances in order; the prefix-on-change grouper returns groups of the
    same roles and sizes. *)
Theorem groups_are_runs (self : ConversationConverter) (us : list Utterance) :
  PreprocessData.group_consecutive_utterances self us
  = map group_of_run (group_runs (items self us)) /\
  map (fun g => (PreprocessingData3.role g,
                 length (PreprocessingData3.content g)))
    (PreprocessingData3.group_consecutive_utterances self us)
  = map (fun g => (Some (fst g), length (snd g))) (group_runs (items self us)).
Proof.
  assert (HA : PreprocessData.group_consecutive_utterances self us
               = map group_of_run (group_runs (items self us))).
  { rewrite PreprocessDataFacts.group_unfold. apply finish_runs. }
  split; [exact HA|].
  pose proof (PreprocessingData3Facts.groups_related self us) as Hrel.
  rewrite HA in Hrel. clear HA.
  remember (PreprocessingData3.group_consecutive_utterances self us) as gb.
  clear Heqgb. revert gb Hrel.
  induction (group_runs (items self us)) as [|[r ls] gs IH]; intros gb Hrel.
  - apply Forall2_nil_inv_l in Hrel as ->. reflexivity.
  - apply Forall2_cons_inv_l in Hrel as (b & gb' & Hb & Hrel & ->).
    cbn [map fst snd]. rewrite (IH _ Hrel). f_equal.
    destruct Hb as [Hrole Hlines _]. cbn in Hrole, Hlines.
    rewrite <- Hrole, (Forall2_length _ _ _ Hlines). reflexivity.
Qed.

Lemma on_change_snoc self u : forall us prev,
  on_change_lines self prev (us ++ [u])
  = on_change_lines self prev us
    ++ match classify self (speaker u) with
       | None => []
       | Some (therapist, _) => [text u]
       | Some (client, p) =>
           [if decide (last_partner self prev us = Some p)
            then text u else prefixed p (text u)]
       end.
Proof.
  induction us as [|u0 us IH]; intros prev.
  - cbn. destruct (classify self (speaker u)) as [[[] p]|]; reflexivity.
  - cbn [app on_change_lines last_partner fold_left].
    destruct (classify self (speaker u0)) as [[[] p0]|];
      rewrite IH; reflexivity.
Qed.

Lemma last_partner_snoc self us u prev :
  last_partner self prev (us ++ [u])
  = match classify self (speaker u) with
    | None => last_partner self prev us
    | Some (therapist, _) => None
    | Some (client, p) => Some p
    end.
Proof. unfold last_partner. rewrite fold_left_app. reflexivity. Qed.

(** The loop of preprocessing_data_3.py holds the prefix-on-change lines,
    and its [current_speaker] is the partner of the last kept utterance. *)
Lemma reached_on_change self us :
  PreprocessingData3.lines_of (PreprocessingData3.reached self us)
    = on_change_lines self None us /\
  PreprocessingData3.current_speaker (snd (PreprocessingData3.reached self us))
    = last_partner self None us /\
  (last_partner self None us <> None ->
   PreprocessingData3.role (snd (PreprocessingData3.reached self us))
   = Some client).
Proof.
  induction us as [|u us IH] using rev_ind.
  - cbn. repeat split. congruence.
  - pose proof (PreprocessingData3Facts.reached_fresh self us) as Hfresh.
    rewrite on_change_snoc, last_partner_snoc.
    unfold PreprocessingData3.reached in *. rewrite fold_left_app.
    cbn [fold_left].
    destruct (fold_left (PreprocessingData3.step self) us
                PreprocessingData3.initial) as [grouped cur].
    unfold PreprocessingData3.lines_of in *. cbn [fst snd] in IH, Hfresh.
    destruct IH as (Hl & Hs & Hc). unfold PreprocessingData3.step.
    destruct (classify self (speaker u)) as [[r p]|] eqn:E.
    2:{ rewrite app_nil_r. auto. }
    destruct (decide (PreprocessingData3.role cur ≠ Some r)) as [Hne|Heq].
    + assert (Hlines : forall line,
                concat (map PreprocessingData3.content
                          (if decide (PreprocessingData3.role cur ≠ None)
                           then grouped ++ [cur] else grouped)) ++ [line]
                = on_change_lines self None us ++ [line]).
      { intros line. rewrite <- Hl.
        destruct (decide (PreprocessingData3.role cur ≠ None)) as [H|H].
        - rewrite map_app, concat_app. cbn. rewrite app_nil_r. reflexivity.
        - destruct (PreprocessingData3.role cur);
            [exfalso; apply H; discriminate|].
          destruct (Hfresh eq_refl) as [-> ->]. reflexivity. }
      destruct r.
      * cbn [fst snd PreprocessingData3.role PreprocessingData3.content
             PreprocessingData3.current_speaker app].
        repeat split; [apply Hlines|congruence].
      * rewrite (decide_True (P := None ≠ Some p)) by discriminate.
        cbn [fst snd PreprocessingData3.role PreprocessingData3.content
             PreprocessingData3.current_speaker app].
        repeat split. rewrite Hlines. f_equal.
        rewrite decide_False; [reflexivity|].
        intros Hp. apply Hne, Hc. rewrite Hp. discriminate.
    + assert (Hr : PreprocessingData3.role cur = Some r).
      { destruct (decide (PreprocessingData3.role cur = Some r)); [assumption|].
        contradiction. }
      destruct r.
      * cbn [fst snd PreprocessingData3.role PreprocessingData3.content
             PreprocessingData3.current_speaker].
        rewrite app_assoc, Hl. repeat split; [|congruence].
        rewrite Hs. destruct (last_partner self None us) eqn:El; [|reflexivity].
        rewrite Hc in Hr by discriminate. discriminate.
      * rewrite Hs.
        destruct (decide (last_partner self None us ≠ Some p)) as [Hd|Hd];
          cbn [fst snd PreprocessingData3.role PreprocessingData3.content
               PreprocessingData3.current_speaker];
          rewrite app_assoc, Hl.
        -- rewrite decide_False by exact Hd. repeat split. intros _. exact Hr.
        -- assert (Hp : last_partner self None us = Some p).
           { destruct (decide (last_partner self None us = Some p));
               [assumption|contradiction]. }
           rewrite decide_True by exact Hp. repeat split; [|intros _; exact Hr].
           rewrite <- Hs, Hs. exact Hp.
Qed.

(** X9: The lines of the prefix-on-change grouper, over all groups in order: a
    therapist line is the text; a client line is the text behind
    "[partner]: " unless the kept utterance just before it was a client's
    with the same partner name, in which case it is the bare text.
    Utterances of excluded and unmapped speakers in between do not bring
    the prefix back. *)
Theorem on_change_policy (self : ConversationConverter) (us : list Utterance) :
  concat (map PreprocessingData3.content
            (PreprocessingData3.group_consecutive_utterances self us))
  = on_change_lines self None us.
Proof.
  rewrite PreprocessingData3Facts.group3_unfold.
  fold (PreprocessingData3.reached self us).
  rewrite PreprocessingData3Facts.finish3_lines.
  apply reached_on_change.
Qed.

Lemma concat_length_ge {A} (ls : list (list A)) :
  Forall (fun l => l <> []) ls -> length ls <= length (concat ls).
Proof.
  induction 1 as [|l ls Hl _ IH]; [reflexivity|].
  cbn. rewrite length_app. destruct l; [congruence|]. cbn. lia.
Qed.

(** X10: Neither grouper returns more groups than there are kept utterances, and
    each returns no group at all exactly when every utterance is of an
    excluded or unmapped speaker. *)
Theorem group_count (self : ConversationConverter) (us : list Utterance) :
  length (PreprocessData.group_consecutive_utterances self us)
    <= length (mapped self us) /\
  length (PreprocessingData3.group_consecutive_utterances self us)
    = length (PreprocessData.group_consecutive_utterances self us) /\
  (PreprocessData.group_consecutive_utterances self us = [] <->
     mapped self us = []) /\
  (PreprocessingData3.group_consecutive_utterances self us = [] <->
     mapped self us = []).
Proof.
  destruct (PreprocessDataFacts.group_shape self us) as [Hshape _].
  pose proof (PreprocessDataFacts.group_lines self us) as Hlines.
  pose proof (Forall2_length _ _ _
                (PreprocessingData3Facts.groups_related self us)) as Hlen.
  assert (Hle : length (PreprocessData.group_consecutive_utterances self us)
                <= length (mapped self us)).
  { rewrite <- (length_map (always_prefixed self)), <- Hlines.
    etransitivity; [|apply concat_length_ge].
    - rewrite length_map. reflexivity.
    - apply Forall_map. eapply Forall_impl; [exact Hshape|].
      intros g [_ H]. exact H. }
  assert (HA : PreprocessData.group_consecutive_utterances self us = [] <->
               mapped self us = []).
  { split; intros H.
    - rewrite H in Hlines. cbn in Hlines. symmetry in Hlines.
      apply fmap_nil_inv in Hlines. exact Hlines.
    - rewrite H in Hle. cbn in Hle. apply length_zero_iff_nil. lia. }
  split; [exact Hle|]. split; [symmetry; exact Hlen|]. split; [exact HA|].
  rewrite <- HA, <- !length_zero_iff_nil, Hlen. reflexivity.
Qed.

End GrouperMore.

(** ** The exchange scan and the windows, further *)

Module WindowMore.
Import PreprocessingData3.

Lemma is_exchange_next dp i : is_exchange dp i = true -> is_exchange dp (i + 1) = false.
Proof.
  intros H. apply WindowFacts.is_exchange_true in H as [_ H].
  unfold is_exchange. rewrite H. reflexivity.
Qed.

(** From any index the scan returns the human-then-gpt adjacencies at or
    after that index, provided it does not start in the middle of one. *)
Lemma loop_filter dp : forall n i, length dp - i <= n ->
  valid_pairs_loop dp i []
  = map (fun i => (i, i + 1))
      (filter (fun i => is_exchange dp i = true) (seq i (length dp - 1 - i))).
Proof.
  induction n as [|n IH]; intros i Hn.
  - rewrite WindowFacts.loop_stop by lia.
    replace (length dp - 1 - i) with 0 by lia. reflexivity.
  - destruct (decide (i < length dp - 1)) as [Hi|Hi].
    2:{ rewrite WindowFacts.loop_stop by exact Hi.
        replace (length dp - 1 - i) with 0 by lia. reflexivity. }
    replace (length dp - 1 - i) with (S (length dp - 1 - (i + 1))) by lia.
    cbn [seq]. rewrite filter_cons.
    destruct (is_exchange dp i) eqn:E.
    + rewrite decide_True by reflexivity.
      rewrite WindowFacts.loop_exchange by assumption.
      rewrite (WindowFacts.loop_acc dp n) by lia. cbn [app map]. f_equal.
      rewrite (IH (i + 2)) by lia. f_equal.
      destruct (decide (i + 1 < length dp - 1)) as [Hi'|Hi'].
      * replace (length dp - 1 - (i + 1)) with (S (length dp - 1 - (i + 2))) by lia.
        cbn [seq]. rewrite filter_cons.
        replace (S i) with (i + 1) by lia.
        rewrite (is_exchange_next _ _ E), decide_False by discriminate.
        replace (S (i + 1)) with (i + 2) by lia. reflexivity.
      * replace (length dp - 1 - (i + 1)) with 0 by lia.
        replace (length dp - 1 - (i + 2)) with 0 by lia. reflexivity.
    + rewrite decide_False by discriminate.
      rewrite WindowFacts.loop_other by assumption.
      rewrite (IH (i + 1)) by lia. replace (S i) with (i + 1) by lia.
      reflexivity.
Qed.

(** X11: The scan misses nothing: the pairs it returns are all the positions
    where a human message is directly followed by a gpt message, in
    ascending order, although it moves on by two after each find. *)
Theorem scan_finds_all (dp : list Msg) :
  find_valid_pairs dp
  = map (fun i => (i, i + 1))
      (filter (fun i => is_exchange dp i = true) (seq 0 (length dp - 1))) /\
  (forall h g, (h, g) ∈ find_valid_pairs dp <->
     g = h + 1 /\ from <$> dp !! h = Some human /\
     from <$> dp !! g = Some gpt).
Proof.
  assert (E : find_valid_pairs dp
              = map (fun i => (i, i + 1))
                  (filter (fun i => is_exchange dp i = true)
                     (seq 0 (length dp - 1)))).
  { unfold find_valid_pairs. rewrite (loop_filter dp (length dp) 0) by lia.
    rewrite Nat.sub_0_r. reflexivity. }
  split; [exact E|]. intros h g. rewrite E, list_elem_of_fmap. split.
  - intros (i & [= -> ->] & Hi). apply list_elem_of_filter in Hi as [Hi _].
    apply WindowFacts.is_exchange_true in Hi. tauto.
  - intros (-> & Hh & Hg). exists h. split; [reflexivity|].
    apply list_elem_of_filter. split.
    + apply WindowFacts.is_exchange_true. auto.
    + apply elem_of_seq. destruct (dp !! (h + 1)) eqn:El; [|discriminate].
      apply lookup_lt_Some in El. lia.
Qed.

(** X12: For every window size, also zero or negative, building the windows
    never raises and gives one conversation per pair found; the result is
    empty exactly when no human message is directly followed by a gpt
    message, which includes every input of fewer than two messages. *)
Theorem windows_never_raise (dp : list Msg) (w : Z) :
  (exists cs, create_sliding_window_conversations dp w = Ok cs /\
              length cs = length (find_valid_pairs dp)) /\
  (create_sliding_window_conversations dp w = Ok [] <->
   ~ exists i, from <$> dp !! i = Some human /\
               from <$> dp !! (i + 1) = Some gpt) /\
  (length dp < 2 -> create_sliding_window_conversations dp w = Ok []).
Proof.
  destruct (WindowFacts.find_valid_pairs_sound dp) as [exs Hex].
  pose proof (Forall2_length _ _ _ Hex) as Hlen.
  pose proof (WindowFacts.create_windows dp exs w Hex) as Hc.
  split; [|split].
  - eexists. split; [exact Hc|]. rewrite length_map, length_seq. lia.
  - rewrite Hc. split.
    + intros [= H]. apply fmap_nil_inv in H.
      assert (Hnil : find_valid_pairs dp = []).
      { apply length_zero_iff_nil. rewrite Hlen.
        destruct (length exs); [reflexivity|discriminate]. }
      intros (i & Hh & Hg).
      assert (Hin : (i, i + 1) ∈ find_valid_pairs dp).
      { unfold find_valid_pairs. rewrite (loop_filter dp (length dp) 0) by lia.
        apply list_elem_of_fmap. exists i. split; [reflexivity|].
        apply list_elem_of_filter. split.
        - apply WindowFacts.is_exchange_true. auto.
        - apply elem_of_seq. destruct (dp !! (i + 1)) eqn:El; [|discriminate].
          apply lookup_lt_Some in El. lia. }
      rewrite Hnil in Hin. inversion Hin.
    + intros Hno. destruct exs as [|e exs]; [reflexivity|]. exfalso.
      apply Forall2_cons_inv_r in Hex as (p & vp & (H1 & H2 & H3 & H4 & H5) & _ & _).
      apply Hno. exists (fst p). rewrite H2. rewrite <- H1, H3. cbn.
      split; congruence.
  - intros Hshort. unfold create_sliding_window_conversations.
    rewrite decide_True by exact Hshort. reflexivity.
Qed.

Lemma windows_never_raise_witness :
  create_sliding_window_conversations [Samples.msg human "a"] 5 = Ok [].
Proof.
  refine (proj2 (proj2 (windows_never_raise [Samples.msg human "a"] 5)) _).
  cbn. lia.
Defined.

(** X13: With a window size of zero or less there is still one conversation per
    pair found, but every one of them has no message. *)
Theorem windows_of_no_size (dp : list Msg) (w : Z) :
  (w <= 0)%Z ->
  create_sliding_window_conversations dp w
  = Ok (replicate (length (find_valid_pairs dp)) {| conversations := [] |}).
Proof.
  intros Hw. destruct (WindowFacts.find_valid_pairs_sound dp) as [exs Hex].
  rewrite (WindowFacts.create_windows dp exs w Hex),
    (Forall2_length _ _ _ Hex). f_equal.
  assert (H : forall n s,
            map (fun k => {| conversations :=
                               exchanges_between exs (start_idx k w) k |})
              (seq s n)
            = replicate n {| conversations := [] |}).
  { induction n as [|n IH]; intros s; [reflexivity|].
    cbn [seq map replicate]. rewrite IH. f_equal. f_equal.
    unfold exchanges_between, start_idx.
    replace (s + 1 - Z.to_nat (Z.max 0 (Z.of_nat s - w + 1))) with 0 by lia.
    reflexivity. }
  apply H.
Qed.

Lemma windows_of_no_size_witness :
  create_sliding_window_conversations Samples.six_messages 0
  = Ok (replicate (length (find_valid_pairs Samples.six_messages))
          {| conversations := [] |}).
Proof. apply windows_of_no_size. lia. Defined.

Lemma exchange_roles dp vp exs :
  Forall2 (exchange_at dp) vp exs ->
  Forall (fun e => from (fst e) = human /\ from (snd e) = gpt) exs.
Proof.
  induction 1 as [|p e vp exs (_ & _ & _ & H1 & H2) _ IH]; constructor; auto.
Qed.

Lemma roles_of_exchanges (l : list (Msg * Msg)) :
  Forall (fun e => from (fst e) = human /\ from (snd e) = gpt) l ->
  map from (flat_map (fun e => [fst e; snd e]) l)
  = concat (replicate (length l) [human; gpt]).
Proof.
  induction 1 as [|e l [H1 H2] _ IH]; [reflexivity|].
  cbn. rewrite H1, H2, IH. reflexivity.
Qed.

(** X14: For a window size of at least 1, the conversation of the [k]-th pair
    holds min(windowSize, k+1) exchanges: its messages are human, gpt, human,
    gpt, ..., so it starts with a human message, ends with a gpt message and
    has at most twice the window size messages. *)
Theorem window_shape (dp : list Msg) (w : Z) (cs : list Conversation)
    (k : nat) (c : Conversation) :
  (1 <= w)%Z ->
  create_sliding_window_conversations dp w = Ok cs ->
  cs !! k = Some c ->
  map from (conversations c)
  = concat (replicate (Z.to_nat (Z.min w (Z.of_nat k + 1))) [human; gpt]).
Proof.
  intros Hw Hcs Hk. destruct (WindowFacts.find_valid_pairs_sound dp) as [exs Hex].
  rewrite (WindowFacts.create_windows dp exs w Hex) in Hcs.
  injection Hcs as <-. rewrite list_lookup_fmap in Hk.
  destruct (seq 0 (length exs) !! k) as [k'|] eqn:Ek; [|discriminate].
  apply lookup_seq in Ek as [-> Hlt]. cbn in Hk. injection Hk as <-.
  cbn [conversations]. unfold exchanges_between.
  rewrite roles_of_exchanges.
  - rewrite length_take, length_drop. f_equal. f_equal.
    unfold start_idx. lia.
  - apply Forall_take, Forall_drop. exact (exchange_roles _ _ _ Hex).
Qed.

Lemma window_shape_witness :
  exists cs c,
    create_sliding_window_conversations Samples.six_messages 2 = Ok cs /\
    cs !! 2 = Some c /\
    map from (conversations c) = [human; gpt; human; gpt].
Proof.
  destruct (create_sliding_window_conversations Samples.six_messages 2)
    as [cs|] eqn:E; [|vm_compute in E; discriminate].
  destruct (cs !! 2) as [c|] eqn:Ec.
  - exists cs, c. split; [reflexivity|]. split; [exact Ec|].
    exact (window_shape Samples.six_messages 2 cs 2 c ltac:(lia) E Ec).
  - exfalso. vm_compute in E. injection E as <-. discriminate.
Defined.

Lemma exchanges_between_grow (exs : list (Msg * Msg)) k e :
  exs !! (S k) = Some e ->
  exchanges_between exs 0 (S k) = exchanges_between exs 0 k ++ [fst e; snd e].
Proof.
  intros He. unfold exchanges_between. rewrite !Nat.sub_0_r, !drop_0.
  replace (S k + 1) with (S (k + 1)) by lia.
  replace (k + 1) with (S k) by lia.
  rewrite (take_S_r _ _ _ He), flat_map_app. cbn. reflexivity.
Qed.

Lemma exchanges_between_slide (exs : list (Msg * Msg)) s k e :
  s <= k -> exs !! (S k) = Some e ->
  exchanges_between exs (S s) (S k)
  = drop 2 (exchanges_between exs s k) ++ [fst e; snd e].
Proof.
  intros Hs He. unfold exchanges_between.
  assert (Hlt : s < length exs) by (apply lookup_lt_Some in He; lia).
  destruct (lookup_lt_is_Some_2 exs s Hlt) as [e0 He0].
  rewrite (drop_S _ _ _ He0).
  replace (k + 1 - s) with (S (k - s)) by lia.
  replace (S k + 1 - S s) with (S (k - s)) by lia.
  cbn [take flat_map app drop].
  rewrite (take_S_r _ (k - s) e).
  - rewrite flat_map_app. reflexivity.
  - rewrite lookup_drop. rewrite <- He. f_equal. lia.
Qed.

(** X15: For a window size of at least 1, each conversation is the one before it
    with the next exchange added at the end and, once the window is full,
    its oldest exchange (its first two messages) taken away. *)
Theorem window_slides (dp : list Msg) (w : Z) (cs : list Conversation)
    (k : nat) (c c' : Conversation) :
  (1 <= w)%Z ->
  create_sliding_window_conversations dp w = Ok cs ->
  cs !! k = Some c -> cs !! (S k) = Some c' ->
  exists h g, from h = human /\ from g = gpt /\
    conversations c'
    = (if decide (Z.of_nat k + 1 < w)%Z then conversations c
       else drop 2 (conversations c)) ++ [h; g].
Proof.
  intros Hw Hcs Hk Hk'.
  destruct (WindowFacts.find_valid_pairs_sound dp) as [exs Hex].
  rewrite (WindowFacts.create_windows dp exs w Hex) in Hcs.
  injection Hcs as <-. rewrite list_lookup_fmap in Hk, Hk'.
  destruct (seq 0 (length exs) !! k) as [k0|] eqn:Ek; [|discriminate].
  destruct (seq 0 (length exs) !! S k) as [k1|] eqn:Ek'; [|discriminate].
  apply lookup_seq in Ek as [-> _]. apply lookup_seq in Ek' as [-> Hlt].
  cbn in Hk, Hk'. injection Hk as <-. injection Hk' as <-.
  cbn [conversations].
  destruct (lookup_lt_is_Some_2 exs (S k) Hlt) as [e He].
  pose proof (exchange_roles _ _ _ Hex) as Hroles.
  rewrite Forall_forall in Hroles.
  destruct (Hroles e (list_elem_of_lookup_2 _ _ _ He)) as [H1 H2].
  exists (fst e), (snd e). split; [exact H1|]. split; [exact H2|].
  destruct (decide (Z.of_nat k + 1 < w)%Z) as [Hsmall|Hfull].
  - replace (start_idx (S k) w) with 0 by (unfold start_idx; lia).
    replace (start_idx k w) with 0 by (unfold start_idx; lia).
    apply exchanges_between_grow. exact He.
  - replace (start_idx (S k) w) with (S (start_idx k w))
      by (unfold start_idx; lia).
    apply exchanges_between_slide; [unfold start_idx; lia|exact He].
Qed.

Lemma window_slides_witness :
  exists cs c c',
    create_sliding_window_conversations Samples.six_messages 2 = Ok cs /\
    cs !! 1 = Some c /\ cs !! 2 = Some c' /\
    exists h g, from h = human /\ from g = gpt /\
      conversations c' = drop 2 (conversations c) ++ [h; g].
Proof.
  destruct (create_sliding_window_conversations Samples.six_messages 2)
    as [cs|] eqn:E; [|vm_compute in E; discriminate].
  destruct (cs !! 1) as [c|] eqn:Ec;
    [|exfalso; vm_compute in E; injection E as <-; discriminate].
  destruct (cs !! 2) as [c'|] eqn:Ec';
    [|exfalso; vm_compute in E; injection E as <-; discriminate].
  exists cs, c, c'. split; [reflexivity|]. split; [exact Ec|]. split; [exact Ec'|].
  exact (window_slides Samples.six_messages 2 cs 1 c c' ltac:(lia) E Ec Ec').
Defined.

Lemma alternates_lookup {A} (l : list A) : forall i x y,
  alternates l -> l !! i = Some x -> l !! S i = Some y -> x <> y.
Proof.
  induction l as [|a [|b l] IH]; intros i x y Hl Hx Hy.
  - rewrite lookup_nil in Hx. discriminate.
  - destruct i as [|i]; cbn in Hy; discriminate.
  - destruct Hl as [Hab Hl]. destruct i as [|i].
    + cbn in Hx, Hy. congruence.
    + apply (IH i x y Hl); assumption.
Qed.

(** On messages that alternate between the two roles, the scan started on a
    human message (or past the end) pairs up everything from there on. *)
Lemma loop_alternating dp : alternates (map from dp) ->
  forall n i, length dp - i <= n ->
  (forall m, dp !! i = Some m -> from m = human) ->
  valid_pairs_loop dp i []
  = map (fun j => (i + 2 * j, i + 2 * j + 1)) (seq 0 ((length dp - i) / 2)).
Proof.
  intros Halt. induction n as [|n IH]; intros i Hn Hi.
  - rewrite WindowFacts.loop_stop by lia.
    replace (length dp - i) with 0 by lia. reflexivity.
  - destruct (decide (i < length dp - 1)) as [Hlt|Hge].
    2:{ rewrite WindowFacts.loop_stop by exact Hge.
        assert (Hsmall : length dp - i < 2) by lia.
        rewrite (Nat.div_small _ 2 Hsmall). reflexivity. }
    destruct (lookup_lt_is_Some_2 dp i ltac:(lia)) as [m Hm].
    destruct (lookup_lt_is_Some_2 dp (S i) ltac:(lia)) as [m' Hm'].
    pose proof (Hi m Hm) as Hh.
    assert (Hg : from m' = gpt).
    { pose proof (alternates_lookup (map from dp) i (from m) (from m') Halt) as H.
      rewrite !list_lookup_fmap, Hm, Hm' in H. specialize (H eq_refl eq_refl).
      destruct (from m'); [congruence|reflexivity]. }
    rewrite WindowFacts.loop_exchange;
      [|exact Hlt|apply WindowFacts.is_exchange_true;
                  replace (i + 1) with (S i) by lia;
                  rewrite Hm, Hm'; cbn; split; congruence].
    rewrite (WindowFacts.loop_acc dp n) by lia. cbn [app].
    assert (Hnext : forall m2, dp !! (i + 2) = Some m2 -> from m2 = human).
    { intros m2 Hm2.
      pose proof (alternates_lookup (map from dp) (S i) (from m') (from m2) Halt)
        as H.
      rewrite !list_lookup_fmap, Hm' in H.
      replace (S (S i)) with (i + 2) in H by lia. rewrite Hm2 in H.
      specialize (H eq_refl eq_refl).
      destruct (from m2); [reflexivity|congruence]. }
    rewrite (IH (i + 2) ltac:(lia) Hnext).
    replace (length dp - i) with (length dp - (i + 2) + 1 * 2) by lia.
    rewrite Nat.div_add by lia.
    replace ((length dp - (i + 2)) / 2 + 1) with (S ((length dp - (i + 2)) / 2))
      by lia.
    cbn [seq map]. f_equal; [f_equal; lia|].
    rewrite <- fmap_S_seq, <- list_fmap_compose.
    apply map_ext. intros j. cbn. f_equal; lia.
Qed.

(** X16: In the conversion of preprocessing_data_3.py the messages come from the
    groups, which alternate in role; on them the scan pairs up all messages
    in order and leaves out only a leading gpt (therapist) message and a
    trailing human (client) message, so the number of conversations is half
    the number of the remaining messages, for every window size. *)
Theorem pipeline_exchanges (self : ConversationConverter) (us : list Utterance)
    (w : Z) :
  let dp := create_dialogue_pairs (group_consecutive_utterances self us) in
  let lead := match dp with
              | m :: _ => if decide (from m = gpt) then 1 else 0
              | [] => 0
              end in
  find_valid_pairs dp
  = map (fun j => (lead + 2 * j, lead + 2 * j + 1))
      (seq 0 ((length dp - lead) / 2)) /\
  exists cs, create_sliding_window_conversations dp w = Ok cs /\
             length cs = (length dp - lead) / 2.
Proof.
  intros dp lead.
  assert (Halt : alternates (map from dp)).
  { destruct (PreprocessDataFacts.group_shape self us) as [HcA HrA].
    pose proof (PreprocessingData3Facts.groups_related self us) as Hrel.
    unfold dp. rewrite PreprocessingData3Facts.from_dialogue_pairs,
      <- (PreprocessingData3Facts.related_roles _ _ Hrel).
    apply GrouperFacts.alternates_from; [|exact HrA].
    apply Forall_map. eapply Forall_impl; [exact HcA|]. intros g [H _]. exact H. }
  assert (E : find_valid_pairs dp
              = map (fun j => (lead + 2 * j, lead + 2 * j + 1))
                  (seq 0 ((length dp - lead) / 2))).
  { unfold find_valid_pairs, lead. clearbody dp. clear lead.
    destruct dp as [|m dp']; [reflexivity|].
    destruct (decide (from m = gpt)) as [Hg|Hh].
    - destruct (decide (0 < length (m :: dp') - 1)) as [Hlt|Hge].
      + rewrite WindowFacts.loop_other;
          [|exact Hlt|unfold is_exchange; cbn; rewrite Hg; reflexivity].
        apply (loop_alternating _ Halt (length (m :: dp'))); [lia|].
        intros m2 Hm2.
        pose proof (alternates_lookup (map from (m :: dp')) 0 (from m) (from m2)
                      Halt) as H.
        rewrite !list_lookup_fmap in H. cbn in H, Hm2. rewrite Hm2 in H.
        specialize (H eq_refl eq_refl). destruct (from m2); [reflexivity|congruence].
      + rewrite WindowFacts.loop_stop by exact Hge.
        assert (Hsmall : length (m :: dp') - 1 < 2) by lia.
        rewrite (Nat.div_small _ 2 Hsmall). reflexivity.
    - apply (loop_alternating _ Halt (length (m :: dp'))); [lia|].
      intros m2 [= <-]. destruct (from m); [reflexivity|congruence]. }
  split; [exact E|].
  destruct (WindowFacts.find_valid_pairs_sound dp) as [exs Hex].
  eexists. split; [exact (WindowFacts.create_windows dp exs w Hex)|].
  rewrite length_map, length_seq, <- (Forall2_length _ _ _ Hex), E.
  rewrite length_map, length_seq. reflexivity.
Qed.

End WindowMore.

(** ** parse_conversation_file *)

Module ParseMore.

Lemma findall_cons c s :
  findall (String c s)
  = match match_here (String c s) with
    | Some (label, t, rest) => (label, t) :: findall rest
    | None => findall s
    end.
Proof.
  rewrite findall_equation_2. generalize (with_eq (match_here (String c s))).
  intros [[[[l t] r]|] E]; cbn; rewrite E; reflexivity.
Qed.

Lemma drop_prefix_app p : forall x y,
  drop_prefix p x = Some y -> x = p +:+ y.
Proof.
  induction p as [|a p IH]; intros x y H; cbn in H.
  - injection H as ->. reflexivity.
  - destruct x as [|b x]; [discriminate|].
    destruct (Ascii.eqb_spec a b) as [->|]; [|discriminate].
    rewrite (IH _ _ H). reflexivity.
Qed.

Lemma span_digits_app x : forall d r,
  span_digits x = (d, r) -> x = d +:+ r /\ all_digits d = true.
Proof.
  induction x as [|a x IH]; intros d r H; cbn in H.
  - injection H as <- <-. auto.
  - destruct (is_digit a) eqn:Ea.
    + destruct (span_digits x) as [d' r'] eqn:Ex. injection H as <- <-.
      destruct (IH _ _ eq_refl) as [-> Hd]. split; [reflexivity|].
      cbn. rewrite Ea, Hd. reflexivity.
    + injection H as <- <-. auto.
Qed.

Lemma match_label_head s l r :
  match_label s = Some (l, r) -> exists x, s = String "S" x.
Proof.
  unfold match_label. intros H.
  destruct (drop_prefix "Speaker " s) as [y|] eqn:E; [|discriminate].
  apply drop_prefix_app in E. rewrite E. eexists. reflexivity.
Qed.

Lemma append_assoc_string (a b c : string) : (a +:+ b) +:+ c = a +:+ (b +:+ c).
Proof.
  induction a as [|x a IH]; [reflexivity|].
  change (String x ((a +:+ b) +:+ c) = String x (a +:+ (b +:+ c))).
  rewrite IH. reflexivity.
Qed.

Lemma length_append (a b : string) :
  String.length (a +:+ b) = String.length a + String.length b.
Proof.
  induction a as [|c a IH]; [reflexivity|].
  change (S (String.length (a +:+ b)) = S (String.length a + String.length b)).
  rewrite IH. reflexivity.
Qed.

Lemma match_label_inv s l r :
  match_label s = Some (l, r) ->
  exists ds, l = "Speaker " +:+ ds /\ ds <> "" /\ all_digits ds = true /\
             s = l +:+ ":" +:+ r.
Proof.
  unfold match_label. intros H.
  destruct (drop_prefix "Speaker " s) as [r0|] eqn:Ed; [|discriminate].
  apply drop_prefix_app in Ed.
  destruct (span_digits r0) as [d r1] eqn:Es. apply span_digits_app in Es as [-> Hd].
  destruct d as [|d0 ds]; [discriminate|]. destruct r1 as [|c1 r1]; [discriminate|].
  destruct (Ascii.eqb_spec c1 ":") as [->|]; [|discriminate].
  injection H as Hl Hr. subst l r. exists (String d0 ds).
  split; [reflexivity|]. split; [discriminate|]. split; [exact Hd|].
  rewrite Ed. symmetry.
  apply (append_assoc_string "Speaker " (String d0 ds) (String ":" r1)).
Qed.

Lemma lstrip_length x : String.length (lstrip x) <= String.length x.
Proof.
  induction x as [|a x IH]; cbn; [lia|]. destruct (is_space a); cbn; lia.
Qed.

Lemma lazy_text_length x : forall t r,
  lazy_text x = (t, r) -> String.length r <= String.length x.
Proof.
  induction x as [|a x IH]; intros t r H; cbn in H.
  - destruct (lookahead ""); injection H as _ <-; cbn; lia.
  - destruct (lookahead (String a x)).
    + injection H as _ <-. cbn. lia.
    + destruct (lazy_text x) as [t' r'] eqn:Ex. injection H as _ <-.
      cbn. specialize (IH _ _ eq_refl). lia.
Qed.

Lemma match_here_inv s l t rest :
  match_here s = Some (l, t, rest) ->
  String.length rest < String.length s /\
  exists r, match_label s = Some (l, r) /\ lazy_text (lstrip r) = (t, rest).
Proof.
  unfold match_here. intros H.
  destruct (match_label s) as [[l0 r]|] eqn:E; [|discriminate].
  destruct (lazy_text (lstrip r)) as [t0 rest0] eqn:El.
  injection H as -> -> ->. split; [|eauto].
  apply match_label_inv in E as (ds & -> & _ & _ & ->).
  apply lazy_text_length in El. pose proof (lstrip_length r).
  rewrite !length_append. cbn. lia.
Qed.

(** Every first group that [findall] returns is a label. *)
Lemma findall_labels : forall n s, String.length s <= n ->
  forall l t, (l, t) ∈ findall s ->
  exists ds, l = "Speaker " +:+ ds /\ ds <> "" /\ all_digits ds = true.
Proof.
  induction n as [|n IH]; intros s Hn l t Hin.
  - destruct s; [|cbn in Hn; lia]. rewrite findall_equation_1 in Hin.
    inversion Hin.
  - destruct s as [|c s]; [rewrite findall_equation_1 in Hin; inversion Hin|].
    rewrite findall_cons in Hin.
    destruct (match_here (String c s)) as [[[l0 t0] rest]|] eqn:E.
    + apply match_here_inv in E as (Hlen & r & Hl & _).
      apply elem_of_cons in Hin as [[= -> ->]|Hin].
      * apply match_label_inv in Hl as (ds & H1 & H2 & H3 & _). eauto.
      * apply (IH rest ltac:(lia) l t Hin).
    + apply (IH s ltac:(cbn in Hn; lia) l t Hin).
Qed.

Lemma rstrip_cons c x :
  rstrip (String c x)
  = match rstrip x with
    | EmptyString => if is_space c then EmptyString else String c EmptyString
    | r => String c r
    end.
Proof. reflexivity. Qed.

Lemma rstrip_idem s : rstrip (rstrip s) = rstrip s.
Proof.
  induction s as [|c s IH]; [reflexivity|]. rewrite rstrip_cons.
  destruct (rstrip s) as [|c' r] eqn:E.
  - destruct (is_space c) eqn:Ec; [reflexivity|].
    rewrite rstrip_cons. cbn. rewrite Ec. reflexivity.
  - rewrite rstrip_cons, IH. reflexivity.
Qed.

Lemma lstrip_head s :
  lstrip s = "" \/ exists c r, lstrip s = String c r /\ is_space c = false.
Proof.
  induction s as [|c s IH]; [left; reflexivity|]. cbn.
  destruct (is_space c) eqn:E; [exact IH|]. right. eauto.
Qed.

Lemma lstrip_fixed c r : is_space c = false -> lstrip (String c r) = String c r.
Proof. intros H. cbn. rewrite H. reflexivity. Qed.

Lemma rstrip_head c r :
  is_space c = false -> exists r', rstrip (String c r) = String c r'.
Proof.
  intros H. rewrite rstrip_cons. destruct (rstrip r); [rewrite H|]; eauto.
Qed.

Lemma strip_idem s : strip (strip s) = strip s.
Proof.
  unfold strip. destruct (lstrip_head s) as [->|(c & r & -> & Hc)]; [reflexivity|].
  destruct (rstrip_head c r Hc) as [r' E]. rewrite E, (lstrip_fixed _ _ Hc), <- E.
  apply rstrip_idem.
Qed.

(** X17: What the parser returns: every utterance has a speaker of the form
    "Speaker <digits>" and a text that is not empty and has no white space at
    either end.  In particular no utterance has the speaker "Speaker Unknown"
    that data.py writes when there is no speaker segment. *)
Theorem parsed_utterances (content : string) (u : Utterance) :
  u ∈ parse_conversation_file content ->
  (exists ds, speaker u = "Speaker " +:+ ds /\ ds <> "" /\
              all_digits ds = true) /\
  text u <> "" /\ strip (text u) = text u /\
  speaker u <> "Speaker Unknown".
Proof.
  unfold parse_conversation_file. intros Hin.
  apply list_elem_of_omap in Hin as ([l t] & Hin & Hu). cbn [fst snd] in Hu.
  destruct (decide (strip t = "")) as [|Hne]; [discriminate|].
  injection Hu as <-. cbn [speaker text].
  destruct (findall_labels _ _ (le_n _) l t Hin) as (ds & -> & Hds & Hd).
  split; [eauto|]. split; [exact Hne|]. split; [apply strip_idem|].
  destruct ds as [|d ds]; [congruence|]. cbn in Hd.
  apply andb_true_iff in Hd as [Hd _]. intros [= -> _]. discriminate.
Qed.

Lemma parsed_utterances_witness :
  text (Samples.utt "Speaker 7" "hi") <> "".
Proof.
  assert (H : Samples.utt "Speaker 7" "hi"
              ∈ parse_conversation_file "Speaker 7:  hi ")
    by (vm_compute; left).
  exact (proj1 (proj2 (parsed_utterances _ _ H))).
Defined.

Lemma findall_match s l t rest :
  match_here s = Some (l, t, rest) -> findall s = (l, t) :: findall rest.
Proof.
  intros H. destruct s as [|c s]; [discriminate|].
  rewrite findall_cons, H. reflexivity.
Qed.

(** *** Reading back what data.py wrote *)

Section ReadBack.

#[local] Arguments String.append !_ _ /.

Let c10 : ascii := ascii_of_nat 10.

Lemma drop_prefix_self p x : drop_prefix p (p +:+ x) = Some x.
Proof.
  induction p as [|a p IH]; cbn; [reflexivity|].
  rewrite Ascii.eqb_refl. exact IH.
Qed.

Lemma span_digits_tag tag y :
  all_digits tag = true ->
  span_digits (tag +:+ String ":" y) = (tag, String ":" y).
Proof.
  induction tag as [|a tag IH]; cbn; intros H; [reflexivity|].
  apply andb_true_iff in H as [Ha Ht]. rewrite Ha, (IH Ht). reflexivity.
Qed.

Lemma match_label_written tag y :
  all_digits tag = true -> tag <> "" ->
  match_label ("Speaker " +:+ tag +:+ String ":" y)
  = Some ("Speaker " +:+ tag, y).
Proof.
  intros Hd Hne. unfold match_label.
  rewrite drop_prefix_self, (span_digits_tag _ _ Hd).
  destruct tag; [congruence|]. reflexivity.
Qed.

Lemma drop_prefix_nl p : forall b R y,
  (forall a, In a (list_ascii_of_string p) -> a <> c10) ->
  drop_prefix p (b +:+ String c10 R) = Some y ->
  exists b', drop_prefix p b = Some b' /\ y = b' +:+ String c10 R.
Proof.
  induction p as [|a p IH]; intros b R y Hp H; cbn in H.
  - injection H as <-. exists b. split; reflexivity.
  - destruct b as [|b0 b]; cbn in H |- *.
    + destruct (Ascii.eqb_spec a c10) as [->|]; [|discriminate].
      exfalso. apply (Hp c10); [left|]; reflexivity.
    + destruct (Ascii.eqb a b0); [|discriminate].
      apply IH; [|exact H]. intros x Hx. apply Hp. right. exact Hx.
Qed.

Lemma span_digits_nl b R :
  span_digits (b +:+ String c10 R)
  = (fst (span_digits b), snd (span_digits b) +:+ String c10 R).
Proof.
  induction b as [|a b IH]; cbn; [reflexivity|].
  destruct (is_digit a); [|reflexivity].
  rewrite IH. destruct (span_digits b). reflexivity.
Qed.

Lemma match_label_nl b R :
  match_label b = None -> match_label (b +:+ String c10 R) = None.
Proof.
  unfold match_label. intros H.
  destruct (drop_prefix "Speaker " (b +:+ String c10 R)) as [y|] eqn:E;
    [|reflexivity].
  apply drop_prefix_nl in E as (b' & Eb & ->).
  2:{ intros a Ha. cbn in Ha. intros ->.
      repeat (destruct Ha as [Ha|Ha]; [discriminate|]). exact Ha. }
  rewrite Eb in H. rewrite span_digits_nl.
  destruct (span_digits b') as [d r]. cbn [fst snd].
  destruct d as [|d0 ds]; [reflexivity|].
  destruct r as [|c r]; [reflexivity|]. cbn.
  destruct (Ascii.eqb c ":"); [discriminate|reflexivity].
Qed.

Lemma has_label_cons c b :
  has_label (String c b) = false ->
  match_label (String c b) = None /\ has_label b = false.
Proof.
  cbn [has_label]. destruct (match_label (String c b)); [discriminate|auto].
Qed.

Lemma lookahead_inside c b R :
  match_label (String c b) = None ->
  lookahead (String c b +:+ String c10 R) = false.
Proof.
  intros H. unfold lookahead. rewrite (match_label_nl _ R H).
  cbn. destruct b; reflexivity.
Qed.

Lemma follows_lookahead R : follows R -> lookahead R = true.
Proof.
  intros [->|(l & r & H)]; [reflexivity|]. unfold lookahead. rewrite H.
  reflexivity.
Qed.

Lemma follows_lstrip R : follows R -> lstrip R = R.
Proof.
  intros [->|(l & r & H)]; [reflexivity|].
  apply match_label_head in H as (x & ->). reflexivity.
Qed.

Lemma lazy_text_line b R :
  follows R -> has_label b = false ->
  lazy_text (b +:+ String c10 R)
  = match R with
    | EmptyString => (b, String c10 EmptyString)
    | _ => (b +:+ String c10 EmptyString, R)
    end.
Proof.
  intros HR. induction b as [|c b IH]; intros Hb.
  - cbn [String.append]. destruct R as [|c R].
    + reflexivity.
    + assert (E : lazy_text (String c10 (String c R))
                  = let '(t, r) := lazy_text (String c R) in (String c10 t, r))
        by reflexivity.
      rewrite E. clear E.
      assert (E : lazy_text (String c R) = ("", String c R)).
      { pose proof (follows_lookahead _ HR) as Hl.
        change (lazy_text (String c R))
          with (if lookahead (String c R) then ("", String c R)
                else let '(t, r) := lazy_text R in (String c t, r)).
        rewrite Hl. reflexivity. }
      rewrite E. reflexivity.
  - apply has_label_cons in Hb as [Hm Hb].
    change (lazy_text (String c b +:+ String c10 R))
      with (if lookahead (String c b +:+ String c10 R)
            then ("", String c b +:+ String c10 R)
            else let '(t, r) := lazy_text (b +:+ String c10 R) in (String c t, r)).
    rewrite (lookahead_inside _ _ _ Hm), (IH Hb). destruct R; reflexivity.
Qed.

Lemma lstrip_app a x :
  lstrip (a +:+ x) = match lstrip a with
                     | EmptyString => lstrip x
                     | y => y +:+ x
                     end.
Proof.
  induction a as [|c a IH]; cbn; [destruct (lstrip x); reflexivity|].
  destruct (is_space c); [exact IH|reflexivity].
Qed.

Lemma lstrip_idem s : lstrip (lstrip s) = lstrip s.
Proof.
  destruct (lstrip_head s) as [->|(c & r & -> & Hc)]; [reflexivity|].
  apply lstrip_fixed. exact Hc.
Qed.

Lemma has_label_lstrip s : has_label s = false -> has_label (lstrip s) = false.
Proof.
  induction s as [|c s IH]; [auto|]. intros H. cbn [lstrip].
  destruct (is_space c); [|exact H].
  apply has_label_cons in H as [_ H]. auto.
Qed.

Lemma rstrip_space x c :
  is_space c = true -> rstrip (x +:+ String c "") = rstrip x.
Proof.
  intros Hc. induction x as [|a x IH].
  - cbn. rewrite Hc. reflexivity.
  - cbn [String.append]. rewrite !rstrip_cons, IH. reflexivity.
Qed.

Lemma strip_line_text text :
  lstrip text <> "" ->
  strip (lstrip text) = strip text /\
  strip (lstrip text +:+ String c10 "") = strip text.
Proof.
  intros Hne. unfold strip. rewrite lstrip_idem. split; [reflexivity|].
  destruct (lstrip_head text) as [E|(c & r & E & Hc)]; [congruence|].
  rewrite E. cbn [String.append]. rewrite (lstrip_fixed _ _ Hc).
  change (String c (r +:+ String c10 "")) with (String c r +:+ String c10 "").
  apply rstrip_space. reflexivity.
Qed.

Lemma findall_nl : findall (String c10 "") = [].
Proof. rewrite findall_cons. reflexivity. Qed.

(** One written line at the head of the content is one match; its text
    strips to the stripped text of the line, and the search goes on with
    the lines after it. *)
Lemma findall_line tag text R :
  all_digits tag = true -> tag <> "" -> has_label text = false -> follows R ->
  exists T, strip T = strip text /\
    findall (written_line (tag, text) +:+ R)
    = ("Speaker " +:+ tag, T) :: findall R.
Proof.
  intros Hd Hne Hl HR.
  assert (Eline : written_line (tag, text) +:+ R
                  = "Speaker " +:+ tag
                    +:+ String ":" (String " " (text +:+ String c10 R))).
  { unfold written_line, newline. cbn [fst snd].
    rewrite !append_assoc_string. reflexivity. }
  assert (Ehere : exists T rest, strip T = strip text /\
            findall rest = findall R /\
            match_here (written_line (tag, text) +:+ R)
            = Some ("Speaker " +:+ tag, T, rest)).
  { rewrite Eline. unfold match_here.
    rewrite (match_label_written _ _ Hd Hne).
    change (lstrip (String " " (text +:+ String c10 R)))
      with (lstrip (text +:+ String c10 R)).
    rewrite lstrip_app. destruct (lstrip text) as [|c0 r0] eqn:Et.
    - change (lstrip (String c10 R)) with (lstrip R).
      rewrite (follows_lstrip _ HR).
      assert (El : lazy_text R = ("", R)).
      { pose proof (follows_lookahead _ HR) as Hla.
        destruct R as [|c R]; [reflexivity|].
        change (lazy_text (String c R))
          with (if lookahead (String c R) then ("", String c R)
                else let '(t, r) := lazy_text R in (String c t, r)).
        rewrite Hla. reflexivity. }
      rewrite El. exists "", R. split; [|split; reflexivity].
      unfold strip. rewrite Et. reflexivity.
    - assert (Hb : has_label (String c0 r0) = false)
        by (rewrite <- Et; apply has_label_lstrip; exact Hl).
      rewrite (lazy_text_line _ _ HR Hb).
      assert (Hne' : lstrip text <> "") by (rewrite Et; discriminate).
      destruct (strip_line_text text Hne') as [S1 S2]. rewrite Et in S1, S2.
      destruct R as [|c R].
      + exists (String c0 r0), (String c10 ""). split; [exact S1|].
        split; [|reflexivity]. rewrite findall_nl, findall_equation_1.
        reflexivity.
      + exists (String c0 r0 +:+ String c10 ""), (String c R).
        split; [exact S2|]. split; reflexivity. }
  destruct Ehere as (T & rest & HT & Hrest & Hm).
  exists T. split; [exact HT|]. rewrite <- Hrest.
  apply findall_match. exact Hm.
Qed.

Lemma written_follows items :
  Forall (fun item => all_digits (fst item) = true /\ fst item <> "") items ->
  follows (written items).
Proof.
  destruct 1 as [|[tag text] items [Hd Hne] _]; [left; reflexivity|].
  right. cbn [written fst] in *. unfold written_line. cbn [fst snd].
  exists ("Speaker " +:+ tag), (" " +:+ text +:+ newline +:+ written items).
  rewrite <- (match_label_written _ _ Hd Hne). f_equal.
  rewrite !append_assoc_string. reflexivity.
Qed.

End ReadBack.


Lemma omap_cons {A B} (f : A -> option B) x l :
  omap f (x :: l) = match f x with
                    | Some y => y :: omap f l
                    | None => omap f l
                    end.
Proof. reflexivity. Qed.

Lemma findall_written (items : list (string * string)) :
  Forall (fun item => all_digits (fst item) = true /\ fst item <> "" /\
                      has_label (snd item) = false) items ->
  omap (fun m => let text := strip (snd m) in
                 if decide (text = EmptyString) then None
                 else Some {| speaker := fst m; text := text |})
    (findall (written items))
  = omap read_back items.
Proof.
  induction 1 as [|[tag text] items H Hall IH].
  - cbn [written]. rewrite findall_equation_1. reflexivity.
  - destruct H as (Hd & Hne & Hl). cbn [fst snd] in *.
    assert (HR : follows (written items)).
    { apply written_follows. eapply Forall_impl; [exact Hall|].
      intros item (H1 & H2 & _). auto. }
    destruct (findall_line tag text (written items) Hd Hne Hl HR)
      as (T & HT & E).
    cbn [written]. rewrite E, !omap_cons, IH. unfold read_back at 1 3.
    cbn [fst snd]. rewrite HT.
    destruct (decide (strip text = "")); reflexivity.
Qed.

Lemma no_cr_app (a b : string) : no_cr (a +:+ b) = no_cr a && no_cr b.
Proof.
  induction a as [|c a IH]; [reflexivity|].
  change (String c a +:+ b) with (String c (a +:+ b)). cbn [no_cr].
  rewrite IH, andb_assoc. reflexivity.
Qed.

Lemma universal_newlines_id (s : string) :
  no_cr s = true -> universal_newlines s = s.
Proof.
  induction s as [|c s IH]; [reflexivity|]. cbn [no_cr universal_newlines].
  intros H. apply andb_true_iff in H as [Hc Hs].
  destruct (Ascii.eqb c (ascii_of_nat 13)); [discriminate|].
  rewrite IH by exact Hs. reflexivity.
Qed.

Lemma all_digits_no_cr (s : string) : all_digits s = true -> no_cr s = true.
Proof.
  induction s as [|c s IH]; [reflexivity|]. cbn [all_digits no_cr].
  intros H. apply andb_true_iff in H as [Hc Hs]. rewrite IH by exact Hs.
  destruct (Ascii.eqb_spec c (ascii_of_nat 13)) as [->|]; [discriminate|reflexivity].
Qed.

Lemma written_no_cr (items : list (string * string)) :
  Forall (fun item => all_digits (fst item) = true /\
                      no_cr (snd item) = true) items ->
  no_cr (written items) = true.
Proof.
  induction 1 as [|[tag text] items [Hd Hn] _ IH]; [reflexivity|].
  cbn [written fst snd] in *. unfold written_line. cbn [fst snd].
  rewrite !no_cr_app, IH, Hn, (all_digits_no_cr _ Hd). reflexivity.
Qed.

Lemma parse_written (items : list (string * string)) :
  Forall (fun item => all_digits (fst item) = true /\ fst item <> "" /\
                      has_label (snd item) = false /\
                      no_cr (snd item) = true) items ->
  parse_conversation_file (written items) = omap read_back items.
Proof.
  intros H. unfold parse_conversation_file. cbn zeta.
  rewrite universal_newlines_id.
  - apply findall_written. eapply Forall_impl; [exact H|].
    intros item (H1 & H2 & H3 & _). auto.
  - apply written_no_cr. eapply Forall_impl; [exact H|].
    intros item (H1 & _ & _ & H4). auto.
Qed.

(** X18: The converters read back what data.py wrote.  For a file of lines
    "Speaker <tag>: <text>" whose tags are runs of digits and whose texts
    contain no "Speaker <digits>:" and no carriage return (which reading
    would turn into a line feed), parsing returns, in order, one utterance
    per line whose text is not blank, with the speaker "Speaker <tag>" and
    the text trimmed; lines with blank text are left out.  Text is text of
    code points below 256. *)
Theorem parse_reads_back (items : list (string * string)) :
  Forall (fun item => all_digits (fst item) = true /\ fst item <> "" /\
                      has_label (snd item) = false /\
                      no_cr (snd item) = true) items ->
  parse_conversation_file (written items) = omap read_back items.
Proof.
  intros H. unfold parse_conversation_file. cbn zeta.
  rewrite universal_newlines_id.
  - apply findall_written. eapply Forall_impl; [exact H|].
    intros item (H1 & H2 & H3 & _). auto.
  - apply written_no_cr. eapply Forall_impl; [exact H|].
    intros item (H1 & _ & _ & H4). auto.
Qed.

Lemma parse_reads_back_witness :
  parse_conversation_file (written [("7", " hi "); ("12", "  ")])
  = omap read_back [("7", " hi "); ("12", "  ")].
Proof.
  apply parse_reads_back. repeat constructor; discriminate.
Defined.

End ParseMore.

(** ** data.py on binary64: labels and errors *)

Module Data64More.
Import Binary64 Binary64Facts Data64.

Lemma best_loop_member t ss : forall m b m' s,
  best_loop t ss m b = Ok (m', Some s) -> b = Some s \/ s ∈ ss.
Proof.
  induction ss as [|s0 ss IH]; intros m b m' s H.
  - cbn in H. injection H as _ ->. left. reflexivity.
  - cbn [best_loop] in H. destruct (segment_score t s0) as [sc|e]; [|discriminate].
    cbn [bind] in H. destruct (ltb m sc).
    + apply IH in H as [[= ->]|H]; right; [left|right; exact H].
    + apply IH in H as [H|H]; [left; exact H|right; right; exact H].
Qed.

Lemma closest_loop_member t ss : forall m c s,
  closest_loop t ss m c = Some s -> c = Some s \/ s ∈ ss.
Proof.
  induction ss as [|s0 ss IH]; intros m c s H.
  - left. exact H.
  - cbn [closest_loop] in H. destruct (ltb (mid_distance t s0) m).
    + apply IH in H as [[= ->]|H]; right; [left|right; exact H].
    + apply IH in H as [H|H]; [left; exact H|right; right; exact H].
Qed.

Lemma best_loop_raise t ss m b e :
  best_loop t ss m b = Raise e ->
  e = ZeroDivisionError /\ eqb (duration t) zero = true /\ ss <> [].
Proof.
  intros H. destruct (eqb (duration t) zero) eqn:Ez.
  - destruct ss as [|s0 ss]; [discriminate|].
    cbn [best_loop] in H. rewrite (Data64Facts.segment_score_raise t s0 Ez) in H.
    injection H as <-. auto.
  - destruct (Data64Facts.score_loop_spec t Ez ss m b) as (m' & b' & Hr & _).
    congruence.
Qed.

Lemma speaker_label_cases t ss l :
  speaker_label t ss = Ok l ->
  l = "Speaker Unknown" \/ exists s, s ∈ ss /\ l = label_of s.
Proof.
  unfold speaker_label, best_s_segment. intros H.
  destruct (best_loop t ss zero None) as [[m b]|e] eqn:E; [|discriminate].
  cbn [bind snd] in H. destruct b as [s|].
  - injection H as <-. right. exists s. split; [|reflexivity].
    apply best_loop_member in E as [E|E]; [discriminate|exact E].
  - injection H as <-. unfold fallback_label.
    destruct (closest_segment t ss) as [s|] eqn:Ec; [|left; reflexivity].
    right. exists s. split; [|reflexivity].
    apply closest_loop_member in Ec as [Ec|Ec]; [discriminate|exact Ec].
Qed.

(** X2: The label chosen for a transcript segment with binary64 time stamps.
    The only error is ZeroDivisionError, raised exactly when the end of the
    segment equals its start, both finite, and there is a speaker segment;
    a label is "Speaker Unknown" or "Speaker <tag>" for the tag of one of
    the speaker segments, and it is "Speaker Unknown" whenever no score is
    above 0 and no midpoint distance is below infinity, as when there is no
    speaker segment. *)
Theorem speaker_label_outcome (t : TranscriptSegment) (ss : list SpeakerSegment) :
  valid_segment t ->
  (speaker_label t ss = Raise ZeroDivisionError <->
     eqb (t_end t) (t_start t) = true /\ is_finite (t_end t) = true /\ ss <> []) /\
  (forall e, speaker_label t ss = Raise e -> e = ZeroDivisionError) /\
  (forall l, speaker_label t ss = Ok l ->
     l = "Speaker Unknown" \/ exists s, s ∈ ss /\ l = label_of s) /\
  (eqb (duration t) zero = false ->
   (forall s, s ∈ ss -> ltb zero (score t s) = false) ->
   (forall s, s ∈ ss -> ltb (mid_distance t s) inf = false) ->
   speaker_label t ss = Ok "Speaker Unknown").
Proof.
  intros [Vs Ve].
  pose proof (sub_zero_iff (t_end t) (t_start t) Ve Vs) as Hz.
  fold (duration t) in Hz.
  split; [|split; [|split; [apply speaker_label_cases|]]].
  - split.
    + unfold speaker_label, best_s_segment. intros H.
      destruct (best_loop t ss zero None) as [[m b]|e] eqn:E.
      * cbn [bind snd] in H. destruct b; discriminate.
      * apply best_loop_raise in E as (_ & Hd & Hne).
        apply Hz in Hd as [H1 H2]. auto.
    + intros (H1 & H2 & Hne). destruct ss as [|s ss]; [congruence|].
      apply Data64Facts.speaker_label_raise. apply Hz. auto.
  - unfold speaker_label, best_s_segment. intros e H.
    destruct (best_loop t ss zero None) as [[m b]|e'] eqn:E.
    + cbn [bind snd] in H. destruct b; discriminate.
    + cbn [bind] in H. injection H as <-.
      apply best_loop_raise in E as (-> & _). reflexivity.
  - intros Hd Hs Hm.
    destruct (Data64Facts.selection t ss Hd) as (_ & _ & H3 & _).
    rewrite (H3 Hs). f_equal. apply Data64Facts.fallback.
    apply Data64Facts.fallback. exact Hm.
Qed.

Lemma speaker_label_outcome_witness :
  speaker_label Samples64.t_unit [Samples64.s_huge] = Ok "Speaker Unknown".
Proof.
  assert (Hv : valid_segment Samples64.t_unit) by (split; vm_compute; reflexivity).
  refine (proj2 (proj2 (proj2 (speaker_label_outcome Samples64.t_unit
                                 [Samples64.s_huge] Hv))) _ _ _).
  - vm_compute. reflexivity.
  - intros s Hs. apply list_elem_of_singleton in Hs. subst s. vm_compute. reflexivity.
  - intros s Hs. apply list_elem_of_singleton in Hs. subst s. vm_compute. reflexivity.
Defined.

End Data64More.

(** ** From the file of data.py to the utterances of the converters *)

Module ReadBackMore.
Import Data64.

#[local] Arguments String.append !_ _ /.

Lemma chosen_exists ss : forall ts,
  Forall (fun t => exists l, speaker_label t ss = Ok l /\
                             l <> "Speaker Unknown") ts ->
  exists chosen,
    Forall2 (fun t s => s ∈ ss /\ speaker_label t ss = Ok (label_of s)) ts chosen.
Proof.
  induction 1 as [|t ts (l & Hl & Hu) _ (chosen & IH)].
  - exists []. constructor.
  - destruct (Data64More.speaker_label_cases _ _ _ Hl) as [->|(s & Hs & ->)];
      [congruence|].
    exists (s :: chosen). constructor; auto.
Qed.

Lemma loop_chosen ss : forall ts chosen written,
  Forall2 (fun t s => s ∈ ss /\ speaker_label t ss = Ok (label_of s)) ts chosen ->
  alignment_loop ts ss written
    = (written ++ zip_with line_of (map label_of chosen) ts, Ok true) /\
  Forall2 (fun t l => speaker_label t ss = Ok l) ts (map label_of chosen).
Proof.
  intros ts chosen written H. revert written.
  induction H as [|t s ts chosen [_ Hl] _ IH]; intros written.
  - cbn. rewrite app_nil_r. split; [reflexivity|constructor].
  - cbn [alignment_loop zip_with map]. rewrite Hl.
    destruct (IH (written ++ [line_of (label_of s) t])) as [-> HF].
    rewrite <- app_assoc. split; [reflexivity|]. constructor; assumption.
Qed.

Lemma file_text_written : forall (chosen : list SpeakerSegment) ts,
  file_text (zip_with line_of (map label_of chosen) ts)
  = written (zip_with (fun s t => (speaker_tag s, t_text t)) chosen ts).
Proof.
  induction chosen as [|s chosen IH]; intros [|t ts]; try reflexivity.
  cbn [zip_with map file_text written]. rewrite IH.
  unfold written_line, line_of, label_of. cbn [fst snd].
  rewrite !ParseMore.append_assoc_string. reflexivity.
Qed.

Lemma read_back_utterances : forall (chosen : list SpeakerSegment) ts,
  omap read_back (zip_with (fun s t => (speaker_tag s, t_text t)) chosen ts)
  = omap read_utterance
      (zip_with (fun l t => {| speaker := l; text := t_text t |})
         (map label_of chosen) ts).
Proof.
  induction chosen as [|s chosen IH]; intros [|t ts]; try reflexivity.
  cbn [zip_with map]. rewrite !ParseMore.omap_cons, IH. reflexivity.
Qed.

(** X19: The hand-over from data.py to the converters, through the file.  When
    every speaker tag is a run of digits (as the diarization gives them), no
    text contains a "Speaker <digits>:" or a carriage return, and the
    aligner gives every transcript segment a label other than
    "Speaker Unknown" (it raises at none), then the aligner finishes
    normally with one line per segment, and parsing its output file gives
    the attributed utterances in order, each with its text trimmed, leaving
    out those whose text is blank.  Text is text of code points below
    256. *)
Theorem aligner_file_read_back (ts : list TranscriptSegment)
    (ss : list SpeakerSegment) :
  Forall (fun s => all_digits (speaker_tag s) = true /\ speaker_tag s <> "") ss ->
  Forall (fun t => has_label (t_text t) = false /\
                   no_cr (t_text t) = true) ts ->
  Forall (fun t => exists l, speaker_label t ss = Ok l /\
                             l <> "Speaker Unknown") ts ->
  exists labels,
    Forall2 (fun t l => speaker_label t ss = Ok l) ts labels /\
    process_audio_file ts ss = (zip_with line_of labels ts, Ok true) /\
    parse_conversation_file (file_text (fst (process_audio_file ts ss)))
    = omap read_utterance
        (zip_with (fun l t => {| speaker := l; text := t_text t |}) labels ts).
Proof.
  intros Htags Hts Hlab.
  destruct (chosen_exists ss ts Hlab) as [chosen Hch].
  destruct (loop_chosen ss ts chosen [] Hch) as [Hp HF].
  exists (map label_of chosen). split; [exact HF|].
  unfold process_audio_file. rewrite Hp. cbn [fst app].
  split; [reflexivity|].
  rewrite file_text_written, <- read_back_utterances.
  apply ParseMore.parse_written.
  clear Hp HF Hlab. induction Hch as [|t s ts chosen [Hs _] _ IH]; [constructor|].
  apply Forall_cons in Hts as [[Ht Hn] Hts]. cbn [zip_with].
  constructor; [|apply IH; exact Hts]. cbn [fst snd].
  rewrite Forall_forall in Htags. destruct (Htags s Hs). auto.
Qed.

Lemma aligner_file_read_back_witness :
  exists labels,
    Forall2 (fun t l => speaker_label t Samples64.ss_12 = Ok l)
      [Samples64.t_hi; Samples64.t_how] labels /\
    process_audio_file [Samples64.t_hi; Samples64.t_how] Samples64.ss_12
    = (zip_with line_of labels [Samples64.t_hi; Samples64.t_how], Ok true) /\
    parse_conversation_file
      (file_text (fst (process_audio_file [Samples64.t_hi; Samples64.t_how]
                         Samples64.ss_12)))
    = omap read_utterance
        (zip_with (fun l t => {| speaker := l; text := t_text t |}) labels
           [Samples64.t_hi; Samples64.t_how]).
Proof.
  apply aligner_file_read_back.
  - repeat constructor; discriminate.
  - repeat constructor.
  - constructor; [|constructor; [|constructor]].
    + exists "Speaker 1". split; [vm_compute; reflexivity|discriminate].
    + exists "Speaker 2". split; [vm_compute; reflexivity|discriminate].
Defined.

Lemma findall_no_label : forall n s, String.length s <= n ->
  has_label s = false -> findall s = [].
Proof.
  induction n as [|n IH]; intros s Hn Hs.
  - destruct s; [apply findall_equation_1|cbn in Hn; lia].
  - destruct s as [|c s]; [apply findall_equation_1|].
    apply ParseMore.has_label_cons in Hs as [Hm Hs].
    rewrite ParseMore.findall_cons. unfold match_here. rewrite Hm.
    apply IH; [cbn in Hn; lia|exact Hs].
Qed.

Lemma has_label_nl b R :
  has_label b = false ->
  has_label (b +:+ String (ascii_of_nat 10) R) = has_label R.
Proof.
  induction b as [|c b IH]; intros Hb; [reflexivity|].
  apply ParseMore.has_label_cons in Hb as [Hm Hb].
  cbn [String.append]. change (has_label (String c ?x))
    with (match match_label (String c x) with
          | Some _ => true
          | None => has_label x
          end).
  pose proof (ParseMore.match_label_nl (String c b) R Hm) as E.
  cbn [String.append] in E. rewrite E. apply IH. exact Hb.
Qed.

Lemma has_label_unknown text :
  has_label text = false -> has_label ("Speaker Unknown: " +:+ text) = false.
Proof. intros H. vm_compute. exact H. Qed.

Lemma no_speakers_lines (ts : list TranscriptSegment) : forall written,
  alignment_loop ts [] written
  = (written ++ map (fun t => "Speaker Unknown: " +:+ t_text t) ts, Ok true).
Proof.
  induction ts as [|t ts IH]; intros written.
  - cbn. rewrite app_nil_r. reflexivity.
  - cbn [alignment_loop].
    change (speaker_label t []) with (Ok "Speaker Unknown" : result string).
    cbn iota. rewrite IH, <- app_assoc. reflexivity.
Qed.

(** X20: Without any speaker segment the aligner finishes normally and its
    file holds one line per transcript segment, each labelled
    "Speaker Unknown"; the converters read no utterance at all from that
    file, as long as no text contains a "Speaker <digits>:" or a carriage
    return.  Text is text of code points below 256. *)
Theorem no_speakers_nothing_read (ts : list TranscriptSegment) :
  Forall (fun t => has_label (t_text t) = false /\
                   no_cr (t_text t) = true) ts ->
  process_audio_file ts []
  = (map (fun t => "Speaker Unknown: " +:+ t_text t) ts, Ok true) /\
  parse_conversation_file (file_text (fst (process_audio_file ts []))) = [].
Proof.
  intros Hts. unfold process_audio_file. rewrite no_speakers_lines.
  cbn [fst app]. split; [reflexivity|].
  unfold parse_conversation_file. cbn zeta.
  rewrite ParseMore.universal_newlines_id.
  - rewrite (findall_no_label _ _ (le_n _)); [reflexivity|].
    induction Hts as [|t ts [Ht _] _ IH]; [reflexivity|].
    cbn [map file_text]. unfold newline.
    change (String (ascii_of_nat 10) "" +:+ ?x) with (String (ascii_of_nat 10) x).
    rewrite has_label_nl by (apply has_label_unknown; exact Ht). exact IH.
  - induction Hts as [|t ts [_ Hn] _ IH]; [reflexivity|].
    cbn [map file_text]. rewrite !ParseMore.no_cr_app, IH, Hn. reflexivity.
Qed.

Lemma no_speakers_nothing_read_witness :
  parse_conversation_file
    (file_text (fst (process_audio_file [Samples64.t_hi; Samples64.t_how] [])))
  = [].
Proof.
  apply (no_speakers_nothing_read [Samples64.t_hi; Samples64.t_how]).
  repeat constructor.
Defined.

End ReadBackMore.

(** ** The batch run of data.py *)

Module DataMainMore.
Import Data DataMain.

Lemma zero_duration_true t :
  zero_duration t = true <-> (t_end t == t_start t)%Q.
Proof. unfold zero_duration. apply Qeq_bool_iff. Qed.

Lemma process_outcome ss : forall ts f,
  snd (process_audio_file ts ss f)
  = if aborts ts ss then Raise ZeroDivisionError else Ok true.
Proof.
  destruct ss as [|s ss].
  - intros ts f.
    destruct (DataFacts.process_audio_file_ok [] ts f) as (labels & _ & ->);
      [left; reflexivity|reflexivity].
  - induction ts as [|t ts IH]; intros f; [reflexivity|].
    cbn [process_audio_file aborts existsb].
    destruct (zero_duration t) eqn:Ez.
    + apply zero_duration_true in Ez.
      rewrite DataFacts.speaker_label_zero by lra. reflexivity.
    + destruct (DataFacts.speaker_label_total t (s :: ss)) as [l ->].
      * intros Hz. assert (Ht : zero_duration t = true)
          by (apply zero_duration_true; lra). congruence.
      * apply IH.
Qed.

Lemma visit_fate audio st file :
  visit audio st file
  = match fate audio file with
    | is_processed =>
        {| processed_files := processed_files st ++ [file];
           skipped_files := skipped_files st;
           failed_files := failed_files st |}
    | is_skipped =>
        {| processed_files := processed_files st;
           skipped_files := skipped_files st ++ [file];
           failed_files := failed_files st |}
    | is_failed =>
        {| processed_files := processed_files st;
           skipped_files := skipped_files st;
           failed_files := failed_files st ++ [file] |}
    end.
Proof.
  unfold visit, fate. destruct (audio file) as [[ts ss]|]; [|reflexivity].
  rewrite process_outcome. destruct (aborts ts ss); reflexivity.
Qed.

Lemma batch_fold audio : forall files st,
  fold_left (visit audio) files st
  = {| processed_files :=
         processed_files st ++ filter (fun f => fate audio f = is_processed) files;
       skipped_files :=
         skipped_files st ++ filter (fun f => fate audio f = is_skipped) files;
       failed_files :=
         failed_files st ++ filter (fun f => fate audio f = is_failed) files |}.
Proof.
  induction files as [|file files IH]; intros st.
  - cbn. rewrite !app_nil_r. destruct st; reflexivity.
  - cbn [fold_left]. rewrite IH, visit_fate, !filter_cons.
    destruct (fate audio file); cbn [processed_files skipped_files failed_files];
      repeat (rewrite decide_True by reflexivity);
      repeat (rewrite decide_False by discriminate);
      rewrite <- ?app_assoc; reflexivity.
Qed.

(** X21: The batch run sorts every file into exactly one of its three lists, in
    the order of [episode_files]: a file that does not exist is skipped; a
    file for which there are speaker segments and some transcript segment of
    zero duration fails; every other file is processed, because the
    alignment never returns anything but [True]. *)
Theorem batch_sorting
    (audio : string -> option (list TranscriptSegment * list SpeakerSegment))
    (episode_files : list string) :
  let r := main audio episode_files in
  processed_files r = filter (fun f => fate audio f = is_processed) episode_files /\
  skipped_files r = filter (fun f => fate audio f = is_skipped) episode_files /\
  failed_files r = filter (fun f => fate audio f = is_failed) episode_files /\
  length (processed_files r) + length (skipped_files r) + length (failed_files r)
  = length episode_files.
Proof.
  cbn zeta. unfold main. rewrite batch_fold.
  cbn [processed_files skipped_files failed_files app].
  repeat split. induction episode_files as [|file files IH]; [reflexivity|].
  rewrite !filter_cons.
  destruct (fate audio file); repeat case_decide; try congruence;
    cbn [length]; lia.
Qed.

End DataMainMore.

(** ** The run of preprocess_data.py *)

Module PreprocessDataMainMore.
Import PreprocessData PreprocessDataMain.

Lemma count_cons f m data :
  count_from f (m :: data)
  = (if decide (from m = f) then 1 else 0) + count_from f data.
Proof.
  unfold count_from. rewrite filter_cons.
  destruct (decide (from m = f)); reflexivity.
Qed.

Lemma alternates_counts (data : list Msg) :
  alternates (map from data) ->
  count_from human data + count_from gpt data = length data /\
  match data with
  | [] => True
  | m :: _ =>
      if decide (from m = human)
      then count_from human data = count_from gpt data \/
           count_from human data = count_from gpt data + 1
      else count_from gpt data = count_from human data \/
           count_from gpt data = count_from human data + 1
  end.
Proof.
  induction data as [|m data IH]; [cbn; auto|].
  intros Halt. rewrite !count_cons. cbn [length].
  assert (Htail : alternates (map from data)).
  { destruct data; [exact I|]. cbn in Halt. apply Halt. }
  destruct (IH Htail) as [Hsum Hhead]. split.
  - destruct (from m); repeat case_decide; try congruence; lia.
  - destruct data as [|m' data'].
    + change (count_from human []) with 0. change (count_from gpt []) with 0.
      destruct (from m); repeat case_decide; try congruence; lia.
    + destruct Halt as [Hne _]. cbn [map] in Hne.
      destruct (from m), (from m'); repeat case_decide; try congruence; lia.
Qed.

(** X22: The numbers that [main] prints: every message is a human or an
    assistant message, and since the messages alternate the two counts
    differ by one at most. *)
Theorem training_counts (THERAPIST_SPEAKERS PARTNER_A_SPEAKERS
    PARTNER_B_SPEAKERS EXCLUDED_SPEAKERS : list string) (content : string) :
  let '(n, h, g) := main THERAPIST_SPEAKERS PARTNER_A_SPEAKERS
                      PARTNER_B_SPEAKERS EXCLUDED_SPEAKERS content in
  n = h + g /\ h <= g + 1 /\ g <= h + 1.
Proof.
  unfold main, convert_file. cbn zeta.
  set (self := setup_speaker_mapping _ _ _ _).
  set (us := parse_conversation_file content).
  destruct (PreprocessDataFacts.group_shape self us) as [Hc Hr].
  assert (Halt : alternates
            (map from (convert_to_training_format
                         (group_consecutive_utterances self us)))).
  { rewrite PreprocessDataFacts.from_training_format.
    apply GrouperFacts.alternates_from; [|exact Hr].
    apply Forall_map. eapply Forall_impl; [exact Hc|]. intros g [H _]. exact H. }
  destruct (alternates_counts _ Halt) as [Hsum Hhead].
  destruct (convert_to_training_format _) as [|m data]; [cbn; lia|].
  destruct (decide (from m = human)); lia.
Qed.

End PreprocessDataMainMore.

(** ** The batch run of preprocessing_data_3.py *)

Module PreprocessingData3MainMore.
Import PreprocessingData3 PreprocessingData3Main.

Lemma count_exchanges (l : list (Msg * Msg)) :
  Forall (fun e => from (fst e) = human /\ from (snd e) = gpt) l ->
  let ms := flat_map (fun e => [fst e; snd e]) l in
  count_from human ms = length l /\ count_from gpt ms = length l /\
  length ms = 2 * length l.
Proof.
  induction 1 as [|e l [H1 H2] _ IH]; [cbn; auto|].
  cbn zeta in *. destruct IH as (Ih & Ig & Il).
  unfold count_from in *. cbn [flat_map app length].
  rewrite !filter_cons, H1, H2.
  repeat case_decide; try congruence; cbn [length]; lia.
Qed.

Lemma fold_counts (lines : list Conversation) :
  Forall (fun c => count_from human (conversations c)
                   = count_from gpt (conversations c) /\
                   length (conversations c)
                   = 2 * count_from human (conversations c)) lines ->
  forall st, human_messages st = gpt_messages st ->
  total_messages st = 2 * human_messages st ->
  let r := fold_left count_line lines st in
  total_conversations r = total_conversations st /\
  human_messages r = gpt_messages r /\
  total_messages r = 2 * human_messages r.
Proof.
  induction 1 as [|c lines [Hc1 Hc2] _ IH]; intros st H1 H2; [cbn; auto|].
  cbn [fold_left]. destruct (IH (count_line st c)) as (A & B & C);
    [cbn; lia|cbn; lia|]. cbn zeta in *. rewrite A. auto.
Qed.

Lemma windows_balanced dp w cs :
  create_sliding_window_conversations dp w = Ok cs ->
  Forall (fun c => count_from human (conversations c)
                   = count_from gpt (conversations c) /\
                   length (conversations c)
                   = 2 * count_from human (conversations c)) cs.
Proof.
  destruct (WindowFacts.find_valid_pairs_sound dp) as [exs Hex].
  rewrite (WindowFacts.create_windows dp exs w Hex). intros [= <-].
  apply Forall_map, Forall_forall. intros k _. cbn [conversations].
  unfold exchanges_between.
  destruct (count_exchanges (take (k + 1 - start_idx k w)
                               (drop (start_idx k w) exs))) as (Hh & Hg & Hl).
  { apply Forall_take, Forall_drop. exact (WindowMore.exchange_roles _ _ _ Hex). }
  lia.
Qed.

Lemma statistics_spec (lines : list Conversation) :
  Forall (fun c => count_from human (conversations c)
                   = count_from gpt (conversations c) /\
                   length (conversations c)
                   = 2 * count_from human (conversations c)) lines ->
  lines <> [] ->
  exists st average,
    statistics lines = Ok (st, average) /\
    total_conversations st = length lines /\
    human_messages st = gpt_messages st /\
    total_messages st = 2 * human_messages st /\
    (average == inject_Z (Z.of_nat (total_messages st))
                / inject_Z (Z.of_nat (length lines)))%Q.
Proof.
  intros Hbal Hne. unfold statistics.
  destruct (fold_counts lines Hbal
              {| total_conversations := length lines; total_messages := 0;
                 human_messages := 0; gpt_messages := 0 |})
    as (A & B & C); [reflexivity|reflexivity|].
  cbn zeta in *. cbn [total_conversations] in A.
  set (st := fold_left count_line lines _) in *.
  rewrite A. unfold Data.py_div.
  destruct (Qeq_bool (inject_Z (Z.of_nat (length lines))) 0) eqn:E.
  - apply Qeq_bool_iff in E. unfold Qeq in E. cbn in E.
    destruct lines; [congruence|]. cbn [length] in E. lia.
  - cbn [bind]. exists st. eexists. split; [reflexivity|].
    split; [exact A|]. split; [exact B|]. split; [exact C|]. reflexivity.
Qed.

(** X23: The statistics that [main] computes on the windows of one episode: with
    no window at all the average divides by zero and raises; otherwise the
    number of conversations is the number of windows, there are as many
    human as gpt messages, and together they are all the messages. *)
Theorem statistics_of_windows (dp : list Msg) (w : Z) (cs : list Conversation) :
  create_sliding_window_conversations dp w = Ok cs ->
  (cs = [] -> statistics cs = Raise ZeroDivisionError) /\
  (cs <> [] ->
   exists st average,
     statistics cs = Ok (st, average) /\
     total_conversations st = length cs /\
     human_messages st = gpt_messages st /\
     total_messages st = human_messages st + gpt_messages st /\
     (average == inject_Z (Z.of_nat (total_messages st))
                 / inject_Z (Z.of_nat (length cs)))%Q).
Proof.
  intros Hcs. split; [intros ->; reflexivity|]. intros Hne.
  destruct (statistics_spec cs (windows_balanced dp w cs Hcs) Hne)
    as (st & average & E & A & B & C & D).
  exists st, average. split; [exact E|]. split; [exact A|].
  split; [exact B|]. split; [lia|exact D].
Qed.

Lemma statistics_of_windows_witness :
  exists st average,
    statistics [ {| conversations := [Samples.msg human "a"; Samples.msg gpt "b"] |} ]
    = Ok (st, average) /\
    total_messages st = 2 /\ human_messages st = gpt_messages st.
Proof.
  assert (H : create_sliding_window_conversations
                [Samples.msg human "a"; Samples.msg gpt "b"] 5
              = Ok [ {| conversations :=
                          [Samples.msg human "a"; Samples.msg gpt "b"] |} ])
    by (vm_compute; reflexivity).
  destruct (proj2 (statistics_of_windows _ _ _ H) ltac:(discriminate))
    as (st & average & E & A & B & C & D).
  exists st, average. split; [exact E|]. split; [|exact B].
  vm_compute in E. injection E as <- _. reflexivity.
Defined.

Lemma convert_windows config content w :
  exists cs,
    convert_file (converter_of config) content w = Ok cs /\
    length cs = length (find_valid_pairs (pairs_of config content)) /\
    Forall (fun c => count_from human (conversations c)
                     = count_from gpt (conversations c) /\
                     length (conversations c)
                     = 2 * count_from human (conversations c)) cs.
Proof.
  unfold convert_file. cbn zeta. fold (pairs_of config content).
  destruct (WindowFacts.find_valid_pairs_sound (pairs_of config content))
    as [exs Hex].
  pose proof (WindowFacts.create_windows _ exs w Hex) as E.
  eexists. split; [exact E|]. split.
  - rewrite length_map, length_seq. symmetry. exact (Forall2_length _ _ _ Hex).
  - exact (windows_balanced _ w _ E).
Qed.

Lemma episode_outcome SPEAKER_CONFIGS files w st n config content :
  SPEAKER_CONFIGS !! n = Some config ->
  files n = Some content ->
  exists cs,
    convert_file (converter_of config) content w = Ok cs /\
    length cs = length (find_valid_pairs (pairs_of config content)) /\
    episode SPEAKER_CONFIGS files w st n
    = if decide (find_valid_pairs (pairs_of config content) = [])
      then failed (wrote st n cs) else processed (wrote st n cs).
Proof.
  intros Hc Hf. destruct (convert_windows config content w) as (cs & E & Hlen & Hbal).
  exists cs. split; [exact E|]. split; [exact Hlen|].
  unfold episode. rewrite Hc, Hf, E. cbn zeta.
  destruct (decide (find_valid_pairs (pairs_of config content) = [])) as [Hnil|Hsome].
  - rewrite Hnil in Hlen. destruct cs; [reflexivity|discriminate].
  - destruct (statistics_spec cs Hbal) as (s0 & a0 & -> & _); [|reflexivity].
    intros ->. cbn in Hlen. symmetry in Hlen.
    apply length_zero_iff_nil in Hlen. contradiction.
Qed.

(** X24: An episode that is configured and whose file exists, but in which no
    client turn is directly followed by a therapist turn: its output file is
    written (with no line), and then the average of the statistics divides
    by zero, so the episode is counted as failed.  With at least one such
    exchange the file holds one conversation per exchange and the episode is
    counted as processed. *)
Theorem empty_conversion_counts_as_failed (SPEAKER_CONFIGS : gmap Z Config)
    (files : Z -> option string) (w : Z) (st : Run) (n : Z)
    (config : Config) (content : string) :
  SPEAKER_CONFIGS !! n = Some config ->
  files n = Some content ->
  let exchanges := find_valid_pairs (pairs_of config content) in
  (exchanges = [] ->
   episode SPEAKER_CONFIGS files w st n
   = {| total_processed := total_processed st;
        total_failed := total_failed st + 1;
        outputs := outputs st ++ [(n, [])] |}) /\
  (exchanges <> [] ->
   exists cs, length cs = length exchanges /\
     episode SPEAKER_CONFIGS files w st n
     = {| total_processed := total_processed st + 1;
          total_failed := total_failed st;
          outputs := outputs st ++ [(n, cs)] |}).
Proof.
  intros Hc Hf exchanges.
  destruct (episode_outcome SPEAKER_CONFIGS files w st n config content Hc Hf)
    as (cs & _ & Hlen & E).
  fold exchanges in Hlen, E. split; intros Hex.
  - rewrite E, decide_True by exact Hex. rewrite Hex in Hlen.
    destruct cs; [reflexivity|discriminate].
  - exists cs. split; [exact Hlen|]. rewrite E, decide_False by exact Hex.
    reflexivity.
Qed.

Lemma empty_conversion_counts_as_failed_witness :
  episode {[1%Z := BatchSamples.config_6]}
    (fun _ => Some BatchSamples.monologue) 5 BatchSamples.fresh 1
  = {| total_processed := 0; total_failed := 1; outputs := [(1%Z, [])] |}.
Proof.
  refine (proj1 (empty_conversion_counts_as_failed
                   {[1%Z := BatchSamples.config_6]}
                   (fun _ => Some BatchSamples.monologue) 5 BatchSamples.fresh 1
                   BatchSamples.config_6 BatchSamples.monologue _ _) _).
  - apply lookup_singleton_eq.
  - reflexivity.
  - vm_compute. reflexivity.
Defined.

Lemma episode_step SPEAKER_CONFIGS files w st n :
  let st' := episode SPEAKER_CONFIGS files w st n in
  (succeeds SPEAKER_CONFIGS files n /\
   total_processed st' = total_processed st + 1 /\
   total_failed st' = total_failed st /\
   length (outputs st') = length (outputs st) + 1) \/
  (~ succeeds SPEAKER_CONFIGS files n /\
   total_processed st' = total_processed st /\
   total_failed st' = total_failed st + 1 /\
   length (outputs st) <= length (outputs st') <= length (outputs st) + 1).
Proof.
  cbn zeta. destruct (SPEAKER_CONFIGS !! n) as [config|] eqn:Hc.
  - destruct (files n) as [content|] eqn:Hf.
    + destruct (episode_outcome SPEAKER_CONFIGS files w st n config content Hc Hf)
        as (cs & _ & _ & ->).
      destruct (decide (find_valid_pairs (pairs_of config content) = []))
        as [Hnil|Hsome].
      * right. split.
        { intros (c' & t' & H1 & H2 & H3). congruence. }
        cbn. rewrite length_app. cbn. lia.
      * left. split; [exists config, content; auto|].
        cbn. rewrite length_app. cbn. lia.
    + right. split.
      { intros (c' & t' & H1 & H2 & H3). congruence. }
      unfold episode. rewrite Hc, Hf. cbn. lia.
  - right. split.
    { intros (c' & t' & H1 & H2 & H3). congruence. }
    unfold episode. rewrite Hc. cbn. lia.
Qed.

Lemma episodes_fold SPEAKER_CONFIGS files w : forall eps st,
  let st' := fold_left (episode SPEAKER_CONFIGS files w) eps st in
  total_processed st' + total_failed st'
  = total_processed st + total_failed st + length eps /\
  total_failed st <= total_failed st' /\
  (total_failed st' = total_failed st <->
   Forall (succeeds SPEAKER_CONFIGS files) eps) /\
  total_processed st' + length (outputs st)
  <= length (outputs st') + total_processed st /\
  length (outputs st') <= length (outputs st) + length eps.
Proof.
  induction eps as [|n eps IH]; intros st.
  - cbn. repeat split; try lia. constructor.
  - cbn [fold_left length]. cbn zeta.
    specialize (IH (episode SPEAKER_CONFIGS files w st n)). cbn zeta in IH.
    destruct IH as (A & B & C & D & D').
    destruct (episode_step SPEAKER_CONFIGS files w st n)
      as [(Hs & P & F & O)|(Hs & P & F & O)]; cbn zeta in *.
    + split; [lia|]. split; [lia|]. split; [|lia]. split.
      * intros H. constructor; [exact Hs|]. apply C. lia.
      * intros H. apply Forall_cons in H as [_ H]. apply C in H. lia.
    + split; [lia|]. split; [lia|]. split; [|lia]. split.
      * intros H. lia.
      * intros H. apply Forall_cons in H as [H _]. contradiction.
Qed.

(** X25: The whole batch: every episode is counted once, as processed or as
    failed; the value returned is 0 exactly when every episode listed is
    configured, has its file and has at least one exchange in it, and 1
    otherwise; and at least the processed episodes have left an output
    file. *)
Theorem main_exit_code (EPISODES_TO_PROCESS : list Z)
    (SPEAKER_CONFIGS : gmap Z Config) (files : Z -> option string) (w : Z) :
  let '(st, code) := main EPISODES_TO_PROCESS SPEAKER_CONFIGS files w in
  total_processed st + total_failed st = length EPISODES_TO_PROCESS /\
  (code = 0%Z <-> Forall (succeeds SPEAKER_CONFIGS files) EPISODES_TO_PROCESS) /\
  (code = 1%Z <-> ~ Forall (succeeds SPEAKER_CONFIGS files) EPISODES_TO_PROCESS) /\
  total_processed st <= length (outputs st) <= length EPISODES_TO_PROCESS.
Proof.
  unfold main.
  destruct (episodes_fold SPEAKER_CONFIGS files w EPISODES_TO_PROCESS
              {| total_processed := 0; total_failed := 0; outputs := [] |})
    as (A & B & C & D & D').
  cbn zeta in *. cbn [total_processed total_failed outputs length] in *.
  set (st := fold_left _ _ _) in *.
  split; [lia|]. split; [|split; [|lia]].
  - destruct (decide (0 < total_failed st)) as [H|H].
    + split; [discriminate|]. intros HF. apply C in HF. lia.
    + split; [|reflexivity]. intros _. apply C. lia.
  - destruct (decide (0 < total_failed st)) as [H|H].
    + split; [|reflexivity]. intros _ HF. apply C in HF. lia.
    + split; [discriminate|]. intros HF. exfalso. apply HF, C. lia.
Qed.

Lemma is_digit_char (n : N) : is_digit (pretty_N_char n) = true.
Proof.
  destruct n as [|p]; [reflexivity|].
  do 4 (try destruct p as [p|p|]); reflexivity.
Qed.

Lemma pretty_go_digits (x : N) : forall s,
  all_digits s = true ->
  all_digits (pretty_N_go x s) = true /\
  String.length s <= String.length (pretty_N_go x s).
Proof.
  induction (N.lt_wf_0 x) as [x _ IH]. intros s Hs.
  destruct (decide (0 < x)%N) as [Hpos|Hzero].
  - rewrite pretty_N_go_step by exact Hpos.
    destruct (IH (x `div` 10)%N (N.div_lt x 10 Hpos eq_refl)
                (String (pretty_N_char (x `mod` 10)) s)) as [Hd Hl].
    + cbn [all_digits]. rewrite is_digit_char. exact Hs.
    + split; [exact Hd|]. cbn [String.length] in Hl. lia.
  - replace x with 0%N by lia. rewrite pretty_N_go_0. auto.
Qed.

Lemma pretty_digits (n : Z) :
  (0 <= n)%Z -> all_digits (pretty n) = true /\ pretty n <> "".
Proof.
  intros Hn. destruct n as [|p|p]; [split; [reflexivity|discriminate]| |lia].
  change (pretty (Z.pos p)) with (pretty (N.pos p)).
  unfold pretty, pretty_N. rewrite decide_False by discriminate.
  rewrite pretty_N_go_step by reflexivity.
  destruct (pretty_go_digits (N.pos p `div` 10)
              (String (pretty_N_char (N.pos p `mod` 10)) ""))
    as [Hd Hl].
  - cbn [all_digits]. rewrite is_digit_char. reflexivity.
  - split; [exact Hd|]. intros E. rewrite E in Hl. cbn in Hl. lia.
Qed.

(** X26: The speakers that [main] configures from numbers are speakers that the
    parser can read: from a file in which data.py has written a line for
    each (number, text) of [rows], the numbers not negative and rendered in
    decimal, the texts without a "Speaker <digits>:" and without a carriage
    return, the parser reads each line back (with the text trimmed, blank
    texts left out), and every speaker it reads is one that
    [numbers_to_speakers] gives for the numbers of [rows].  Text is text of
    code points below 256. *)
Theorem configured_speakers_read (rows : list (Z * string)) :
  Forall (fun r => (0 <= fst r)%Z /\ has_label (snd r) = false /\
                   no_cr (snd r) = true) rows ->
  let us := parse_conversation_file
              (written (map (fun r => (pretty (fst r), snd r)) rows)) in
  us = omap (fun r => read_back (pretty (fst r), snd r)) rows /\
  Forall (fun u => speaker u ∈ numbers_to_speakers (map fst rows)) us.
Proof.
  intros Hrows. cbn zeta.
  assert (E : parse_conversation_file
                (written (map (fun r => (pretty (fst r), snd r)) rows))
              = omap (fun r => read_back (pretty (fst r), snd r)) rows).
  { rewrite ParseMore.parse_written.
    - clear Hrows. induction rows as [|r rows IH]; [reflexivity|].
      cbn [map]. rewrite !ParseMore.omap_cons, IH. reflexivity.
    - apply Forall_map. eapply Forall_impl; [exact Hrows|].
      intros r (Hr & Hl & Hn). cbn [fst snd].
      destruct (pretty_digits (fst r) Hr). auto. }
  split; [exact E|]. rewrite E. apply Forall_forall. intros u Hu.
  apply list_elem_of_omap in Hu as (r & Hr & Hu). unfold read_back in Hu.
  cbn [fst snd] in Hu. destruct (decide (strip (snd r) = "")); [discriminate|].
  injection Hu as <-. cbn [speaker]. unfold numbers_to_speakers.
  rewrite map_map. apply list_elem_of_fmap. exists r. auto.
Qed.

Lemma configured_speakers_read_witness :
  parse_conversation_file
    (written (map (fun r : Z * string => (pretty (fst r), snd r))
                [(6%Z, " so "); (12%Z, "yes")]))
  = omap (fun r : Z * string => read_back (pretty (fst r), snd r))
      [(6%Z, " so "); (12%Z, "yes")].
Proof.
  refine (proj1 (configured_speakers_read [(6%Z, " so "); (12%Z, "yes")] _)).
  repeat constructor; cbn; lia.
Defined.

End PreprocessingData3MainMore.
